(** * cleu: the mailbox browser of [cmd/read.go]

    A shallow embedding of the session-backed, paginated mailbox browser:
    the page-range arithmetic of [fetchEmails], the MIME decoder
    [parseEmailBody], the body-fetch pipeline [fetchEmailBodyParsed], the
    trash pipeline [moveEmailToTrash] and the Bubble Tea state machine
    [App.Update]; then the text helpers [Email.Title] and
    [cleanupWhitespace], and the send command: [parseRecipients], the
    validators of the form, [buildEmailMessage] and [sendEmail].

    Conventions.
    - Go's [uint32] is a [Z] in [0, 2^32) with the wrap-around written out
      ([U32]); Go's [int] is a 64-bit two's complement [Z] ([GoInt]).
    - Go's [error] is a [string] (its [Error()] text); a nilable error is
      an [option error].
    - Code outside the repository (the IMAP client, the Go MIME packages,
      the Bubbles widgets, the Glamour renderer, the SMTP client) enters
      as records of operations: [ImapOps], [MimeLib], [Toolkit],
      [SmtpOps]; [strings.TrimSpace] is a section variable. *)

From Stdlib Require Import ZArith List String Ascii Bool Lia DecimalString.
From Stdlib Require Import Permutation.
Import ListNotations.

Local Open Scope string_scope.
Local Open Scope list_scope.
Local Open Scope Z_scope.

Set Implicit Arguments.

(* ================================================================== *)
(** ** Machine integers *)

Module U32.
Definition modulus : Z := 2 ^ 32.

Definition wrap (x : Z) : Z := x mod modulus.

Definition add (a b : Z) : Z := wrap (a + b).
Definition sub (a b : Z) : Z := wrap (a - b).

(** [x--] on a [uint32]. *)
Definition dec (a : Z) : Z := sub a 1.

Definition in_range (x : Z) : Prop := 0 <= x < modulus.

End U32.

Module GoInt.
Definition half : Z := 2 ^ 63.

(** Two's complement reduction to 64 bits. *)
Definition wrap (x : Z) : Z := (x + half) mod (2 * half) - half.

Definition sub (a b : Z) : Z := wrap (a - b).
Definition mul (a b : Z) : Z := wrap (a * b).
Definition add (a b : Z) : Z := wrap (a + b).

(** The conversion [uint32(x)] of an [int]. *)
Definition to_uint32 (x : Z) : Z := U32.wrap x.

Definition in_range (x : Z) : Prop := - half <= x < half.

End GoInt.

Definition error : Type := string.

(* ================================================================== *)
(** ** Messages *)

(** [type Email struct].  [Date] is the instant of [time.Time] as a
    number; the zero [Email] has the zero instant. *)
Record Email : Type := mkEmail {
  UID : Z;
  Subject : string;
  From : string;
  To : string;
  Date : Z;
  Body : string;
  HTMLBody : string;
  TextBody : string;
  ContentType : string;
  Seen : bool
}.

(** [var email Email] *)
Definition zeroEmail : Email := mkEmail 0 "" "" "" 0 "" "" "" "" false.

Definition set_Body (v : string) (e : Email) : Email :=
  mkEmail (UID e) (Subject e) (From e) (To e) (Date e)
          v (HTMLBody e) (TextBody e) (ContentType e) (Seen e).
Definition set_HTMLBody (v : string) (e : Email) : Email :=
  mkEmail (UID e) (Subject e) (From e) (To e) (Date e)
          (Body e) v (TextBody e) (ContentType e) (Seen e).
Definition set_TextBody (v : string) (e : Email) : Email :=
  mkEmail (UID e) (Subject e) (From e) (To e) (Date e)
          (Body e) (HTMLBody e) v (ContentType e) (Seen e).
Definition set_ContentType (v : string) (e : Email) : Email :=
  mkEmail (UID e) (Subject e) (From e) (To e) (Date e)
          (Body e) (HTMLBody e) (TextBody e) v (Seen e).

(** [s == ""] *)
Definition is_empty (s : string) : bool :=
  match s with EmptyString => true | String _ _ => false end.

(** [strings.HasPrefix(s, p)] *)
Definition HasPrefix (s p : string) : bool := String.prefix p s.

(** [%d] of a number. *)
Definition fmt_d (n : Z) : string := NilZero.string_of_int (Z.to_int n).

(** A message with the body fields of another: what a body-loaded
    completion makes of an entry of the index. *)
Definition with_body_of (body target : Email) : Email :=
  mkEmail (UID target) (Subject target) (From target) (To target)
          (Date target) (Body body) (HTMLBody body) (TextBody body)
          (ContentType body) (Seen target).

(** The zero message with the raw bytes as its display body and the
    content type [text/plain]: what the body pipeline returns when
    decoding fails. *)
Definition fallback_email (rawBody : string) : Email :=
  mkEmail 0 "" "" "" 0 rawBody "" "" "text/plain" false.

(* ================================================================== *)
(** ** Page ranges ([fetchEmails], the arithmetic between the mailbox
       selection and [seqSet.AddRange]) *)

Module Pagination.

(** [[
    totalMessages := mailbox.Messages
    end := totalMessages - uint32((page-1)*perPage)
    start := end - uint32(perPage) + 1
    if start < 1 { start = 1 }
    if end > totalMessages { end = totalMessages }
    ]]
    The pair is [(start, end)], the arguments of [seqSet.AddRange]. *)
Definition fetchEmails_range (totalMessages page perPage : Z) : Z * Z :=
  let end_ :=
    U32.sub totalMessages
            (GoInt.to_uint32 (GoInt.mul (GoInt.sub page 1) perPage)) in
  let start := U32.add (U32.sub end_ (GoInt.to_uint32 perPage)) 1 in
  let start := if start <? 1 then 1 else start in
  let end_ := if end_ >? totalMessages then totalMessages else end_ in
  (start, end_).

(** The range of page [N] as the data model words it:
    [[total - N*size + 1, total - (N-1)*size]] clamped to [[1, total]]. *)
Definition page_range_spec (total N size : Z) : Z * Z :=
  (Z.max 1 (total - N * size + 1), Z.min total (total - (N - 1) * size)).

(** [uint32(loadedCount) < a.totalMessages] *)
Definition more_available (loadedCount totalMessages : Z) : bool :=
  GoInt.to_uint32 loadedCount <? totalMessages.

End Pagination.

(* ================================================================== *)
(** ** Results and the session monad *)

(** A Go pair [(value, err)] of which exactly one side is meaningful. *)
Inductive result (A : Type) : Type :=
| Ok (a : A)
| Err (e : error).
Arguments Err {A} e.

(** A computation over the session handle: the client is threaded
    through every call. *)
Definition Session (C A : Type) : Type := C -> C * A.

Definition ret {C A : Type} (a : A) : Session C A := fun c => (c, a).

Definition bind {C A B : Type} (m : Session C A) (k : A -> Session C B)
  : Session C B :=
  fun c => let (c', a) := m c in k a c'.

Declare Scope session_scope.
Delimit Scope session_scope with session.
Notation "x <- m ;; k" := (bind m (fun x => k))
  (at level 61, m at next level, right associativity) : session_scope.

(* ================================================================== *)
(** ** The IMAP client (package [go-imap], outside the repository) *)

Record Address : Type := mkAddress {
  PersonalName : string;
  MailboxName : string;
  HostName : string
}.

Record Envelope : Type := mkEnvelope {
  env_Date : Z;
  env_Subject : string;
  env_From : list (option Address);
  env_To : list (option Address)
}.

(** A body literal is an [io.Reader]; what matters of it is what
    [io.ReadAll] returns. *)
Definition Literal : Type := result string.

(** [imap.Message], the fields the browser reads.  [msg_Body] lists the
    values of the [Body] map in the order the [range] loop visits them;
    [None] is a nil value, for which the assertion [value.(io.Reader)]
    fails. *)
Record ImapMessage : Type := mkImapMessage {
  msg_Envelope : option Envelope;
  msg_Flags : list string;
  msg_Uid : Z;
  msg_Body : list (option Literal)
}.

Record MailboxStatus : Type := mkMailboxStatus { Messages : Z }.

(** The operations of [client.Client] that the browser calls.  [Fetch]
    and [UidFetch] give the messages delivered on the channel: their
    error is only logged by the caller. *)
Record ImapOps (C : Type) : Type := mkImapOps {
  connectToServer : string -> string -> string -> string -> result C;
  Select : string -> Session C (result MailboxStatus);
  Fetch : Z -> Z -> Session C (list ImapMessage);
  UidFetch : Z -> Session C (list ImapMessage);
  UidMove : Z -> string -> Session C (option error);
  UidStore : Z -> string -> list string -> Session C (option error);
  Expunge : Session C (option error);
  Logout : Session C (option error)
}.

Definition SeenFlag : string := "\Seen".
Definition DeletedFlag : string := "\Deleted".

(** [imap.FormatFlagsOp(imap.AddFlags, true)] *)
Definition AddFlagsSilent : string := "+FLAGS.SILENT".

(* ================================================================== *)
(** ** The Go MIME packages ([net/mail], [mime], [mime/multipart]) *)

(** One call of [reader.NextPart()] followed, when it gives a part, by
    [io.ReadAll(part)] and [part.Header.Get("Content-Type")]. *)
Inductive NextPart_result : Type :=
| NP_EOF
| NP_Err (e : error)
| NP_Part (partContentType : string) (partBody : result string).

Record MimeLib : Type := mkMimeLib {
  (** the body reader of a parsed message *)
  BodyReader : Type;
  (** a [multipart.Reader] *)
  PartReader : Type;
  (** [mail.ReadMessage]: the [Content-Type] header and the body *)
  mail_ReadMessage : string -> result (string * BodyReader);
  (** [io.ReadAll(msg.Body)] *)
  io_ReadAll : BodyReader -> result string;
  (** [mime.ParseMediaType]: all three returned values *)
  mime_ParseMediaType : string -> string * list (string * string) * option error;
  multipart_NewReader : BodyReader -> string -> PartReader;
  NextPart : PartReader -> PartReader * NextPart_result
}.

(** [params[key]] on a Go map: the zero value when the key is absent. *)
Fixpoint map_get (params : list (string * string)) (key : string) : string :=
  match params with
  | [] => ""
  | (k, v) :: rest => if String.eqb k key then v else map_get rest key
  end.

Section Decoder.
Variable lib : MimeLib.

(** The body of the [switch] on a part's media type. *)
Definition classify_part (partMediaType : string) (partBody : string)
           (email : Email) : Email :=
  if HasPrefix partMediaType "text/html" then set_HTMLBody partBody email
  else if HasPrefix partMediaType "text/plain" then set_TextBody partBody email
  else email.

(** The [for] loop over the parts.  It has no bound of its own: it ends
    when [NextPart] gives [io.EOF].  [fuel] counts the calls of
    [NextPart]; [None] is a loop still running when it is used up. *)
Fixpoint parseEmailBody_parts (fuel : nat) (reader : PartReader lib)
         (email : Email) : option Email :=
  match fuel with
  | O => None
  | S fuel' =>
      let (reader', r) := NextPart lib reader in
      match r with
      | NP_EOF => Some email
      | NP_Err _ => parseEmailBody_parts fuel' reader' email
      | NP_Part partContentType (Err _) =>
          parseEmailBody_parts fuel' reader' email
      | NP_Part partContentType (Ok partBody) =>
          let partMediaType :=
            fst (fst (mime_ParseMediaType lib partContentType)) in
          parseEmailBody_parts fuel' reader'
            (classify_part partMediaType partBody email)
      end
  end.

(** The last statement of [parseEmailBody]: the merged display body. *)
Definition merge_body (email : Email) : Email :=
  if negb (is_empty (TextBody email)) then set_Body (TextBody email) email
  else if negb (is_empty (HTMLBody email)) then set_Body (HTMLBody email) email
  else email.

(** [func parseEmailBody(rawBody string) (Email, error)] *)
Definition parseEmailBody (fuel : nat) (rawBody : string)
  : option (Email * option error) :=
  let email := zeroEmail in
  match mail_ReadMessage lib rawBody with
  | Err err => Some (email, Some err)
  | Ok (contentType, msgBody) =>
      let '(mediaType, params, err) := mime_ParseMediaType lib contentType in
      let mediaType :=
        match err with Some _ => "text/plain" | None => mediaType end in
      let email := set_ContentType mediaType email in
      if HasPrefix mediaType "multipart/" then
        let boundary := map_get params "boundary" in
        let reader := multipart_NewReader lib msgBody boundary in
        match parseEmailBody_parts fuel reader email with
        | None => None
        | Some email => Some (merge_body email, None)
        end
      else
        match io_ReadAll lib msgBody with
        | Err err => Some (email, Some err)
        | Ok body =>
            let email :=
              if HasPrefix mediaType "text/html" then set_HTMLBody body email
              else set_TextBody body email in
            Some (merge_body email, None)
        end
  end.

(** *** The decoder in the words of the design *)

(** The declared content type of a message, [text/plain] when the
    header does not parse, and the declared boundary. *)
Definition declared_type (contentType : string) : string :=
  match snd (mime_ParseMediaType lib contentType) with
  | Some _ => "text/plain"
  | None => fst (fst (mime_ParseMediaType lib contentType))
  end.

Definition declared_boundary (contentType : string) : string :=
  map_get (snd (fst (mime_ParseMediaType lib contentType))) "boundary".

(** The type a part declares for itself. *)
Definition part_type (partContentType : string) : string :=
  fst (fst (mime_ParseMediaType lib partContentType)).

(** The parts that a multipart reader gives before it reports the end
    of the message. *)
Inductive parts_until_EOF
  : PartReader lib -> list NextPart_result -> Prop :=
| parts_end reader reader' :
    NextPart lib reader = (reader', NP_EOF) ->
    parts_until_EOF reader []
| parts_next reader reader' part parts :
    NextPart lib reader = (reader', part) ->
    part <> NP_EOF ->
    parts_until_EOF reader' parts ->
    parts_until_EOF reader (part :: parts).

(** The bodies of the readable parts that declare themselves HTML, in
    the order of the message. *)
Fixpoint html_parts (parts : list NextPart_result) : list string :=
  match parts with
  | [] => []
  | NP_Part partContentType (Ok body) :: rest =>
      if HasPrefix (part_type partContentType) "text/html"
      then body :: html_parts rest
      else html_parts rest
  | _ :: rest => html_parts rest
  end.

(** The bodies of the readable parts that declare themselves plain
    text, in the order of the message. *)
Fixpoint plain_parts (parts : list NextPart_result) : list string :=
  match parts with
  | [] => []
  | NP_Part partContentType (Ok body) :: rest =>
      if negb (HasPrefix (part_type partContentType) "text/html")
         && HasPrefix (part_type partContentType) "text/plain"
      then body :: plain_parts rest
      else plain_parts rest
  | _ :: rest => plain_parts rest
  end.

(** [mergedBody = plainText if non-empty else html else empty] *)
Definition mergedBody_spec (plainText html : string) : string :=
  if negb (is_empty plainText) then plainText
  else if negb (is_empty html) then html
  else "".

End Decoder.

(** Header parsing fails on [rawBody], in the words of the design's
    failure policy: the message cannot be read, or the [Content-Type]
    header it carries cannot be parsed. *)
Definition header_parsing_fails (lib : MimeLib) (rawBody : string) : bool :=
  match mail_ReadMessage lib rawBody with
  | Err _ => true
  | Ok (contentType, _) =>
      match snd (mime_ParseMediaType lib contentType) with
      | Some _ => true
      | None => false
      end
  end.

(* ================================================================== *)
(** ** Session pipelines *)

Definition trashFolders : list string :=
  ["Trash"; "INBOX.Trash"; "Deleted Messages"; "INBOX.Deleted Messages"].

Section Pipelines.
Variable C : Type.
Variable imap : ImapOps C.
Variable lib : MimeLib.

Local Open Scope session_scope.

(** The [for _, trashFolder := range trashFolders] loop of
    [moveEmailToTrash]; [Some folder] is the early [return true]. *)
Fixpoint moveEmailToTrash_loop (uid : Z) (folders : list string)
  : Session C (option string) :=
  match folders with
  | [] => ret None
  | trashFolder :: rest =>
      r <- Select imap trashFolder ;;
      match r with
      | Ok _ =>
          r' <- Select imap "INBOX" ;;
          match r' with
          | Err _ => moveEmailToTrash_loop uid rest
          | Ok _ =>
              err <- UidMove imap uid trashFolder ;;
              match err with
              | None => ret (Some trashFolder)
              | Some _ => moveEmailToTrash_loop uid rest
              end
          end
      | Err _ => moveEmailToTrash_loop uid rest
      end
  end.

(** [func moveEmailToTrash(imapClient, uid) (bool, string)] *)
Definition moveEmailToTrash (uid : Z) : Session C (bool * string) :=
  moved <- moveEmailToTrash_loop uid trashFolders ;;
  match moved with
  | Some trashFolder => ret (true, "Email moved to " ++ trashFolder)%string
  | None =>
      r <- Select imap "INBOX" ;;
      match r with
      | Err err => ret (false, "Failed to select INBOX: " ++ err)%string
      | Ok _ =>
          err <- UidStore imap uid AddFlagsSilent [DeletedFlag] ;;
          match err with
          | Some err =>
              ret (false, "Failed to mark email as deleted: " ++ err)%string
          | None =>
              err <- Expunge imap ;;
              match err with
              | Some err => ret (false, "Failed to expunge: " ++ err)%string
              | None => ret (true, "Email deleted permanently")
              end
          end
      end
  end.

(** The first value of [msg.Body] that is an [io.Reader]. *)
Fixpoint first_reader (values : list (option Literal)) : option Literal :=
  match values with
  | [] => None
  | Some reader :: _ => Some reader
  | None :: rest => first_reader rest
  end.

(** The nested [range] loops of [fetchEmailBodyParsed]: the first
    reader among the bodies of the delivered messages. *)
Fixpoint first_body (messages : list ImapMessage) : option Literal :=
  match messages with
  | [] => None
  | msg :: rest =>
      match first_reader (msg_Body msg) with
      | Some reader => Some reader
      | None => first_body rest
      end
  end.

(** [func fetchEmailBodyParsed(imapClient, uid) (Email, error)];
    [fuel] bounds the part loop of the decoder. *)
Definition fetchEmailBodyParsed (fuel : nat) (uid : Z)
  : Session C (option (Email * option error)) :=
  messages <- UidFetch imap uid ;;
  let email := zeroEmail in
  match first_body messages with
  | Some (Err err) => ret (Some (email, Some err))
  | Some (Ok rawBody) =>
      match parseEmailBody lib fuel rawBody with
      | None => ret None
      | Some (parsedEmail, Some _) =>
          ret (Some (set_ContentType "text/plain" (set_Body rawBody email),
                     None))
      | Some (parsedEmail, None) => ret (Some (parsedEmail, None))
      end
  | None => ret (Some (email, Some "could not load email body"))
  end.

(** The display name taken from the first address of a list. *)
Definition address_display (addrs : list (option Address)) (dflt : string)
  : string :=
  match addrs with
  | Some a :: _ =>
      if negb (is_empty (PersonalName a)) then PersonalName a
      else (MailboxName a ++ "@" ++ HostName a)%string
  | _ => dflt
  end.

(** The loop over [msg.Flags]. *)
Definition has_seen (flags : list string) : bool :=
  existsb (fun flag => String.eqb flag SeenFlag) flags.

(** The body of the loop over the fetched headers: messages without an
    envelope are skipped. *)
Fixpoint emails_of_messages (messages : list ImapMessage) : list Email :=
  match messages with
  | [] => []
  | msg :: rest =>
      match msg_Envelope msg with
      | None => emails_of_messages rest
      | Some env =>
          let from := address_display (env_From env) "Unknown" in
          let to := address_display (env_To env) "" in
          let seen := has_seen (msg_Flags msg) in
          let subject :=
            if is_empty (env_Subject env) then "(No Subject)"
            else env_Subject env in
          mkEmail (msg_Uid msg) subject from to (env_Date env)
                  "" "" "" "" seen
          :: emails_of_messages rest
      end
  end.

(** [sort.Slice] with the given [less]; the order of elements that
    compare equal is left to the library. *)
Variable sort_Slice : (Email -> Email -> bool) -> list Email -> list Email.

(** [func fetchEmails(imapClient, page, perPage) ([]Email, uint32, error)] *)
Definition fetchEmails (page perPage : Z)
  : Session C (list Email * Z * option error) :=
  r <- Select imap "INBOX" ;;
  match r with
  | Err err => ret ([], 0, Some err)
  | Ok mailbox =>
      if Messages mailbox =? 0 then ret ([], 0, None)
      else
        let totalMessages := Messages mailbox in
        let (start, end_) :=
          Pagination.fetchEmails_range totalMessages page perPage in
        messages <- Fetch imap start end_ ;;
        let emails := emails_of_messages messages in
        let emails :=
          sort_Slice (fun ei ej => Date ej <? Date ei) emails in
        ret (emails, totalMessages, None)
  end.

End Pipelines.

(* ================================================================== *)
(** ** The terminal interface *)

(** The two kinds of [list.Item]. *)
Inductive Item : Type :=
| ItemEmail (e : Email)
| ItemLoadMore.

Inductive appState : Type :=
| listView
| emailView
| deleteConfirmView.

Definition appState_eqb (s t : appState) : bool :=
  match s, t with
  | listView, listView | emailView, emailView
  | deleteConfirmView, deleteConfirmView => true
  | _, _ => false
  end.

(** [tea.Msg]: the messages [Update] distinguishes, and [widgetMsg] for
    every other message of the toolkit. *)
Inductive Msg (W : Type) : Type :=
| WindowSizeMsg (Width Height : Z)
| emailsLoadedMsg (emails : list Email) (totalMessages : Z) (isLoadMore : bool)
| emailBodyLoadedMsg (uid : Z) (body : Email)
| emailDeletedMsg (uid : Z) (success : bool) (message : string)
| clearSuccessMsg
| errorMsg (err : error)
| KeyMsg (key : string)
| widgetMsg (w : W).
Arguments clearSuccessMsg {W}.
Arguments WindowSizeMsg {W} Width Height.
Arguments emailsLoadedMsg {W} emails totalMessages isLoadMore.
Arguments emailBodyLoadedMsg {W} uid body.
Arguments emailDeletedMsg {W} uid success message.
Arguments errorMsg {W} err.
Arguments KeyMsg {W} key.

(** The Bubbles list and viewport and the Glamour-backed formatter, by
    the operations the browser calls on them.  [list_New] is the list as
    [NewApp] configures it before the title is set; [viewport_New] is
    [viewport.New] followed by the assignment of the style. *)
Record Toolkit : Type := mkToolkit {
  ListModel : Type;
  Viewport : Type;
  WidgetMsg : Type;
  WidgetCmd : Type;
  list_New : ListModel;
  list_SetTitle : string -> ListModel -> ListModel;
  list_SetSize : Z -> Z -> ListModel -> ListModel;
  list_SetItems : list Item -> ListModel -> ListModel;
  list_Index : ListModel -> nat;
  list_Items : ListModel -> list Item;
  list_SelectedItem : ListModel -> option Item;
  list_Update : Msg WidgetMsg -> ListModel -> ListModel * option WidgetCmd;
  viewport_zero : Viewport;
  viewport_New : Z -> Z -> Viewport;
  viewport_SetWidth : Z -> Viewport -> Viewport;
  viewport_SetHeight : Z -> Viewport -> Viewport;
  viewport_SetContent : string -> Viewport -> Viewport;
  viewport_Update : Msg WidgetMsg -> Viewport -> Viewport * option WidgetCmd;
  formatEmailForView : Email -> string
}.

(** [tea.Cmd]: the commands [Update] returns. *)
Inductive Cmd (W : Type) : Type :=
| CmdNil
| CmdLoadEmails (page : Z) (isLoadMore : bool)
| CmdLoadEmailBody (uid : Z)
| CmdDeleteEmail (uid : Z)
| CmdQuit
| CmdTickClearSuccess
| CmdWidget (w : W).
Arguments CmdNil {W}.
Arguments CmdLoadEmails {W} page isLoadMore.
Arguments CmdLoadEmailBody {W} uid.
Arguments CmdDeleteEmail {W} uid.
Arguments CmdQuit {W}.
Arguments CmdTickClearSuccess {W}.

(** What [View] draws, without the styling. *)
Inductive Screen (L V : Type) : Type :=
| ScreenError (e : error)
| ScreenInitializing
| ScreenLoading
| ScreenDeleting
| ScreenConfirm (target : Email) (choice : Z)
| ScreenNoEmails
| ScreenList (l : L) (loadingMore : bool) (success : option string)
| ScreenEmail (v : V) (success : option string)
| ScreenBlank.
Arguments ScreenError {L V} e.
Arguments ScreenInitializing {L V}.
Arguments ScreenLoading {L V}.
Arguments ScreenDeleting {L V}.
Arguments ScreenConfirm {L V} target choice.
Arguments ScreenNoEmails {L V}.
Arguments ScreenList {L V} l loadingMore success.
Arguments ScreenEmail {L V} v success.
Arguments ScreenBlank {L V}.

(** The first entry with the given unique id receives the body fields
    (the loop of the [emailBodyLoadedMsg] case, with its [break]). *)
Fixpoint emails_set_body (uid : Z) (body : Email) (emails : list Email)
  : list Email :=
  match emails with
  | [] => []
  | email :: rest =>
      if UID email =? uid then
        set_ContentType (ContentType body)
          (set_TextBody (TextBody body)
             (set_HTMLBody (HTMLBody body)
                (set_Body (Body body) email))) :: rest
      else email :: emails_set_body uid body rest
  end.

(** The first entry with the given unique id is cut out (the loop of the
    [emailDeletedMsg] case, with its [break]). *)
Fixpoint emails_remove (uid : Z) (emails : list Email) : list Email :=
  match emails with
  | [] => []
  | email :: rest =>
      if UID email =? uid then rest else email :: emails_remove uid rest
  end.

(** A [case] of the [switch] on [msg.String()]. *)
Definition key_in (key : string) (keys : list string) : bool :=
  existsb (String.eqb key) keys.

Definition inbox_title (loaded total : Z) (more : bool) : string :=
  ("📧 Email Inbox (" ++ fmt_d loaded ++ " of " ++ fmt_d total ++ " emails)"
   ++ (if more then " • More available" else ""))%string.

Section Browser.
Variable C : Type.
Variable imap : ImapOps C.
Variable lib : MimeLib.
Variable sort_Slice : (Email -> Email -> bool) -> list Email -> list Email.
Variable tk : Toolkit.

Abbreviation msg := (Msg (WidgetMsg tk)).
Abbreviation cmd := (Cmd (WidgetCmd tk)).

(** [type App struct].  [client] is [None] for the nil pointer and
    otherwise holds the state of the connection.  [emailToDelete] holds
    the pointed-to message: the pointer is either to a fresh copy (list
    view) or into the slice (detail view), and the fields read through
    it ([UID], [Subject], [From], [Date]) are not written while the
    state is [deleteConfirmView]. *)
Record App : Type := mkApp {
  username : string;
  password : string;
  host : string;
  port : string;
  client : option C;
  emails : list Email;
  list_ : ListModel tk;
  viewport : Viewport tk;
  ready : bool;
  loading : bool;
  loadingMore : bool;
  err : option error;
  state : appState;
  totalMessages : Z;
  emailsPerPage : Z;
  currentPage : Z;
  hasMore : bool;
  showDeleteConfirm : bool;
  emailToDelete : option Email;
  deleteConfirmIndex : Z;
  deletingEmail : bool;
  deleteSuccess : bool;
  deleteSuccessMessage : string
}.

Definition set_client (v : option C) (a : App) : App :=
  mkApp (username a) (password a) (host a) (port a) v (emails a) (list_ a)
        (viewport a) (ready a) (loading a) (loadingMore a) (err a)
        (state a) (totalMessages a) (emailsPerPage a) (currentPage a)
        (hasMore a) (showDeleteConfirm a) (emailToDelete a)
        (deleteConfirmIndex a) (deletingEmail a) (deleteSuccess a)
        (deleteSuccessMessage a).
Definition set_emails (v : list Email) (a : App) : App :=
  mkApp (username a) (password a) (host a) (port a) (client a) v (list_ a)
        (viewport a) (ready a) (loading a) (loadingMore a) (err a)
        (state a) (totalMessages a) (emailsPerPage a) (currentPage a)
        (hasMore a) (showDeleteConfirm a) (emailToDelete a)
        (deleteConfirmIndex a) (deletingEmail a) (deleteSuccess a)
        (deleteSuccessMessage a).
Definition set_list_ (v : ListModel tk) (a : App) : App :=
  mkApp (username a) (password a) (host a) (port a) (client a) (emails a)
        v (viewport a) (ready a) (loading a) (loadingMore a) (err a)
        (state a) (totalMessages a) (emailsPerPage a) (currentPage a)
        (hasMore a) (showDeleteConfirm a) (emailToDelete a)
        (deleteConfirmIndex a) (deletingEmail a) (deleteSuccess a)
        (deleteSuccessMessage a).
Definition set_viewport (v : Viewport tk) (a : App) : App :=
  mkApp (username a) (password a) (host a) (port a) (client a) (emails a)
        (list_ a) v (ready a) (loading a) (loadingMore a) (err a) (state a)
        (totalMessages a) (emailsPerPage a) (currentPage a) (hasMore a)
        (showDeleteConfirm a) (emailToDelete a) (deleteConfirmIndex a)
        (deletingEmail a) (deleteSuccess a) (deleteSuccessMessage a).
Definition set_ready (v : bool) (a : App) : App :=
  mkApp (username a) (password a) (host a) (port a) (client a) (emails a)
        (list_ a) (viewport a) v (loading a) (loadingMore a) (err a)
        (state a) (totalMessages a) (emailsPerPage a) (currentPage a)
        (hasMore a) (showDeleteConfirm a) (emailToDelete a)
        (deleteConfirmIndex a) (deletingEmail a) (deleteSuccess a)
        (deleteSuccessMessage a).
Definition set_loading (v : bool) (a : App) : App :=
  mkApp (username a) (password a) (host a) (port a) (client a) (emails a)
        (list_ a) (viewport a) (ready a) v (loadingMore a) (err a)
        (state a) (totalMessages a) (emailsPerPage a) (currentPage a)
        (hasMore a) (showDeleteConfirm a) (emailToDelete a)
        (deleteConfirmIndex a) (deletingEmail a) (deleteSuccess a)
        (deleteSuccessMessage a).
Definition set_loadingMore (v : bool) (a : App) : App :=
  mkApp (username a) (password a) (host a) (port a) (client a) (emails a)
        (list_ a) (viewport a) (ready a) (loading a) v (err a) (state a)
        (totalMessages a) (emailsPerPage a) (currentPage a) (hasMore a)
        (showDeleteConfirm a) (emailToDelete a) (deleteConfirmIndex a)
        (deletingEmail a) (deleteSuccess a) (deleteSuccessMessage a).
Definition set_err (v : option error) (a : App) : App :=
  mkApp (username a) (password a) (host a) (port a) (client a) (emails a)
        (list_ a) (viewport a) (ready a) (loading a) (loadingMore a) v
        (state a) (totalMessages a) (emailsPerPage a) (currentPage a)
        (hasMore a) (showDeleteConfirm a) (emailToDelete a)
        (deleteConfirmIndex a) (deletingEmail a) (deleteSuccess a)
        (deleteSuccessMessage a).
Definition set_state (v : appState) (a : App) : App :=
  mkApp (username a) (password a) (host a) (port a) (client a) (emails a)
        (list_ a) (viewport a) (ready a) (loading a) (loadingMore a)
        (err a) v (totalMessages a) (emailsPerPage a) (currentPage a)
        (hasMore a) (showDeleteConfirm a) (emailToDelete a)
        (deleteConfirmIndex a) (deletingEmail a) (deleteSuccess a)
        (deleteSuccessMessage a).
Definition set_totalMessages (v : Z) (a : App) : App :=
  mkApp (username a) (password a) (host a) (port a) (client a) (emails a)
        (list_ a) (viewport a) (ready a) (loading a) (loadingMore a)
        (err a) (state a) v (emailsPerPage a) (currentPage a) (hasMore a)
        (showDeleteConfirm a) (emailToDelete a) (deleteConfirmIndex a)
        (deletingEmail a) (deleteSuccess a) (deleteSuccessMessage a).
Definition set_currentPage (v : Z) (a : App) : App :=
  mkApp (username a) (password a) (host a) (port a) (client a) (emails a)
        (list_ a) (viewport a) (ready a) (loading a) (loadingMore a)
        (err a) (state a) (totalMessages a) (emailsPerPage a) v
        (hasMore a) (showDeleteConfirm a) (emailToDelete a)
        (deleteConfirmIndex a) (deletingEmail a) (deleteSuccess a)
        (deleteSuccessMessage a).
Definition set_hasMore (v : bool) (a : App) : App :=
  mkApp (username a) (password a) (host a) (port a) (client a) (emails a)
        (list_ a) (viewport a) (ready a) (loading a) (loadingMore a)
        (err a) (state a) (totalMessages a) (emailsPerPage a)
        (currentPage a) v (showDeleteConfirm a) (emailToDelete a)
        (deleteConfirmIndex a) (deletingEmail a) (deleteSuccess a)
        (deleteSuccessMessage a).
Definition set_showDeleteConfirm (v : bool) (a : App) : App :=
  mkApp (username a) (password a) (host a) (port a) (client a) (emails a)
        (list_ a) (viewport a) (ready a) (loading a) (loadingMore a)
        (err a) (state a) (totalMessages a) (emailsPerPage a)
        (currentPage a) (hasMore a) v (emailToDelete a)
        (deleteConfirmIndex a) (deletingEmail a) (deleteSuccess a)
        (deleteSuccessMessage a).
Definition set_emailToDelete (v : option Email) (a : App) : App :=
  mkApp (username a) (password a) (host a) (port a) (client a) (emails a)
        (list_ a) (viewport a) (ready a) (loading a) (loadingMore a)
        (err a) (state a) (totalMessages a) (emailsPerPage a)
        (currentPage a) (hasMore a) (showDeleteConfirm a) v
        (deleteConfirmIndex a) (deletingEmail a) (deleteSuccess a)
        (deleteSuccessMessage a).
Definition set_deleteConfirmIndex (v : Z) (a : App) : App :=
  mkApp (username a) (password a) (host a) (port a) (client a) (emails a)
        (list_ a) (viewport a) (ready a) (loading a) (loadingMore a)
        (err a) (state a) (totalMessages a) (emailsPerPage a)
        (currentPage a) (hasMore a) (showDeleteConfirm a)
        (emailToDelete a) v (deletingEmail a) (deleteSuccess a)
        (deleteSuccessMessage a).
Definition set_deletingEmail (v : bool) (a : App) : App :=
  mkApp (username a) (password a) (host a) (port a) (client a) (emails a)
        (list_ a) (viewport a) (ready a) (loading a) (loadingMore a)
        (err a) (state a) (totalMessages a) (emailsPerPage a)
        (currentPage a) (hasMore a) (showDeleteConfirm a)
        (emailToDelete a) (deleteConfirmIndex a) v (deleteSuccess a)
        (deleteSuccessMessage a).
Definition set_deleteSuccess (v : bool) (a : App) : App :=
  mkApp (username a) (password a) (host a) (port a) (client a) (emails a)
        (list_ a) (viewport a) (ready a) (loading a) (loadingMore a)
        (err a) (state a) (totalMessages a) (emailsPerPage a)
        (currentPage a) (hasMore a) (showDeleteConfirm a)
        (emailToDelete a) (deleteConfirmIndex a) (deletingEmail a) v
        (deleteSuccessMessage a).
Definition set_deleteSuccessMessage (v : string) (a : App) : App :=
  mkApp (username a) (password a) (host a) (port a) (client a) (emails a)
        (list_ a) (viewport a) (ready a) (loading a) (loadingMore a)
        (err a) (state a) (totalMessages a) (emailsPerPage a)
        (currentPage a) (hasMore a) (showDeleteConfirm a)
        (emailToDelete a) (deleteConfirmIndex a) (deletingEmail a)
        (deleteSuccess a) v.

Definition len_emails (a : App) : Z := Z.of_nat (List.length (emails a)).

(** [func NewApp(username, password, host, port string) *App] *)
Definition NewApp (username password host port : string) : App :=
  mkApp username password host port None []
        (list_SetTitle tk "📧 Email Inbox (Loading...)" (list_New tk))
        (viewport_zero tk) false true false None listView
        0 50 1 false false None 0 false false "".

(** [func (a *App) updateEmailList()] *)
Definition updateEmailList (a : App) : App :=
  let items := map ItemEmail (emails a) in
  let items := if hasMore a then items ++ [ItemLoadMore] else items in
  set_list_ (list_SetItems tk items (list_ a)) a.

Definition cmd_of_widget (c : option (WidgetCmd tk)) : cmd :=
  match c with
  | None => CmdNil
  | Some w => CmdWidget w
  end.

(** The statements after the [switch] of [Update]: the message goes on
    to the widget of the current state. *)
Definition Update_widgets (m : msg) (a : App) : App * cmd :=
  match state a with
  | listView =>
      let (l, c) := list_Update tk m (list_ a) in
      (set_list_ l a, cmd_of_widget c)
  | emailView =>
      let (v, c) := viewport_Update tk m (viewport a) in
      (set_viewport v a, cmd_of_widget c)
  | deleteConfirmView => (a, CmdNil)
  end.

(** The [case tea.WindowSizeMsg] of [Update]. *)
Definition Update_WindowSize (Width Height : Z) (a : App) : App :=
  if negb (ready a) then
    let a := set_list_ (list_SetSize tk Width (Height - 2) (list_ a)) a in
    let a := set_viewport (viewport_New tk (Width - 4) (Height - 4)) a in
    set_ready true a
  else
    let a := set_list_ (list_SetSize tk Width (Height - 2) (list_ a)) a in
    let a := set_viewport (viewport_SetWidth tk (Width - 4) (viewport a)) a in
    set_viewport (viewport_SetHeight tk (Height - 4) (viewport a)) a.

(** The [case emailsLoadedMsg] of [Update]. *)
Definition Update_emailsLoaded (loaded : list Email) (total : Z)
           (isLoadMore : bool) (a : App) : App :=
  let a := set_loading false a in
  let a := set_loadingMore false a in
  let a := set_totalMessages total a in
  let a :=
    if isLoadMore then set_emails (emails a ++ loaded) a
    else set_emails loaded a in
  let loadedCount := len_emails a in
  let a :=
    set_hasMore (Pagination.more_available loadedCount (totalMessages a)) a in
  let title := inbox_title loadedCount (totalMessages a) (hasMore a) in
  let a := set_list_ (list_SetTitle tk title (list_ a)) a in
  updateEmailList a.

(** The [case emailBodyLoadedMsg] of [Update]. *)
Definition Update_emailBodyLoaded (uid : Z) (body : Email) (a : App) : App :=
  let a := set_emails (emails_set_body uid body (emails a)) a in
  if appState_eqb (state a) emailView
     && (0 <? len_emails a)
     && (list_Index tk (list_ a) <? List.length (emails a))%nat
  then
    match nth_error (emails a) (list_Index tk (list_ a)) with
    | Some selectedEmail =>
        if UID selectedEmail =? uid then
          let content := formatEmailForView tk selectedEmail in
          set_viewport (viewport_SetContent tk content (viewport a)) a
        else a
    | None => a
    end
  else a.

(** The [case emailDeletedMsg] of [Update].  [Some c] is the early
    [return a, c]; [None] goes on to the end of [Update]. *)
Definition Update_emailDeleted (uid : Z) (success : bool) (message : string)
           (a : App) : App * option cmd :=
  let a := set_deletingEmail false a in
  let a := set_showDeleteConfirm false a in
  let a := set_state listView a in
  if success then
    let a := set_emails (emails_remove uid (emails a)) a in
    let a := updateEmailList a in
    let a := set_totalMessages (U32.dec (totalMessages a)) a in
    let title := inbox_title (len_emails a) (totalMessages a) (hasMore a) in
    let a := set_list_ (list_SetTitle tk title (list_ a)) a in
    let a := set_deleteSuccess true a in
    let a := set_deleteSuccessMessage message a in
    (a, Some CmdTickClearSuccess)
  else
    (set_err (Some ("failed to delete email: " ++ message)%string) a, None).

(** The keys of the confirmation dialog: the [if a.state ==
    deleteConfirmView] block of [case tea.KeyMsg], which always
    returns. *)
Definition Update_key_confirm (key : string) (a : App) : App * cmd :=
  if key_in key ["left"; "h"; "right"; "l"] then
    if deleteConfirmIndex a =? 0 then (set_deleteConfirmIndex 1 a, CmdNil)
    else (set_deleteConfirmIndex 0 a, CmdNil)
  else if key_in key ["enter"] then
    match deleteConfirmIndex a =? 1, emailToDelete a with
    | true, Some target =>
        (set_deletingEmail true a, CmdDeleteEmail (UID target))
    | _, _ =>
        let a := set_showDeleteConfirm false a in
        let a := set_state listView a in
        (set_emailToDelete None a, CmdNil)
    end
  else if key_in key ["esc"; "q"] then
    let a := set_showDeleteConfirm false a in
    let a := set_state listView a in
    (set_emailToDelete None a, CmdNil)
  else (a, CmdNil).

(** [case "enter"] outside the dialog. *)
Definition Update_key_enter (a : App) : App * option cmd :=
  if appState_eqb (state a) listView
     && (list_Index tk (list_ a) <? List.length (list_Items tk (list_ a)))%nat
  then
    match list_SelectedItem tk (list_ a) with
    | Some ItemLoadMore =>
        if negb (loadingMore a) then
          let a := set_loadingMore true a in
          let a := set_currentPage (GoInt.add (currentPage a) 1) a in
          (a, Some (CmdLoadEmails (currentPage a) true))
        else (a, Some CmdNil)
    | _ =>
        match nth_error (emails a) (list_Index tk (list_ a)) with
        | Some selectedEmail =>
            let a := set_state emailView a in
            let content := formatEmailForView tk selectedEmail in
            let a :=
              set_viewport (viewport_SetContent tk content (viewport a)) a in
            if is_empty (Body selectedEmail) then
              (a, Some (CmdLoadEmailBody (UID selectedEmail)))
            else (a, None)
        | None => (a, None)
        end
    end
  else (a, None).

(** [case "d"]. *)
Definition Update_key_d (a : App) : App :=
  if (appState_eqb (state a) listView || appState_eqb (state a) emailView)
     && (0 <? len_emails a)
  then
    let inside :=
      (list_Index tk (list_ a) <? List.length (emails a))%nat in
    let emailToDelete : option Email :=
      if appState_eqb (state a) emailView && inside then
        nth_error (emails a) (list_Index tk (list_ a))
      else if appState_eqb (state a) listView && inside then
        match list_SelectedItem tk (list_ a) with
        | Some (ItemEmail email) => Some email
        | _ => None
        end
      else None in
    match emailToDelete with
    | Some _ =>
        let a := set_emailToDelete emailToDelete a in
        let a := set_showDeleteConfirm true a in
        set_state deleteConfirmView a
    | None => a
    end
  else a.

(** The keys outside the dialog: the second [switch msg.String()]. *)
Definition Update_key (key : string) (a : App) : App * option cmd :=
  if key_in key ["ctrl+c"; "q"] then
    let a :=
      match client a with
      | Some c => set_client (Some (fst (Logout imap c))) a
      | None => a
      end in
    (a, Some CmdQuit)
  else if key_in key ["enter"] then Update_key_enter a
  else if key_in key ["esc"; "backspace"] then
    if appState_eqb (state a) emailView then (set_state listView a, None)
    else (a, None)
  else if key_in key ["d"] then (Update_key_d a, None)
  else if key_in key ["r"] then
    if appState_eqb (state a) listView && negb (loading a) then
      let a := set_loading true a in
      let a := set_currentPage 1 a in
      let a :=
        set_list_
          (list_SetTitle tk "📧 Email Inbox (Refreshing...)" (list_ a)) a in
      (a, Some (CmdLoadEmails 1 false))
    else (a, None)
  else (a, None).

(** [func (a *App) Update(msg tea.Msg) (tea.Model, tea.Cmd)] *)
Definition Update (m : msg) (a : App) : App * cmd :=
  let '(a, returned) :=
    match m with
    | WindowSizeMsg Width Height => (Update_WindowSize Width Height a, None)
    | emailsLoadedMsg loaded total isLoadMore =>
        (Update_emailsLoaded loaded total isLoadMore a, None)
    | emailBodyLoadedMsg uid body => (Update_emailBodyLoaded uid body a, None)
    | emailDeletedMsg uid success message =>
        Update_emailDeleted uid success message a
    | clearSuccessMsg =>
        (set_deleteSuccessMessage "" (set_deleteSuccess false a), None)
    | errorMsg e =>
        let a := set_err (Some e) a in
        let a := set_loading false a in
        let a := set_loadingMore false a in
        (set_deletingEmail false a, None)
    | KeyMsg key =>
        if appState_eqb (state a) deleteConfirmView then
          let (a, c) := Update_key_confirm key a in (a, Some c)
        else Update_key key a
    | widgetMsg _ => (a, None)
    end in
  match returned with
  | Some c => (a, c)
  | None => Update_widgets m a
  end.

(** [func (a *App) renderDeleteConfirmation() string] *)
Definition renderDeleteConfirmation (target : Email) (a : App)
  : Screen (ListModel tk) (Viewport tk) :=
  if deletingEmail a then ScreenDeleting
  else ScreenConfirm target (deleteConfirmIndex a).

(** [func (a *App) View() string] *)
Definition View (a : App) : Screen (ListModel tk) (Viewport tk) :=
  let banner :=
    if deleteSuccess a then Some (deleteSuccessMessage a) else None in
  match err a with
  | Some e => ScreenError e
  | None =>
      if negb (ready a) then ScreenInitializing
      else if loading a then ScreenLoading
      else
        match state a, emailToDelete a with
        | deleteConfirmView, Some target => renderDeleteConfirmation target a
        | listView, _ =>
            if len_emails a =? 0 then ScreenNoEmails
            else ScreenList (list_ a) (loadingMore a) banner
        | emailView, _ => ScreenEmail (viewport a) banner
        | deleteConfirmView, None => ScreenBlank
        end
  end.

(** *** The commands

    Each command is a closure over the [App]: it runs later, against the
    [App] as it then is, and yields one message.  [None] is a run that
    yields nothing: a nil client dereferenced, or the decoder's loop
    out of [fuel]. *)

(** [func (a *App) loadEmails(page int, isLoadMore bool) tea.Cmd] *)
Definition loadEmails (page : Z) (isLoadMore : bool) (a : App)
  : option (App * msg) :=
  let connected :=
    match client a with
    | Some c => Ok c
    | None =>
        connectToServer imap (username a) (password a) (host a) (port a)
    end in
  match connected with
  | Err e => Some (a, errorMsg e)
  | Ok c =>
      let '(c, (loaded, total, e)) :=
        fetchEmails imap sort_Slice page (emailsPerPage a) c in
      let a := set_client (Some c) a in
      match e with
      | Some e => Some (a, errorMsg e)
      | None => Some (a, emailsLoadedMsg loaded total isLoadMore)
      end
  end.

(** [func (a *App) loadEmailBody(uid uint32) tea.Cmd] *)
Definition loadEmailBody (fuel : nat) (uid : Z) (a : App)
  : option (App * msg) :=
  match client a with
  | None => None
  | Some c =>
      match fetchEmailBodyParsed imap lib fuel uid c with
      | (c, Some (email, Some e)) => Some (set_client (Some c) a, errorMsg e)
      | (c, Some (email, None)) =>
          Some (set_client (Some c) a, emailBodyLoadedMsg uid email)
      | (_, None) => None
      end
  end.

(** [func (a *App) deleteEmail(uid uint32) tea.Cmd] *)
Definition deleteEmail (uid : Z) (a : App) : option (App * msg) :=
  match client a with
  | None => None
  | Some c =>
      let '(c, (success, message)) := moveEmailToTrash imap uid c in
      let a := set_client (Some c) a in
      let a := set_deleteConfirmIndex 0 a in
      Some (a, emailDeletedMsg uid success message)
  end.

(** The run of a command of the browser; the other commands belong to
    the runtime and the widgets. *)
Definition run (fuel : nat) (c : cmd) (a : App) : option (App * msg) :=
  match c with
  | CmdLoadEmails page isLoadMore => loadEmails page isLoadMore a
  | CmdLoadEmailBody uid => loadEmailBody fuel uid a
  | CmdDeleteEmail uid => deleteEmail uid a
  | CmdTickClearSuccess => Some (a, clearSuccessMsg)
  | _ => None
  end.

(** [func (a *App) Init() tea.Cmd] *)
Definition Init (a : App) : cmd := CmdLoadEmails 1 false.

(** The states of the browser that the program can be in: it starts
    from [NewApp]; the runtime applies messages through [Update], and
    commands run in between and write to the [App] they close over. *)
Inductive reachable : App -> Prop :=
| reachable_NewApp username password host port :
    reachable (NewApp username password host port)
| reachable_Update m a :
    reachable a -> reachable (fst (Update m a))
| reachable_run fuel c a a' m :
    reachable a -> run fuel c a = Some (a', m) -> reachable a'.

(** The invariant of the confirmation dialog. *)
Definition confirm_has_target (a : App) : Prop :=
  state a = deleteConfirmView -> emailToDelete a <> None.

(** [a.hasMore] agrees with the index. *)
Definition hasMore_agrees (a : App) : Prop :=
  hasMore a = (len_emails a <? totalMessages a).

End Browser.

(* ================================================================== *)
(** ** Observing the session *)

(** A call of the client, as it goes over the wire. *)
Inductive ImapCall : Type :=
| CallSelect (name : string)
| CallFetch (start stop : Z)
| CallUidFetch (uid : Z)
| CallUidMove (uid : Z) (dest : string)
| CallUidStore (uid : Z) (item : string) (flags : list string)
| CallExpunge
| CallLogout.

(** A call with its outcome: [None] for success. *)
Definition Exchange : Type := (ImapCall * option error)%type.

Definition outcome {A : Type} (r : result A) : option error :=
  match r with
  | Ok _ => None
  | Err e => Some e
  end.

Section Traced.
Variable C : Type.
Variable imap : ImapOps C.

Definition record_call {A : Type} (call : ImapCall) (out : A -> option error)
           (m : Session C A) : Session (C * list Exchange) A :=
  fun st =>
    let (c, a) := m (fst st) in
    ((c, snd st ++ [(call, out a)]), a).

(** The same client, keeping the list of its exchanges in time order. *)
Definition traced : ImapOps (C * list Exchange) :=
  mkImapOps
    (fun u p h port =>
       match connectToServer imap u p h port with
       | Ok c => Ok (c, [])
       | Err e => Err e
       end)
    (fun name => record_call (CallSelect name) outcome (Select imap name))
    (fun start stop =>
       record_call (CallFetch start stop) (fun _ => None)
                   (Fetch imap start stop))
    (fun uid =>
       record_call (CallUidFetch uid) (fun _ => None) (UidFetch imap uid))
    (fun uid dest =>
       record_call (CallUidMove uid dest) (fun e => e) (UidMove imap uid dest))
    (fun uid item flags =>
       record_call (CallUidStore uid item flags) (fun e => e)
                   (UidStore imap uid item flags))
    (record_call CallExpunge (fun e => e) (Expunge imap))
    (record_call CallLogout (fun e => e) (Logout imap)).

End Traced.

(** *** The delete procedure in the words of the design

    Each candidate folder, in order: verify that it exists, re-select the
    source mailbox, move the message by unique id; the first move that
    succeeds ends the procedure.  [delete_spec_candidates uid folders tr
    won] relates the candidates still to try to the exchanges they cause
    and to the folder that received the message, if any. *)
Inductive delete_spec_candidates (uid : Z)
  : list string -> list Exchange -> option string -> Prop :=
| candidates_exhausted :
    delete_spec_candidates uid [] [] None
| candidate_missing folder rest e tr won :
    delete_spec_candidates uid rest tr won ->
    delete_spec_candidates uid (folder :: rest)
      ((CallSelect folder, Some e) :: tr) won
| candidate_reselect_failed folder rest e tr won :
    delete_spec_candidates uid rest tr won ->
    delete_spec_candidates uid (folder :: rest)
      ((CallSelect folder, None) :: (CallSelect "INBOX", Some e) :: tr) won
| candidate_move_failed folder rest e tr won :
    delete_spec_candidates uid rest tr won ->
    delete_spec_candidates uid (folder :: rest)
      ((CallSelect folder, None) :: (CallSelect "INBOX", None)
       :: (CallUidMove uid folder, Some e) :: tr) won
| candidate_move_ok folder rest :
    delete_spec_candidates uid (folder :: rest)
      [(CallSelect folder, None); (CallSelect "INBOX", None);
       (CallUidMove uid folder, None)]
      (Some folder).

(** The fallback: re-select the source mailbox, flag the message as
    deleted, expunge. *)
Inductive delete_spec_fallback (uid : Z)
  : list Exchange -> bool * string -> Prop :=
| fallback_select_failed e :
    delete_spec_fallback uid
      [(CallSelect "INBOX", Some e)]
      (false, ("Failed to select INBOX: " ++ e)%string)
| fallback_flag_failed e :
    delete_spec_fallback uid
      [(CallSelect "INBOX", None);
       (CallUidStore uid "+FLAGS.SILENT" ["\Deleted"], Some e)]
      (false, ("Failed to mark email as deleted: " ++ e)%string)
| fallback_expunge_failed e :
    delete_spec_fallback uid
      [(CallSelect "INBOX", None);
       (CallUidStore uid "+FLAGS.SILENT" ["\Deleted"], None);
       (CallExpunge, Some e)]
      (false, ("Failed to expunge: " ++ e)%string)
| fallback_ok :
    delete_spec_fallback uid
      [(CallSelect "INBOX", None);
       (CallUidStore uid "+FLAGS.SILENT" ["\Deleted"], None);
       (CallExpunge, None)]
      (true, "Email deleted permanently").

(** [delete(uid)]: the candidates in their fixed priority order, then the
    fallback when none received the message. *)
Inductive delete_spec (uid : Z) : list Exchange -> bool * string -> Prop :=
| delete_moved tr folder :
    delete_spec_candidates uid
      ["Trash"; "INBOX.Trash"; "Deleted Messages"; "INBOX.Deleted Messages"]
      tr (Some folder) ->
    delete_spec uid tr (true, ("Email moved to " ++ folder)%string)
| delete_fell_back tr tr' res :
    delete_spec_candidates uid
      ["Trash"; "INBOX.Trash"; "Deleted Messages"; "INBOX.Deleted Messages"]
      tr None ->
    delete_spec_fallback uid tr' res ->
    delete_spec uid (tr ++ tr') res.

(** A move attempt in a trace. *)
Definition is_move (x : Exchange) : bool :=
  match fst x with
  | CallUidMove _ _ => true
  | _ => false
  end.

Definition succeeded (x : Exchange) : bool :=
  match snd x with
  | None => true
  | Some _ => false
  end.

(* ================================================================== *)
(** ** Stand-ins for the outside world

    Small executable instances of [Toolkit], [ImapOps] and [MimeLib], on
    which the browser can be run on concrete inputs. *)

Module Testbed.

(** *** A list with a cursor and a viewport holding its content *)

Record PlainList : Type := mkPlainList {
  pl_items : list Item;
  pl_cursor : nat;
  pl_title : string;
  pl_size : Z * Z
}.

Record PlainViewport : Type := mkPlainViewport {
  pv_content : string;
  pv_width : Z;
  pv_height : Z
}.

Definition plain_list_update (m : Msg unit) (l : PlainList)
  : PlainList * option unit :=
  match m with
  | KeyMsg key =>
      if key_in key ["down"; "j"] then
        if (S (pl_cursor l) <? List.length (pl_items l))%nat then
          (mkPlainList (pl_items l) (S (pl_cursor l)) (pl_title l) (pl_size l),
           None)
        else (l, None)
      else if key_in key ["up"; "k"] then
        (mkPlainList (pl_items l) (Nat.pred (pl_cursor l)) (pl_title l)
                     (pl_size l), None)
      else (l, None)
  | _ => (l, None)
  end.

Definition plain_format (e : Email) : string :=
  (Subject e ++ ": "
   ++ (if is_empty (Body e) then "Loading email content..." else Body e))%string.

Definition plainToolkit : Toolkit :=
  mkToolkit
    (mkPlainList [] 0 "" (0, 0))
    (fun title l => mkPlainList (pl_items l) (pl_cursor l) title (pl_size l))
    (fun w h l => mkPlainList (pl_items l) (pl_cursor l) (pl_title l) (w, h))
    (fun items l =>
       mkPlainList items
                   (Nat.min (pl_cursor l) (Nat.pred (List.length items)))
                   (pl_title l) (pl_size l))
    pl_cursor
    pl_items
    (fun l => nth_error (pl_items l) (pl_cursor l))
    plain_list_update
    (mkPlainViewport "" 0 0)
    (fun w h => mkPlainViewport "" w h)
    (fun w v => mkPlainViewport (pv_content v) w (pv_height v))
    (fun h v => mkPlainViewport (pv_content v) (pv_width v) h)
    (fun content v => mkPlainViewport content (pv_width v) (pv_height v))
    (fun _ v => (v, None))
    plain_format.

(** *** A mail server with folders and an inbox *)

Record Server : Type := mkServer {
  srv_folders : list string;
  srv_inbox : list ImapMessage;
  srv_move_ok : bool;
  srv_store_ok : bool;
  srv_expunge_ok : bool
}.

Definition srv_select (name : string) : Session Server (result MailboxStatus) :=
  fun s =>
    if existsb (String.eqb name) (srv_folders s) then
      (s, Ok (mkMailboxStatus
                (if String.eqb name "INBOX"
                 then Z.of_nat (List.length (srv_inbox s)) else 0)))
    else (s, Err "NO mailbox does not exist").

Definition srv_without (uid : Z) (s : Server) : Server :=
  mkServer (srv_folders s)
           (filter (fun m => negb (msg_Uid m =? uid)) (srv_inbox s))
           (srv_move_ok s) (srv_store_ok s) (srv_expunge_ok s).

(** The messages whose sequence number lies in the range. *)
Fixpoint srv_range (start stop seq : Z) (inbox : list ImapMessage)
  : list ImapMessage :=
  match inbox with
  | [] => []
  | m :: rest =>
      if (start <=? seq) && (seq <=? stop)
      then m :: srv_range start stop (seq + 1) rest
      else srv_range start stop (seq + 1) rest
  end.

(** [serverOps s0] connects to the server [s0]. *)
Definition serverOps (s0 : Server) : ImapOps Server :=
  mkImapOps
    (fun _ _ _ _ => Ok s0)
    srv_select
    (fun start stop s => (s, srv_range start stop 1 (srv_inbox s)))
    (fun uid s => (s, filter (fun m => msg_Uid m =? uid) (srv_inbox s)))
    (fun uid dest s =>
       if srv_move_ok s then (srv_without uid s, None)
       else (s, Some "NO move failed"))
    (fun uid item flags s =>
       if srv_store_ok s then (s, None) else (s, Some "NO store failed"))
    (fun s => if srv_expunge_ok s then (s, None) else (s, Some "NO expunge failed"))
    (fun s => (s, None)).

(** *** A MIME library that reads messages off a table *)

Definition ScriptedBody : Type := (result string * list NextPart_result)%type.

Fixpoint table_find (table : list (string * (string * ScriptedBody)))
         (raw : string) : result (string * ScriptedBody) :=
  match table with
  | [] => Err "mail: malformed header"
  | (k, v) :: rest => if String.eqb k raw then Ok v else table_find rest raw
  end.

Definition scriptedMime (table : list (string * (string * ScriptedBody)))
  : MimeLib :=
  mkMimeLib
    (table_find table)
    (fun b : ScriptedBody => fst b)
    (fun contentType =>
       if is_empty contentType then ("", [], Some "mime: no media type")
       else (contentType, [("boundary", "frontier")], None))
    (fun (b : ScriptedBody) (boundary : string) => snd b)
    (fun r : list NextPart_result =>
       match r with
       | [] => ([], NP_EOF)
       | x :: r' => (r', x)
       end).

(** Insertion sort, standing in for [sort.Slice]. *)
Fixpoint insert_by (less : Email -> Email -> bool) (e : Email)
         (l : list Email) : list Email :=
  match l with
  | [] => [e]
  | x :: rest => if less x e then x :: insert_by less e rest else e :: l
  end.

Definition sort_by (less : Email -> Email -> bool) (l : list Email)
  : list Email :=
  fold_right (insert_by less) [] l.

(** *** Sample data *)

Definition header (uid : Z) : Email :=
  mkEmail uid ("Message " ++ fmt_d uid) "alice" "bob" (1000 + uid)
          "" "" "" "" false.

(** The headers with unique ids [first+n-1 .. first], newest first. *)
Fixpoint headers (first : Z) (n : nat) : list Email :=
  match n with
  | O => []
  | S n' => header (first + Z.of_nat n') :: headers first n'
  end.

Definition stored (uid : Z) : ImapMessage :=
  mkImapMessage
    (Some (mkEnvelope (1000 + uid) ("Message " ++ fmt_d uid)
                      [Some (mkAddress "alice" "alice" "example.org")]
                      [Some (mkAddress "bob" "bob" "example.org")]))
    [] uid [Some (Ok "garbage")].

(** An inbox holding the unique ids [1 .. n], oldest first. *)
Definition inbox (n : nat) : list ImapMessage :=
  map (fun k => stored (Z.of_nat k)) (seq 1 n).

(** A server with a trash folder and [n] messages in the inbox. *)
Definition okServer (n : nat) : Server :=
  mkServer ["INBOX"; "Trash"] (inbox n) true true true.

(** A server without any trash folder. *)
Definition bareServer (n : nat) : Server :=
  mkServer ["INBOX"] (inbox n) true true true.

Definition multipartRaw : string := "multipart sample".
Definition htmlRaw : string := "html sample".

Definition sampleTable : list (string * (string * ScriptedBody)) :=
  [(multipartRaw,
    ("multipart/alternative",
     (Ok "", [NP_Part "text/plain" (Ok "Hello");
              NP_Part "text/html" (Ok "<p>Hello</p>")])));
   (htmlRaw, ("text/html", (Ok "<b>Hi</b>", [])))].

Definition sampleMime : MimeLib := scriptedMime sampleTable.

Definition App0 : Type := App Server plainToolkit.

Definition app0 : App0 :=
  NewApp Server plainToolkit "user" "secret" "imap.example.org" "993".

Definition update0 (m : Msg unit) (a : App0) : App0 * Cmd unit :=
  Update (serverOps (okServer 51)) (tk := plainToolkit) m a.

(** The browser after a run of messages, oldest first. *)
Definition after (ms : list (Msg unit)) (a : App0) : App0 :=
  fold_left (fun a m => fst (update0 m a)) ms a.

(** What happens to the browser: the user presses a key, or a command
    that [Update] returned runs to its end and its message is applied. *)
Inductive Event : Type :=
| Press (key : string)
| Finish (c : Cmd unit).

Definition run0 (c : Cmd unit) (a : App0) : option (App0 * Msg unit) :=
  run (serverOps (okServer 51)) sampleMime sort_by (tk := plainToolkit) 10 c a.

Definition happen (ev : Event) (a : App0) : option App0 :=
  match ev with
  | Press key => Some (fst (update0 (KeyMsg key) a))
  | Finish c =>
      match run0 c a with
      | Some (a', m) => Some (fst (update0 m a'))
      | None => None
      end
  end.

Fixpoint happen_all (evs : list Event) (a : App0) : option App0 :=
  match evs with
  | [] => Some a
  | ev :: rest =>
      match happen ev a with
      | Some a' => happen_all rest a'
      | None => None
      end
  end.

(** The commands that [Update] returns along a run of events. *)
Fixpoint issued (evs : list Event) (a : App0) : list (Cmd unit) :=
  match evs with
  | [] => []
  | ev :: rest =>
      let c :=
        match ev with
        | Press key => Some (snd (update0 (KeyMsg key) a))
        | Finish c =>
            match run0 c a with
            | Some (a', m) => Some (snd (update0 m a'))
            | None => None
            end
        end in
      match c, happen ev a with
      | Some c, Some a' => c :: issued rest a'
      | _, _ => []
      end
  end.

(** The first page of a mailbox of 51 messages arrives; the user
    presses [d] on the newest message, moves to [yes], and presses
    enter twice; then the two deletes complete. *)
Definition confirm_pressed : list Event :=
  [Finish (CmdLoadEmails 1 false); Press "d"; Press "right"; Press "enter"].

Definition confirm_pressed_twice : list Event :=
  confirm_pressed
  ++ [Press "enter"; Finish (CmdDeleteEmail 51); Finish (CmdDeleteEmail 51)].

(** Three headers with the unique ids 3, 2, 1 loaded into the index. *)
Definition three_loaded : App0 :=
  after [emailsLoadedMsg (headers 1 3) 3 false] app0.

Definition cached : Email :=
  mkEmail 9 "Cached" "alice" "bob" 1009 "Hello" "" "Hello" "text/plain" true.

(** An index whose first message has its body and whose second has
    not. *)
Definition two_loaded : App0 :=
  after [emailsLoadedMsg [cached; header 8] 2 false] app0.

(** A MIME library whose multipart reader fails on every call, as a
    reader without a boundary does. *)
Definition stuckMime : MimeLib :=
  mkMimeLib
    (fun raw : string => Ok ("multipart/mixed", tt))
    (fun _ : unit => Ok "")
    (fun contentType : string => (contentType, @nil (string * string), None))
    (fun (_ : unit) (_ : string) => tt)
    (fun r : unit => (r, NP_Err "multipart: boundary is empty")).

End Testbed.

(* ================================================================== *)
(** ** The program as a whole *)

Section Program.
Variable C : Type.
Variable imap : ImapOps C.
Variable lib : MimeLib.
Variable sort_Slice : (Email -> Email -> bool) -> list Email -> list Email.
Variable tk : Toolkit.

(** What can happen to the browser between two moments: a message goes
    through [Update], or a command runs and writes to the [App]. *)
Inductive evolves : App C tk -> App C tk -> Prop :=
| evolves_refl a : evolves a a
| evolves_Update a a' m :
    evolves a a' -> evolves a (fst (Update imap m a'))
| evolves_run a a' a'' fuel c m :
    evolves a a' ->
    run imap lib sort_Slice fuel c a' = Some (a'', m) ->
    evolves a a''.

(** The messages that reach [Update] from outside the browser's own
    commands: keys and window sizes from the terminal, and the widgets'
    own messages. *)
Definition from_outside (m : Msg (WidgetMsg tk)) : bool :=
  match m with
  | KeyMsg _ | WindowSizeMsg _ _ | widgetMsg _ => true
  | _ => false
  end.

(** The program: the [App] and the commands that [Update] has returned
    and that have not finished yet. *)
Definition World : Type := (App C tk * list (Cmd (WidgetCmd tk)))%type.

(** The Bubble Tea loop.  It starts with [Init]'s command pending; a
    message from outside goes through [Update]; a pending command runs
    to its end, in any order, and its message goes through [Update]; the
    command returned by [Update] becomes pending. *)
Inductive running : World -> Prop :=
| running_start username password host port :
    running (NewApp C tk username password host port,
             [Init (NewApp C tk username password host port)])
| running_outside a pending m :
    running (a, pending) ->
    from_outside m = true ->
    running (fst (Update imap m a), snd (Update imap m a) :: pending)
| running_finish a before c after_ fuel a' m :
    running (a, before ++ c :: after_) ->
    run imap lib sort_Slice fuel c a = Some (a', m) ->
    running (fst (Update imap m a'),
             snd (Update imap m a') :: before ++ after_).

(** The bookkeeping of the dialog: the choice cursor is on [no] (0) or
    on [yes] (1), and the dialog flag is set exactly in the dialog. *)
Definition dialog_consistent (a : App C tk) : Prop :=
  (deleteConfirmIndex a = 0 \/ deleteConfirmIndex a = 1)
  /\ showDeleteConfirm a = appState_eqb (state a) deleteConfirmView.

(** A command that dereferences [a.client]. *)
Definition needs_client (c : Cmd (WidgetCmd tk)) : bool :=
  match c with
  | CmdLoadEmailBody _ | CmdDeleteEmail _ => true
  | _ => false
  end.

End Program.

(** A call that changes the mailbox. *)
Definition is_destructive (x : Exchange) : bool :=
  match fst x with
  | CallUidStore _ _ _ | CallExpunge => true
  | _ => false
  end.

(** What [moveEmailToTrash] may ask of the session for a unique id:
    select a mailbox, move that unique id to a candidate folder, flag
    that unique id as deleted, expunge. *)
Definition allowed_call (uid : Z) (call : ImapCall) : Prop :=
  match call with
  | CallSelect name => name = "INBOX" \/ In name trashFolders
  | CallUidMove u dest => u = uid /\ In dest trashFolders
  | CallUidStore u item flags =>
      u = uid /\ item = "+FLAGS.SILENT" /\ flags = ["\Deleted"]
  | CallExpunge => True
  | _ => False
  end.

Definition has_envelope (m : ImapMessage) : bool :=
  match msg_Envelope m with
  | Some _ => true
  | None => false
  end.

(* ================================================================== *)
(** ** The functions of package [strings] on byte strings *)

Module GoStrings.

Definition LF : ascii := "010"%char.
Definition CR : ascii := "013"%char.
Definition TAB : ascii := "009"%char.

(** The string of one byte. *)
Definition str (c : ascii) : string := String c EmptyString.

(** [strings.Contains(s, substr)] *)
Fixpoint Contains (s substr : string) : bool :=
  String.prefix substr s
  || match s with
     | EmptyString => false
     | String _ s' => Contains s' substr
     end.

(** [strings.ReplaceAll(s, old, new)] for a non-empty [old], which is
    what the source passes: the matches are taken from the left and do
    not overlap.  [skip] counts the bytes of a match still to pass
    over. *)
Fixpoint ReplaceAll_from (old new : string) (skip : nat) (s : string)
  : string :=
  match s with
  | EmptyString => EmptyString
  | String c s' =>
      match skip with
      | S skip' => ReplaceAll_from old new skip' s'
      | O =>
          if String.prefix old s
          then new ++ ReplaceAll_from old new (Nat.pred (String.length old)) s'
          else String c (ReplaceAll_from old new 0 s')
      end
  end.

Definition ReplaceAll (s old new : string) : string :=
  ReplaceAll_from old new 0 s.

(** [strings.Split(s, sep)] for a separator of one byte, which is what
    the source passes. *)
Fixpoint Split (s : string) (sep : ascii) : list string :=
  match s with
  | EmptyString => [EmptyString]
  | String c s' =>
      if Ascii.eqb c sep then EmptyString :: Split s' sep
      else
        match Split s' sep with
        | piece :: rest => String c piece :: rest
        | [] => [str c]
        end
  end.

(** [strings.Join(elems, sep)] *)
Definition Join (elems : list string) (sep : string) : string :=
  String.concat sep elems.

Definition in_cutset (cutset : string) (c : ascii) : bool :=
  existsb (Ascii.eqb c) (list_ascii_of_string cutset).

(** [strings.TrimRight(s, cutset)] for a cutset of ASCII bytes. *)
Fixpoint TrimRight (s cutset : string) : string :=
  match s with
  | EmptyString => EmptyString
  | String c s' =>
      match TrimRight s' cutset with
      | EmptyString => if in_cutset cutset c then EmptyString else str c
      | t => String c t
      end
  end.

(** Whether a byte occurs in a string. *)
Fixpoint has_byte (c : ascii) (s : string) : bool :=
  match s with
  | EmptyString => false
  | String b s' => Ascii.eqb b c || has_byte c s'
  end.

(** The bytes of the pieces of a list, without the separators. *)
Fixpoint sum_lengths (l : list string) : nat :=
  match l with
  | [] => 0
  | x :: rest => String.length x + sum_lengths rest
  end.

(** What the source relies on of [strings.TrimSpace]: the result is a
    stretch of the argument. *)
Definition trims (TrimSpace : string -> string) : Prop :=
  forall s, exists pre post, s = (pre ++ TrimSpace s ++ post)%string.

End GoStrings.

(* ================================================================== *)
(** ** List entries and display text *)

(** [func (e Email) Title() string] *)
Definition Title (e : Email) : string :=
  if (60 <? String.length (Subject e))%nat
  then (substring 0 57 (Subject e) ++ "...")%string
  else Subject e.

(** [func (e Email) FilterValue() string] *)
Definition FilterValue (e : Email) : string := Subject e.

Section Whitespace.
Import GoStrings.

(** [strings.TrimSpace] *)
Variable TrimSpace : string -> string.

(** The loop [for strings.Contains(text, "\n\n\n\n")] of
    [cleanupWhitespace]; [None] is a loop still running when [fuel] is
    used up. *)
Fixpoint cleanupWhitespace_loop (fuel : nat) (text : string) : option string :=
  match fuel with
  | O => None
  | S fuel' =>
      if Contains text (String LF (String LF (String LF (str LF))))
      then cleanupWhitespace_loop fuel'
             (ReplaceAll text (String LF (String LF (String LF (str LF))))
                         (String LF (String LF (str LF))))
      else Some text
  end.

(** [func cleanupWhitespace(text string) string] *)
Definition cleanupWhitespace (fuel : nat) (text : string) : option string :=
  let text := ReplaceAll text (String CR (str LF)) (str LF) in
  let text := ReplaceAll text (str CR) (str LF) in
  let lines := Split text LF in
  let lines := map (fun line => TrimRight line (String " " (str TAB))) lines in
  let text := Join lines (str LF) in
  match cleanupWhitespace_loop fuel text with
  | None => None
  | Some text => Some (TrimSpace text)
  end.

End Whitespace.

(* ================================================================== *)
(** ** Composing and sending a message (the [send] command) *)

(** [type EmailForm struct] *)
Record EmailForm : Type := mkEmailForm {
  form_To : string;
  form_Cc : string;
  form_Bcc : string;
  form_Subject : string;
  form_Body : string;
  form_Priority : string;
  form_Attachments : string;
  form_Confirm : bool
}.

(** A call on the connection or on the SMTP client
    ([crypto/tls], [net/smtp]). *)
Inductive SmtpCall : Type :=
| SmtpDial (addr serverName : string)
| SmtpNewClient (host : string)
| SmtpAuth (username password host : string)
| SmtpMail (from : string)
| SmtpRcpt (to : string)
| SmtpData
| SmtpWrite (message : string)
| SmtpCloseWriter
| SmtpQuit
| SmtpConnClose.

Definition SmtpExchange : Type := (SmtpCall * option error)%type.

(** The operations that [sendEmail] calls, over the state of the
    network. *)
Record SmtpOps (S : Type) : Type := mkSmtpOps {
  tls_Dial : string -> string -> Session S (option error);
  conn_Close : Session S (option error);
  smtp_NewClient : string -> Session S (option error);
  smtp_Auth : string -> string -> string -> Session S (option error);
  smtp_Mail : string -> Session S (option error);
  smtp_Rcpt : string -> Session S (option error);
  smtp_Data : Session S (option error);
  writer_Write : string -> Session S (option error);
  writer_Close : Session S (option error);
  smtp_Quit : Session S (option error)
}.

Section SmtpTraced.
Variable S : Type.
Variable smtp : SmtpOps S.

Definition record_smtp (call : SmtpCall) (m : Session S (option error))
  : Session (S * list SmtpExchange) (option error) :=
  fun st =>
    let (s, e) := m (fst st) in
    ((s, snd st ++ [(call, e)]), e).

(** The same operations, keeping the list of the exchanges in time
    order. *)
Definition traced_smtp : SmtpOps (S * list SmtpExchange) :=
  mkSmtpOps
    (fun addr name => record_smtp (SmtpDial addr name) (tls_Dial smtp addr name))
    (record_smtp SmtpConnClose (conn_Close smtp))
    (fun host => record_smtp (SmtpNewClient host) (smtp_NewClient smtp host))
    (fun u p h => record_smtp (SmtpAuth u p h) (smtp_Auth smtp u p h))
    (fun from => record_smtp (SmtpMail from) (smtp_Mail smtp from))
    (fun to => record_smtp (SmtpRcpt to) (smtp_Rcpt smtp to))
    (record_smtp SmtpData (smtp_Data smtp))
    (fun message => record_smtp (SmtpWrite message) (writer_Write smtp message))
    (record_smtp SmtpCloseWriter (writer_Close smtp))
    (record_smtp SmtpQuit (smtp_Quit smtp)).

End SmtpTraced.

Section Send.
Import GoStrings.

(** [strings.TrimSpace] *)
Variable TrimSpace : string -> string.

(** The loop of [parseRecipients]. *)
Fixpoint parseRecipients_loop (pieces : list string) : list string :=
  match pieces with
  | [] => []
  | recipient :: rest =>
      let recipient := TrimSpace recipient in
      if negb (is_empty recipient)
      then recipient :: parseRecipients_loop rest
      else parseRecipients_loop rest
  end.

(** [func parseRecipients(recipients string) []string] *)
Definition parseRecipients (recipients : string) : list string :=
  if is_empty recipients then []
  else parseRecipients_loop (Split recipients ","%char).

(** The loop of the validator of the [To] field. *)
Fixpoint validate_To_loop (recipients : list string) : option error :=
  match recipients with
  | [] => None
  | recipient :: rest =>
      let recipient := TrimSpace recipient in
      if negb (Contains recipient "@") || negb (Contains recipient ".")
      then Some ("invalid email format: " ++ recipient)%string
      else validate_To_loop rest
  end.

(** The function given to [Validate] for the [To] field in
    [createEmailForm]. *)
Definition validate_To (s : string) : option error :=
  if is_empty (TrimSpace s) then Some "recipient is required"
  else validate_To_loop (Split s ","%char).

(** The function given to [Validate] for the subject. *)
Definition validate_Subject (s : string) : option error :=
  if is_empty (TrimSpace s) then Some "subject is required" else None.

(** The function given to [Validate] for the body. *)
Definition validate_Body (s : string) : option error :=
  if is_empty (TrimSpace s) then Some "email body is required" else None.

Definition CRLF : string := String CR (str LF).

(** [func buildEmailMessage(email, fromEmail, toRecipients,
    ccRecipients) string]; [date] is
    [time.Now().Format(time.RFC1123Z)]. *)
Definition buildEmailMessage (email : EmailForm) (fromEmail : string)
           (toRecipients ccRecipients : list string) (date : string)
  : string :=
  (("From: " ++ fromEmail ++ CRLF)
   ++ ("To: " ++ Join toRecipients ", " ++ CRLF)
   ++ (if (0 <? List.length ccRecipients)%nat
       then "Cc: " ++ Join ccRecipients ", " ++ CRLF
       else "")
   ++ ("Subject: " ++ form_Subject email ++ CRLF)
   ++ ("Date: " ++ date ++ CRLF)
   ++ ("MIME-Version: 1.0" ++ CRLF)
   ++ ("Content-Type: text/plain; charset=UTF-8" ++ CRLF)
   ++ (if String.eqb (form_Priority email) "high"
       then ("X-Priority: 1" ++ CRLF) ++ ("Importance: High" ++ CRLF)
       else if String.eqb (form_Priority email) "low"
       then ("X-Priority: 5" ++ CRLF) ++ ("Importance: Low" ++ CRLF)
       else ("X-Priority: 3" ++ CRLF) ++ ("Importance: Normal" ++ CRLF))
   ++ ("User-Agent: CLI-Email-Client" ++ CRLF)
   ++ CRLF
   ++ form_Body email
   ++ CRLF)%string.

Variable S : Type.
Variable smtp : SmtpOps S.

Local Open Scope session_scope.

(** The loop [for _, recipient := range allRecipients] of
    [sendEmail]. *)
Fixpoint sendEmail_recipients (recipients : list string)
  : Session S (option error) :=
  match recipients with
  | [] => ret None
  | recipient :: rest =>
      e <- smtp_Rcpt smtp recipient ;;
      match e with
      | Some err =>
          ret (Some ("failed to set recipient " ++ recipient ++ ": " ++ err)%string)
      | None => sendEmail_recipients rest
      end
  end.

(** [sendEmail] from the authentication on, with the client at hand.
    The second component is what is printed. *)
Definition sendEmail_dialogue (host username password : string)
           (allRecipients : list string) (message : string)
  : Session S (option error * list string) :=
  e <- smtp_Auth smtp username password host ;;
  match e with
  | Some err => ret (Some ("SMTP authentication failed: " ++ err)%string, [])
  | None =>
      e <- smtp_Mail smtp username ;;
      match e with
      | Some err => ret (Some ("failed to set sender: " ++ err)%string, [])
      | None =>
          e <- sendEmail_recipients allRecipients ;;
          match e with
          | Some err => ret (Some err, [])
          | None =>
              e <- smtp_Data smtp ;;
              match e with
              | Some err =>
                  ret (Some ("failed to get data writer: " ++ err)%string, [])
              | None =>
                  e <- writer_Write smtp message ;;
                  match e with
                  | Some err =>
                      ret (Some ("failed to write message: " ++ err)%string,
                           [])
                  | None =>
                      e <- writer_Close smtp ;;
                      match e with
                      | Some err =>
                          ret (Some ("failed to close data writer: " ++ err)%string,
                               [])
                      | None =>
                          ret (None,
                               [("✅ Email sent successfully to "
                                 ++ fmt_d (Z.of_nat (List.length allRecipients))
                                 ++ " recipient(s)!")%string])
                      end
                  end
              end
          end
      end
  end.

(** [func sendEmail(email, host, port, username, password) error].  The
    two deferred calls run when the function returns, the last deferred
    first: [smtpClient.Quit()], then [conn.Close()]. *)
Definition sendEmail (email : EmailForm)
           (host port username password date : string)
  : Session S (option error * list string) :=
  if negb (form_Confirm email) then ret (None, ["Email sending cancelled."])
  else
    let toRecipients := parseRecipients (form_To email) in
    let ccRecipients := parseRecipients (form_Cc email) in
    let bccRecipients := parseRecipients (form_Bcc email) in
    let allRecipients := (toRecipients ++ ccRecipients) ++ bccRecipients in
    if (List.length allRecipients =? 0)%nat
    then ret (Some "no valid recipients found", [])
    else
      let message :=
        buildEmailMessage email username toRecipients ccRecipients date in
      let serverAddr := (host ++ ":" ++ port)%string in
      e <- tls_Dial smtp serverAddr host ;;
      match e with
      | Some err =>
          ret (Some ("failed to connect to SMTP server: " ++ err)%string, [])
      | None =>
          r <- (e <- smtp_NewClient smtp host ;;
                match e with
                | Some err =>
                    ret (Some ("failed to create SMTP client: " ++ err)%string,
                         [])
                | None =>
                    r <- sendEmail_dialogue host username password
                                            allRecipients message ;;
                    _ <- smtp_Quit smtp ;;
                    ret r
                end) ;;
          _ <- conn_Close smtp ;;
          ret r
      end.

End Send.

Section SendRuns.

(** [strings.TrimSpace] *)
Variable TrimSpace : string -> string.

(** The runs of [sendEmail], by how far they get. *)
Inductive send_run (email : EmailForm)
          (host port username password date : string)
  : list SmtpExchange -> option error -> Prop :=
| send_cancelled :
    form_Confirm email = false ->
    send_run email host port username password date [] None
| send_no_recipient :
    form_Confirm email = true ->
    (parseRecipients TrimSpace (form_To email)
     ++ parseRecipients TrimSpace (form_Cc email))
    ++ parseRecipients TrimSpace (form_Bcc email) = [] ->
    send_run email host port username password date []
             (Some "no valid recipients found")
| send_no_connection e :
    form_Confirm email = true ->
    send_run email host port username password date
             [(SmtpDial (host ++ ":" ++ port) host, Some e)]
             (Some ("failed to connect to SMTP server: " ++ e)%string)
| send_no_client e o :
    form_Confirm email = true ->
    send_run email host port username password date
             [(SmtpDial (host ++ ":" ++ port) host, None);
              (SmtpNewClient host, Some e);
              (SmtpConnClose, o)]
             (Some ("failed to create SMTP client: " ++ e)%string)
| send_dialogue tr err o o' :
    form_Confirm email = true ->
    (err = None ->
     tr = [(SmtpAuth username password host, None);
           (SmtpMail username, None)]
          ++ map (fun r => (SmtpRcpt r, None))
                 ((parseRecipients TrimSpace (form_To email)
                   ++ parseRecipients TrimSpace (form_Cc email))
                  ++ parseRecipients TrimSpace (form_Bcc email))
          ++ [(SmtpData, None);
              (SmtpWrite
                 (buildEmailMessage email username
                    (parseRecipients TrimSpace (form_To email))
                    (parseRecipients TrimSpace (form_Cc email)) date),
               None);
              (SmtpCloseWriter, None)]) ->
    send_run email host port username password date
             ([(SmtpDial (host ++ ":" ++ port) host, None);
               (SmtpNewClient host, None)]
              ++ tr ++ [(SmtpQuit, o); (SmtpConnClose, o')])
             err.

End SendRuns.

(* ================================================================== *)
(** ** More stand-ins *)

Module Testbed2.
Import GoStrings Testbed.

(** The ASCII white space. *)
Definition spaces : string :=
  String " " (String TAB (String LF (String "011" (String "012" (str CR))))).

Fixpoint TrimLeft_spaces (s : string) : string :=
  match s with
  | EmptyString => EmptyString
  | String c s' => if in_cutset spaces c then TrimLeft_spaces s' else s
  end.

(** [strings.TrimSpace] on ASCII text. *)
Definition asciiTrimSpace (s : string) : string :=
  TrimRight (TrimLeft_spaces s) spaces.

(** A mail server that accepts everything. *)
Definition okSmtp : SmtpOps unit :=
  mkSmtpOps
    (fun _ _ s => (s, None))
    (fun s => (s, None))
    (fun _ s => (s, None))
    (fun _ _ _ s => (s, None))
    (fun _ s => (s, None))
    (fun _ s => (s, None))
    (fun s => (s, None))
    (fun _ s => (s, None))
    (fun s => (s, None))
    (fun s => (s, None)).

Definition sampleForm : EmailForm :=
  mkEmailForm "ann@example.org, bob@example.org" "" " cy@example.org "
              "Hello" "See you." "normal" "" true.

Definition sampleDate : string := "Mon, 02 Jan 2006 15:04:05 -0700".

(** Text with Windows line ends, trailing blanks and a long run of
    empty lines. *)
Definition untidy : string :=
  ("  one  " ++ String CR (str LF) ++ "two" ++ str TAB
   ++ String LF (String LF (String LF (String LF (String LF (str LF)))))
   ++ "three" ++ str CR)%string.

(** The browser after its first command has run on a server with 51
    messages, and the page it was sent. *)
Definition first_run : App0 * Msg unit :=
  match
    run (serverOps (okServer 51)) sampleMime sort_by (tk := plainToolkit)
        10 (CmdLoadEmails 1 false) app0
  with
  | Some r => r
  | None => (app0, clearSuccessMsg)
  end.

(** The first page is in; the user presses [d], moves to [yes] and
    presses enter. *)
Definition page_in : App0 := fst (update0 (snd first_run) (fst first_run)).
Definition d_pressed : App0 := fst (update0 (KeyMsg "d") page_in).
Definition yes_chosen : App0 := fst (update0 (KeyMsg "right") d_pressed).
Definition enter_pressed : App0 := fst (update0 (KeyMsg "enter") yes_chosen).

(** An index of one message out of two, with the cursor on the
    load-more entry. *)
Definition on_load_more : App0 :=
  after [emailsLoadedMsg [header 2] 2 false; KeyMsg "down"] app0.

(** The browser after an error message. *)
Definition failed : App0 := after [errorMsg "connection reset"] app0.

(** A message without a [Content-Type] header, the library that reads
    it, and a server that holds it under the unique id 7. *)
Definition untypedRaw : string :=
  ("Subject: hi" ++ String LF (str LF) ++ "hello")%string.

Definition untypedMime : MimeLib :=
  scriptedMime [(untypedRaw, ("", (Ok "hello", [])))].

Definition untypedServer : Server :=
  mkServer ["INBOX"] [mkImapMessage None [] 7 [Some (Ok untypedRaw)]]
           true true true.

(** A library for which every stored message is a multipart message
    with one attachment and no text part. *)
Definition attachmentMime : MimeLib :=
  scriptedMime
    [("garbage",
      ("multipart/mixed", (Ok "", [NP_Part "application/pdf" (Ok "%PDF")])))].

(** The first page is in; the user presses enter on the newest message,
    its body is fetched and decoded with [attachmentMime], the completion
    is applied, and the user goes back to the list. *)
Definition body_run : App0 * Msg unit :=
  match
    run (serverOps (okServer 51)) attachmentMime sort_by (tk := plainToolkit)
        10 (CmdLoadEmailBody 51) (fst (update0 (KeyMsg "enter") page_in))
  with
  | Some r => r
  | None => (app0, clearSuccessMsg)
  end.

Definition body_in : App0 := fst (update0 (snd body_run) (fst body_run)).
Definition back_in_list : App0 := fst (update0 (KeyMsg "esc") body_in).

End Testbed2.

(* ================================================================== *)
(** * Theorems *)

(** ** Machine integers *)

Module IntFacts.
Lemma u32_wrap_in_range x : U32.in_range (U32.wrap x).
Proof. unfold U32.in_range, U32.wrap, U32.modulus. apply Z.mod_pos_bound. lia. Qed.

Lemma u32_wrap_small x : U32.in_range x -> U32.wrap x = x.
Proof. unfold U32.in_range, U32.wrap. intros H. apply Z.mod_small. exact H. Qed.

Lemma u32_dec_pos x : U32.in_range x -> 0 < x -> U32.dec x = x - 1.
Proof.
  unfold U32.dec, U32.sub. intros H Hpos. apply u32_wrap_small.
  unfold U32.in_range in *. lia.
Qed.
Lemma goint_wrap_small x : GoInt.in_range x -> GoInt.wrap x = x.
Proof.
  unfold GoInt.in_range, GoInt.wrap. intros H.
  rewrite Z.mod_small by (unfold GoInt.half in *; lia). lia.
Qed.
End IntFacts.

(* ================================================================== *)
(** ** Theorems: pagination *)

Module PaginationFacts.
Import Pagination IntFacts.

Example range_120_50_page1 : fetchEmails_range 120 1 50 = (71, 120).
Proof. reflexivity. Qed.

Example range_120_50_page2 : fetchEmails_range 120 2 50 = (21, 70).
Proof. reflexivity. Qed.

(** X1.  A page that lies wholly inside the mailbox
    ([page * perPage <= total]) gets the range of the data model,
    [[total - page*perPage + 1, total - (page-1)*perPage]]. *)
Lemma fetchEmails_range_full_page total page perPage :
  U32.in_range total -> 0 < perPage -> 1 <= page ->
  page * perPage <= total ->
  fetchEmails_range total page perPage = page_range_spec total page perPage.
Proof.
  intros Ht Hp Hn Hfit.
  assert (Hm : 2 ^ 32 = 4294967296) by reflexivity.
  assert (H63 : 2 ^ 63 = 9223372036854775808) by reflexivity.
  unfold U32.in_range, U32.modulus in Ht.
  assert (Hpp : perPage <= total) by nia.
  assert (Hprod : 0 <= (page - 1) * perPage <= total - perPage) by nia.
  unfold fetchEmails_range, page_range_spec.
  unfold GoInt.sub, GoInt.mul, GoInt.to_uint32.
  rewrite (goint_wrap_small (x := page - 1))
    by (unfold GoInt.in_range, GoInt.half; nia).
  rewrite (goint_wrap_small (x := (page - 1) * perPage))
    by (unfold GoInt.in_range, GoInt.half; lia).
  rewrite (u32_wrap_small (x := (page - 1) * perPage))
    by (unfold U32.in_range, U32.modulus; lia).
  rewrite (u32_wrap_small (x := perPage))
    by (unfold U32.in_range, U32.modulus; lia).
  unfold U32.sub, U32.add.
  rewrite (u32_wrap_small (x := total - (page - 1) * perPage))
    by (unfold U32.in_range, U32.modulus; lia).
  rewrite (u32_wrap_small (x := total - (page - 1) * perPage - perPage))
    by (unfold U32.in_range, U32.modulus; lia).
  rewrite (u32_wrap_small (x := total - (page - 1) * perPage - perPage + 1))
    by (unfold U32.in_range, U32.modulus; lia).
  destruct (Z.ltb_spec (total - (page - 1) * perPage - perPage + 1) 1);
    destruct (Z.gtb_spec (total - (page - 1) * perPage) total);
    f_equal; lia.
Qed.

(** C1 (evaluation at the failing input).  For a mailbox of 120
    messages and pages of 50, the third page should be the range 1-20.
    The code computes its lower end as [20 - 50 + 1] in [uint32], which
    wraps to 4294967267; the guard [start < 1] does not fire, so the
    range handed to the session is (4294967267, 20) and differs from the
    clamped range (1, 20) of the data model. *)
Theorem fetchEmails_range_last_page_wraps :
  fetchEmails_range 120 3 50 = (4294967267, 20) /\
  page_range_spec 120 3 50 = (1, 20) /\
  fetchEmails_range 120 3 50 <> page_range_spec 120 3 50.
Proof.
  split; [reflexivity | split; [reflexivity | ]].
  vm_compute. intros H. discriminate H.
Qed.

(** X3.  The lower end never reaches the clamp unless it is exactly 0:
    on a last page with fewer than [perPage - 1] messages left, the start
    is the wrapped value [total - page*perPage + 1 + 2^32], above every
    sequence number of the mailbox. *)
Lemma fetchEmails_range_start_wraps total page perPage :
  U32.in_range total -> 0 < perPage -> 1 <= page ->
  (page - 1) * perPage <= total ->
  total + 1 < page * perPage ->
  page * perPage < 2 ^ 31 ->
  fst (fetchEmails_range total page perPage)
  = total - page * perPage + 1 + 2 ^ 32.
Proof.
  intros Ht Hp Hn Hlo Hhi Hbound.
  assert (Hm : 2 ^ 32 = 4294967296) by reflexivity.
  assert (H31 : 2 ^ 31 = 2147483648) by reflexivity.
  unfold U32.in_range, U32.modulus in Ht.
  assert (Hpp : perPage < 2 ^ 31) by nia.
  assert (Hprod : 0 <= (page - 1) * perPage) by nia.
  unfold fetchEmails_range.
  unfold GoInt.sub, GoInt.mul, GoInt.to_uint32.
  rewrite (goint_wrap_small (x := page - 1))
    by (unfold GoInt.in_range, GoInt.half; nia).
  rewrite (goint_wrap_small (x := (page - 1) * perPage))
    by (unfold GoInt.in_range, GoInt.half; lia).
  rewrite (u32_wrap_small (x := (page - 1) * perPage))
    by (unfold U32.in_range, U32.modulus; lia).
  rewrite (u32_wrap_small (x := perPage))
    by (unfold U32.in_range, U32.modulus; lia).
  unfold U32.sub, U32.add.
  rewrite (u32_wrap_small (x := total - (page - 1) * perPage))
    by (unfold U32.in_range, U32.modulus; lia).
  set (e := total - (page - 1) * perPage).
  assert (He : 0 <= e < perPage - 1) by (unfold e; lia).
  assert (H1 : U32.wrap (e - perPage) = e - perPage + 2 ^ 32).
  { unfold U32.wrap, U32.modulus. symmetry.
    apply Z.mod_unique with (q := -1); lia. }
  rewrite H1.
  assert (H2 : U32.wrap (e - perPage + 2 ^ 32 + 1) = e - perPage + 2 ^ 32 + 1).
  { apply u32_wrap_small. unfold U32.in_range, U32.modulus. lia. }
  rewrite H2. cbn [fst].
  destruct (Z.ltb_spec (e - perPage + 2 ^ 32 + 1) 1); unfold e; lia.
Qed.

End PaginationFacts.

(* ================================================================== *)
(** ** Theorems: the trash pipeline *)

Module TrashFacts.

Section Moves.
Variable C : Type.
Variable imap : ImapOps C.
Variable uid : Z.

(** The loop over the candidates refines the candidate rule of the
    design, whatever the session answers. *)
Lemma moveEmailToTrash_loop_refines folders :
  forall (c : C) (tr0 : list Exchange),
  exists c' tr won,
    moveEmailToTrash_loop (traced imap) uid folders (c, tr0)
    = ((c', tr0 ++ tr), won)
    /\ delete_spec_candidates uid folders tr won.
Proof.
  induction folders as [|folder rest IH]; intros c tr0.
  - exists c, [], None. cbn. rewrite app_nil_r.
    split; [reflexivity | constructor].
  - cbn [moveEmailToTrash_loop].
    unfold bind at 1. cbn [traced Select]. unfold record_call at 1.
    cbn [fst snd].
    destruct (Select imap folder c) as [c1 [mb|e]] eqn:Hsel; cbn [outcome].
    + unfold bind at 1. unfold record_call at 1. cbn [fst snd].
      destruct (Select imap "INBOX" c1) as [c2 [mb'|e]] eqn:Hin;
        cbn [outcome].
      * unfold bind at 1. cbn [traced UidMove].
        unfold record_call at 1. cbn [fst snd].
        destruct (UidMove imap uid folder c2) as [c3 [e|]] eqn:Hmv.
        -- destruct (IH c3 (((tr0 ++ [(CallSelect folder, None)])
                              ++ [(CallSelect "INBOX", None)])
                              ++ [(CallUidMove uid folder, Some e)]))
             as (c' & tr & won & Hrun & Hspec).
           exists c', ((CallSelect folder, None)
                       :: (CallSelect "INBOX", None)
                       :: (CallUidMove uid folder, Some e) :: tr), won.
           split.
           ++ rewrite Hrun. repeat rewrite <- app_assoc. reflexivity.
           ++ now constructor.
        -- exists c3, [(CallSelect folder, None);
                       (CallSelect "INBOX", None);
                       (CallUidMove uid folder, None)], (Some folder).
           split.
           ++ unfold ret. repeat rewrite <- app_assoc. reflexivity.
           ++ constructor.
      * destruct (IH c2 ((tr0 ++ [(CallSelect folder, None)])
                           ++ [(CallSelect "INBOX", Some e)]))
          as (c' & tr & won & Hrun & Hspec).
        exists c', ((CallSelect folder, None)
                    :: (CallSelect "INBOX", Some e) :: tr), won.
        split.
        -- rewrite Hrun. repeat rewrite <- app_assoc. reflexivity.
        -- now constructor.
    + destruct (IH c1 (tr0 ++ [(CallSelect folder, Some e)]))
        as (c' & tr & won & Hrun & Hspec).
      exists c', ((CallSelect folder, Some e) :: tr), won.
      split.
      * rewrite Hrun. rewrite <- app_assoc. reflexivity.
      * now constructor.
Qed.

(** The fallback of the code refines the fallback of the design. *)
Lemma moveEmailToTrash_fallback_refines (c : C) (tr0 : list Exchange) :
  exists c' tr res,
    bind (Select (traced imap) "INBOX")
         (fun r =>
            match r with
            | Err err => ret (false, ("Failed to select INBOX: " ++ err)%string)
            | Ok _ =>
                bind (UidStore (traced imap) uid AddFlagsSilent [DeletedFlag])
                  (fun err =>
                     match err with
                     | Some err =>
                         ret (false,
                              ("Failed to mark email as deleted: " ++ err)%string)
                     | None =>
                         bind (Expunge (traced imap))
                           (fun err =>
                              match err with
                              | Some err =>
                                  ret (false,
                                       ("Failed to expunge: " ++ err)%string)
                              | None => ret (true, "Email deleted permanently")
                              end)
                     end)
            end) (c, tr0)
    = ((c', tr0 ++ tr), res)
    /\ delete_spec_fallback uid tr res.
Proof.
  unfold bind at 1. cbn [traced Select]. unfold record_call at 1.
  cbn [fst snd].
  destruct (Select imap "INBOX" c) as [c1 [mb|e]]; cbn [outcome].
  - unfold bind at 1. cbn [traced UidStore]. unfold record_call at 1.
    cbn [fst snd].
    destruct (UidStore imap uid AddFlagsSilent [DeletedFlag] c1)
      as [c2 [e|]].
    + eexists c2, _, _. split.
      * unfold ret. rewrite <- app_assoc. reflexivity.
      * apply fallback_flag_failed.
    + unfold bind at 1. cbn [traced Expunge]. unfold record_call at 1.
      cbn [fst snd].
      destruct (Expunge imap c2) as [c3 [e|]].
      * eexists c3, _, _. split.
        -- unfold ret. repeat rewrite <- app_assoc. reflexivity.
        -- apply fallback_expunge_failed.
      * eexists c3, _, _. split.
        -- unfold ret. repeat rewrite <- app_assoc. reflexivity.
        -- apply fallback_ok.
  - eexists c1, _, _. split.
    + unfold ret. reflexivity.
    + apply fallback_select_failed.
Qed.

(** Observing the session does not change what the client is asked
    to do. *)
Lemma traced_loop_erase folders :
  forall (c : C) (tr0 : list Exchange),
    moveEmailToTrash_loop imap uid folders c
    = (fst (fst (moveEmailToTrash_loop (traced imap) uid folders (c, tr0))),
       snd (moveEmailToTrash_loop (traced imap) uid folders (c, tr0))).
Proof.
  induction folders as [|folder rest IH]; intros c tr0.
  - reflexivity.
  - cbn [moveEmailToTrash_loop]. unfold bind.
    cbn [traced Select UidMove]. unfold record_call. cbn [fst snd].
    destruct (Select imap folder c) as [c1 [mb|e]]; cbn [fst snd].
    + destruct (Select imap "INBOX" c1) as [c2 [mb'|e]]; cbn [fst snd].
      * destruct (UidMove imap uid folder c2) as [c3 [e|]]; cbn [fst snd].
        -- apply IH.
        -- reflexivity.
      * apply IH.
    + apply IH.
Qed.

Lemma traced_moveEmailToTrash_erase (c : C) (tr0 : list Exchange) :
  moveEmailToTrash imap uid c
  = (fst (fst (moveEmailToTrash (traced imap) uid (c, tr0))),
     snd (moveEmailToTrash (traced imap) uid (c, tr0))).
Proof.
  unfold moveEmailToTrash. unfold bind at 1 5 9.
  rewrite (traced_loop_erase trashFolders c tr0).
  destruct (moveEmailToTrash_loop (traced imap) uid trashFolders (c, tr0))
    as [[c1 tr1] [folder|]]; cbn [fst snd].
  - reflexivity.
  - unfold bind. cbn [traced Select UidStore Expunge].
    unfold record_call. cbn [fst snd].
    destruct (Select imap "INBOX" c1) as [c2 [mb|e]]; cbn [fst snd].
    + destruct (UidStore imap uid AddFlagsSilent [DeletedFlag] c2)
        as [c3 [e|]]; cbn [fst snd].
      * reflexivity.
      * destruct (Expunge imap c3) as [c4 [e|]]; reflexivity.
    + reflexivity.
Qed.

(** C6.  Against any session, [moveEmailToTrash] returns a (success,
    message) pair, and the exchanges it causes are those of the
    design: the candidate trash folders in their fixed priority
    order, each first selected to verify that it exists, then the
    source mailbox re-selected, then the message moved by unique id,
    the first successful move ending the procedure with success; and
    when no candidate exists or every attempt fails, the source
    mailbox re-selected, the deleted flag set on the unique id, and
    the mailbox expunged. *)
Theorem moveEmailToTrash_refines_delete_spec (c : C) :
  exists c' tr res,
    moveEmailToTrash (traced imap) uid (c, []) = ((c', tr), res)
    /\ moveEmailToTrash imap uid c = (c', res)
    /\ delete_spec uid tr res.
Proof.
  assert (Htraced :
            exists c' tr res,
              moveEmailToTrash (traced imap) uid (c, []) = ((c', tr), res)
              /\ delete_spec uid tr res).
  { unfold moveEmailToTrash. unfold bind at 1.
    destruct (moveEmailToTrash_loop_refines trashFolders c [])
      as (c1 & tr & won & Hrun & Hspec).
    rewrite Hrun. cbn [app] in *.
    destruct won as [folder|].
    - exists c1, tr, (true, ("Email moved to " ++ folder)%string).
      split; [reflexivity | ].
      apply delete_moved. exact Hspec.
    - destruct (moveEmailToTrash_fallback_refines c1 tr)
        as (c2 & tr' & res & Hfb & Hspec').
      exists c2, (tr ++ tr'), res. split.
      + exact Hfb.
      + apply delete_fell_back; assumption. }
  destruct Htraced as (c' & tr & res & Hrun & Hspec).
  exists c', tr, res. split; [exact Hrun | ]. split; [ | exact Hspec].
  rewrite (traced_moveEmailToTrash_erase c []), Hrun. reflexivity.
Qed.

End Moves.

(** In a run of the candidates, a move that succeeds is the last
    exchange, and it puts the message in the winning folder. *)
Lemma delete_spec_candidates_short_circuit uid folders tr won :
  delete_spec_candidates uid folders tr won ->
  forall pre x post,
    tr = pre ++ x :: post ->
    is_move x = true -> succeeded x = true ->
    post = [] /\ exists folder, won = Some folder
                                /\ x = (CallUidMove uid folder, None)
                                /\ In folder folders.
Proof.
  induction 1 as [| folder rest e tr won H IH
                  | folder rest e tr won H IH
                  | folder rest e tr won H IH
                  | folder rest];
    intros pre x post Heq Hmv Hok.
  - destruct pre; discriminate Heq.
  - destruct pre as [|p pre]; cbn in Heq; inversion Heq; subst.
    + discriminate Hmv.
    + destruct (IH _ _ _ eq_refl Hmv Hok) as (Hp & f & Hw & Hx & Hin).
      split; [exact Hp | exists f; cbn; auto].
  - destruct pre as [|p pre]; cbn in Heq; inversion Heq; subst;
      [discriminate Hmv | ].
    destruct pre as [|p' pre]; cbn in *; inversion H2; subst;
      [discriminate Hmv | ].
    destruct (IH _ _ _ eq_refl Hmv Hok) as (Hp & f & Hw & Hx & Hin).
    split; [exact Hp | exists f; cbn; auto].
  - destruct pre as [|p pre]; cbn in Heq; inversion Heq; subst;
      [discriminate Hmv | ].
    destruct pre as [|p' pre]; cbn in *; inversion H2; subst;
      [discriminate Hmv | ].
    destruct pre as [|p'' pre]; cbn in *; inversion H3; subst;
      [discriminate Hok | ].
    destruct (IH _ _ _ eq_refl Hmv Hok) as (Hp & f & Hw & Hx & Hin).
    split; [exact Hp | exists f; cbn; auto].
  - destruct pre as [|p pre]; cbn in Heq; inversion Heq; subst;
      [discriminate Hmv | ].
    destruct pre as [|p' pre]; cbn in *; inversion H1; subst;
      [discriminate Hmv | ].
    destruct pre as [|p'' pre]; cbn in *; inversion H2; subst.
    + split; [reflexivity | exists folder; cbn; auto].
    + destruct pre; discriminate.
Qed.

End TrashFacts.

(* ================================================================== *)
(** ** Theorems: the message index *)

Module IndexFacts.

(** Removal by unique id cuts out the first entry that carries it and
    nothing else. *)
Lemma emails_remove_present uid (l : list Email) :
  In uid (map UID l) ->
  exists before target rest,
    l = before ++ target :: rest
    /\ UID target = uid
    /\ (forall x, In x before -> UID x <> uid)
    /\ emails_remove uid l = before ++ rest.
Proof.
  induction l as [|e l IH]; cbn; intros Hin.
  - contradiction.
  - destruct (Z.eqb_spec (UID e) uid) as [Heq|Hne].
    + exists [], e, l. cbn. repeat split; auto; intros x [].
    + destruct Hin as [Hin|Hin]; [contradiction | ].
      destruct (IH Hin) as (before & target & rest & Hl & Hu & Hb & Hr).
      exists (e :: before), target, rest. cbn.
      rewrite Hl at 1. rewrite Hr. repeat split; auto.
      intros x [Hx|Hx]; [subst x; exact Hne | apply Hb; exact Hx].
Qed.

Lemma emails_remove_absent uid (l : list Email) :
  ~ In uid (map UID l) -> emails_remove uid l = l.
Proof.
  induction l as [|e l IH]; cbn; intros Hnot.
  - reflexivity.
  - destruct (Z.eqb_spec (UID e) uid) as [Heq|Hne].
    + exfalso. apply Hnot. left. exact Heq.
    + f_equal. apply IH. intros Hin. apply Hnot. right. exact Hin.
Qed.

Lemma emails_remove_length uid (l : list Email) :
  In uid (map UID l) ->
  S (List.length (emails_remove uid l)) = List.length l.
Proof.
  intros Hin.
  destruct (emails_remove_present uid l Hin)
    as (before & target & rest & Hl & _ & _ & Hr).
  rewrite Hr, Hl. repeat rewrite length_app. cbn. lia.
Qed.

Lemma emails_set_body_present uid body before target rest :
  UID target = uid ->
  (forall x, In x before -> UID x <> uid) ->
  emails_set_body uid body (before ++ target :: rest)
  = before ++ with_body_of body target :: rest.
Proof.
  intros Hu. induction before as [|e before IH]; cbn; intros Hb.
  - rewrite Hu, Z.eqb_refl. reflexivity.
  - destruct (Z.eqb_spec (UID e) uid) as [Heq|Hne].
    + exfalso. apply (Hb e); auto.
    + f_equal. apply IH. intros x Hx. apply Hb. right. exact Hx.
Qed.

Lemma emails_set_body_absent uid body (l : list Email) :
  ~ In uid (map UID l) -> emails_set_body uid body l = l.
Proof.
  induction l as [|e l IH]; cbn; intros Hnot.
  - reflexivity.
  - destruct (Z.eqb_spec (UID e) uid) as [Heq|Hne].
    + exfalso. apply Hnot. left. exact Heq.
    + f_equal. apply IH. intros Hin. apply Hnot. right. exact Hin.
Qed.

End IndexFacts.

(* ================================================================== *)
(** ** Theorems: the state machine *)

Module BrowserFacts.
Import IntFacts IndexFacts.

Section Machine.
Variable C : Type.
Variable imap : ImapOps C.
Variable tk : Toolkit.

Implicit Types a : App C tk.

(** The widgets at the end of [Update] only touch themselves. *)
Lemma Update_widgets_frame (m : Msg (WidgetMsg tk)) a :
  let a' := fst (Update_widgets m a) in
  emails a' = emails a
  /\ totalMessages a' = totalMessages a
  /\ hasMore a' = hasMore a
  /\ state a' = state a
  /\ emailToDelete a' = emailToDelete a
  /\ deletingEmail a' = deletingEmail a
  /\ err a' = err a
  /\ deleteConfirmIndex a' = deleteConfirmIndex a.
Proof.
  unfold Update_widgets.
  destruct (state a) eqn:Hs.
  - destruct (list_Update tk m (list_ a)); cbn. rewrite Hs. tauto.
  - destruct (viewport_Update tk m (viewport a)); cbn. rewrite Hs. tauto.
  - cbn. rewrite Hs. tauto.
Qed.

Lemma Update_widgets_cmd (m : Msg (WidgetMsg tk)) a :
  snd (Update_widgets m a) = CmdNil
  \/ exists w, snd (Update_widgets m a) = CmdWidget w.
Proof.
  unfold Update_widgets.
  destruct (state a).
  - destruct (list_Update tk m (list_ a)) as [l [w|]]; cbn; eauto.
  - destruct (viewport_Update tk m (viewport a)) as [v [w|]]; cbn; eauto.
  - cbn. auto.
Qed.


(** C8.  A body-loaded completion for a unique id writes the four
    body fields of the first entry of the index with that unique id,
    and nothing else of the index: the entry keeps its unique id,
    subject, sender, recipient, date and seen flag, every other entry
    is unchanged, and so are the total and the more-available
    flag. *)
Theorem body_loaded_frame a uid body before target rest :
  emails a = before ++ target :: rest ->
  UID target = uid ->
  (forall x, In x before -> UID x <> uid) ->
  let a' := fst (Update imap (emailBodyLoadedMsg uid body) a) in
  exists target',
    emails a' = before ++ target' :: rest
    /\ UID target' = UID target
    /\ Subject target' = Subject target
    /\ From target' = From target
    /\ To target' = To target
    /\ Date target' = Date target
    /\ Seen target' = Seen target
    /\ Body target' = Body body
    /\ HTMLBody target' = HTMLBody body
    /\ TextBody target' = TextBody body
    /\ ContentType target' = ContentType body
    /\ totalMessages a' = totalMessages a
    /\ hasMore a' = hasMore a.
Proof.
  intros Hl Hu Hb a'. exists (with_body_of body target).
  assert (Hem : emails a' = before ++ with_body_of body target :: rest
                /\ totalMessages a' = totalMessages a
                /\ hasMore a' = hasMore a).
  { subst a'. unfold Update. cbv zeta. cbn [fst snd].
    match goal with
    | |- context [Update_widgets ?m ?x] =>
        destruct (Update_widgets_frame m x)
          as (He & Ht & Hh & _)
    end.
    rewrite He, Ht, Hh.
    unfold Update_emailBodyLoaded. cbv zeta.
    repeat match goal with
           | |- context [if ?b then _ else _] => destruct b
           | |- context [match nth_error ?l ?i with _ => _ end] =>
               destruct (nth_error l i)
           end;
      cbn; rewrite Hl; rewrite emails_set_body_present by assumption;
      auto. }
  destruct Hem as (He & Ht & Hh).
  cbn. repeat split; assumption.
Qed.

(** X19.  A body-loaded completion for a unique id that the index does
    not hold (the message was deleted or the index replaced while the
    body was being fetched) leaves the index as it was. *)
Lemma body_loaded_absent a uid body :
  ~ In uid (map UID (emails a)) ->
  emails (fst (Update imap (emailBodyLoadedMsg uid body) a)) = emails a.
Proof.
  intros Hnot. unfold Update. cbv zeta. cbn [fst snd].
  match goal with
  | |- context [Update_widgets ?m ?x] =>
      destruct (Update_widgets_frame m x) as (He & _)
  end.
  rewrite He. unfold Update_emailBodyLoaded. cbv zeta.
  repeat match goal with
         | |- context [if ?b then _ else _] => destruct b
         | |- context [match nth_error ?l ?i with _ => _ end] =>
             destruct (nth_error l i)
         end;
    cbn; apply emails_set_body_absent; assumption.
Qed.

(** C7, as amended.  The test for a cached body is that the display
    body is not empty.  Pressing enter in the list state on a message
    whose display body is not empty opens the message and returns no
    body-fetch command (the command is nil or one of the viewport's
    own); on a message whose display body is empty, whether its body
    was never fetched or was fetched and decoded to nothing, it opens
    the message and returns exactly the one command that fetches the
    body of that unique id. *)
Theorem select_fetches_body_when_absent a selectedEmail :
  state a = listView ->
  (list_Index tk (list_ a) < List.length (list_Items tk (list_ a)))%nat ->
  list_SelectedItem tk (list_ a) <> Some ItemLoadMore ->
  nth_error (emails a) (list_Index tk (list_ a)) = Some selectedEmail ->
  let a' := fst (Update imap (KeyMsg "enter") a) in
  let c := snd (Update imap (KeyMsg "enter") a) in
  state a' = emailView
  /\ (is_empty (Body selectedEmail) = false ->
      (forall uid, c <> CmdLoadEmailBody uid)
      /\ (c = CmdNil \/ exists w, c = CmdWidget w))
  /\ (is_empty (Body selectedEmail) = true ->
      c = CmdLoadEmailBody (UID selectedEmail)).
Proof.
  intros Hs Hidx Hsel Hnth a' c.
  assert (Henter :
            Update_key_enter a
            = (let a1 := set_state emailView a in
               let a2 :=
                 set_viewport
                   (viewport_SetContent tk
                      (formatEmailForView tk selectedEmail) (viewport a1))
                   a1 in
               if is_empty (Body selectedEmail)
               then (a2, Some (CmdLoadEmailBody (UID selectedEmail)))
               else (a2, None))).
  { unfold Update_key_enter. rewrite Hs. cbn [appState_eqb andb].
    apply Nat.ltb_lt in Hidx. rewrite Hidx.
    destruct (list_SelectedItem tk (list_ a)) as [[e|]|];
      try (exfalso; apply Hsel; reflexivity);
      rewrite Hnth; reflexivity. }
  subst a' c. unfold Update. rewrite Hs. cbn [appState_eqb].
  unfold Update_key.
  change (key_in "enter" ["ctrl+c"; "q"]) with false.
  change (key_in "enter" ["enter"]) with true.
  cbv iota. rewrite Henter. cbv zeta.
  destruct (is_empty (Body selectedEmail)) eqn:Hbody.
  - cbn. split; [reflexivity | ].
    split; [intros Hf; discriminate Hf | intros _; reflexivity].
  - match goal with
    | |- context [Update_widgets ?m ?x] =>
        destruct (Update_widgets_frame m x) as (_ & _ & _ & Hst & _);
        pose proof (Update_widgets_cmd m x) as Hcmd
    end.
    cbn [fst snd] in *. split; [rewrite Hst; reflexivity | ].
    split; [ | intros Hf; discriminate Hf].
    intros _. split; [ | exact Hcmd].
    intros uid Heq. rewrite Heq in Hcmd.
    destruct Hcmd as [Hc|[w Hc]]; discriminate Hc.
Qed.

(** *** The confirmation dialog *)

(** With the cursor on [no], enter closes the dialog: back to the
    list, no command, no snapshot. *)
Lemma confirm_no a :
  state a = deleteConfirmView ->
  deleteConfirmIndex a <> 1 ->
  let a' := fst (Update imap (KeyMsg "enter") a) in
  state a' = listView
  /\ emailToDelete a' = None
  /\ showDeleteConfirm a' = false
  /\ deletingEmail a' = deletingEmail a
  /\ emails a' = emails a
  /\ snd (Update imap (KeyMsg "enter") a) = CmdNil.
Proof.
  intros Hs Hidx. unfold Update. rewrite Hs. cbn [appState_eqb].
  unfold Update_key_confirm.
  change (key_in "enter" ["left"; "h"; "right"; "l"]) with false.
  change (key_in "enter" ["enter"]) with true.
  cbv iota.
  destruct (Z.eqb_spec (deleteConfirmIndex a) 1) as [Heq|Hne];
    [contradiction | ].
  cbn. repeat split; reflexivity.
Qed.

(** With the cursor on [yes], enter returns the one command that
    deletes the snapshot's unique id and sets the deleting flag; the
    view stays in the dialog. *)
Lemma confirm_yes a target :
  state a = deleteConfirmView ->
  deleteConfirmIndex a = 1 ->
  emailToDelete a = Some target ->
  Update imap (KeyMsg "enter") a
  = (set_deletingEmail true a, CmdDeleteEmail (UID target)).
Proof.
  intros Hs Hidx Ht. unfold Update. rewrite Hs. cbn [appState_eqb].
  unfold Update_key_confirm.
  change (key_in "enter" ["left"; "h"; "right"; "l"]) with false.
  change (key_in "enter" ["enter"]) with true.
  cbv iota. rewrite Hidx, Ht. reflexivity.
Qed.

(** The completion of a delete clears the deleting flag and leaves
    the dialog. *)
Lemma delete_completion_ends_deleting a uid success message :
  let a' := fst (Update imap (emailDeletedMsg uid success message) a) in
  deletingEmail a' = false /\ state a' = listView.
Proof.
  unfold Update, Update_emailDeleted. cbv zeta.
  destruct success; cbn [fst snd].
  - cbn. auto.
  - match goal with
    | |- context [Update_widgets ?m ?x] =>
        destruct (Update_widgets_frame m x)
          as (_ & _ & _ & Hs & _ & Hd & _)
    end.
    rewrite Hs, Hd. cbn. auto.
Qed.

(** While the deleting flag is set the dialog still listens to the
    keyboard: a second enter returns a second delete command for the
    same unique id. *)
Lemma deleting_accepts_enter a target :
  state a = deleteConfirmView ->
  deleteConfirmIndex a = 1 ->
  emailToDelete a = Some target ->
  let a1 := fst (Update imap (KeyMsg "enter") a) in
  deletingEmail a1 = true
  /\ snd (Update imap (KeyMsg "enter") a1) = CmdDeleteEmail (UID target).
Proof.
  intros Hs Hidx Ht a1. subst a1.
  rewrite (confirm_yes a Hs Hidx Ht). cbn [fst].
  split; [reflexivity | ].
  rewrite (confirm_yes (set_deletingEmail true a) (target := target));
    auto.
Qed.

(** *** The snapshot of the dialog *)

Ltac case_split :=
  repeat match goal with
         | |- context [if ?b then _ else _] => destruct b eqn:?
         | |- context [match nth_error ?l ?i with _ => _ end] =>
             destruct (nth_error l i) eqn:?
         | |- context [match list_SelectedItem ?t ?l with _ => _ end] =>
             destruct (list_SelectedItem t l) as [[?|]|] eqn:?
         | |- context [match emailToDelete ?x with _ => _ end] =>
             destruct (emailToDelete x) eqn:?
         | |- context [match client ?x with _ => _ end] =>
             destruct (client x) eqn:?
         end.

(** What a message does to the view state and the snapshot: it keeps
    both, or leaves the dialog, or enters it with a snapshot. *)
Lemma Update_state_target (m : Msg (WidgetMsg tk)) a :
  let a' := fst (Update imap m a) in
  (state a' = state a /\ emailToDelete a' = emailToDelete a)
  \/ state a' <> deleteConfirmView
  \/ (state a' = deleteConfirmView /\ emailToDelete a' <> None).
Proof.
  unfold Update.
  destruct m as [w h|loaded total more|uid body|uid ok message| |e|key|w];
    cbv zeta.
  - match goal with
    | |- context [Update_widgets ?m ?x] =>
        destruct (Update_widgets_frame m x) as (_ & _ & _ & Hs & Ht & _)
    end.
    cbn [fst snd] in *. rewrite Hs, Ht. left.
    unfold Update_WindowSize. case_split; cbn; auto.
  - match goal with
    | |- context [Update_widgets ?m ?x] =>
        destruct (Update_widgets_frame m x) as (_ & _ & _ & Hs & Ht & _)
    end.
    cbn [fst snd] in *. rewrite Hs, Ht. left.
    unfold Update_emailsLoaded. case_split; cbn; auto.
  - match goal with
    | |- context [Update_widgets ?m ?x] =>
        destruct (Update_widgets_frame m x) as (_ & _ & _ & Hs & Ht & _)
    end.
    cbn [fst snd] in *. rewrite Hs, Ht. left.
    unfold Update_emailBodyLoaded. cbv zeta. case_split; cbn; auto.
  - right. left.
    destruct (delete_completion_ends_deleting a uid ok message) as (_ & Hs).
    unfold Update in Hs. cbv zeta in Hs. rewrite Hs. discriminate.
  - match goal with
    | |- context [Update_widgets ?m ?x] =>
        destruct (Update_widgets_frame m x) as (_ & _ & _ & Hs & Ht & _)
    end.
    cbn [fst snd] in *. rewrite Hs, Ht. left. cbn. auto.
  - match goal with
    | |- context [Update_widgets ?m ?x] =>
        destruct (Update_widgets_frame m x) as (_ & _ & _ & Hs & Ht & _)
    end.
    cbn [fst snd] in *. rewrite Hs, Ht. left. cbn. auto.
  - destruct (appState_eqb (state a) deleteConfirmView) eqn:Hconfirm.
    + unfold Update_key_confirm. case_split; cbn; auto;
        right; left; discriminate.
    + assert (Hnot : state a <> deleteConfirmView)
        by (intros Heq; rewrite Heq in Hconfirm; discriminate).
      unfold Update_key, Update_key_enter, Update_key_d. cbv zeta.
      case_split; cbn [fst snd];
        try match goal with
          | |- context [Update_widgets ?m ?x] =>
              destruct (Update_widgets_frame m x)
                as (_ & _ & _ & Hs & Ht & _);
              rewrite Hs, Ht
          end;
        cbn;
        try (left; split; reflexivity);
        try (right; left; discriminate);
        try (right; right; split; [reflexivity | discriminate]);
        try (right; left; exact Hnot).
  - match goal with
    | |- context [Update_widgets ?m ?x] =>
        destruct (Update_widgets_frame m x) as (_ & _ & _ & Hs & Ht & _)
    end.
    cbn [fst snd] in *. rewrite Hs, Ht. left. auto.
Qed.

Lemma Update_keeps_confirm_target (m : Msg (WidgetMsg tk)) a :
  confirm_has_target a -> confirm_has_target (fst (Update imap m a)).
Proof.
  unfold confirm_has_target. intros Hinv.
  destruct (Update_state_target m a) as [(Hs & Ht)|[Hn|(Hs & Ht)]].
  - rewrite Hs, Ht. exact Hinv.
  - intros Hc. contradiction.
  - intros _. exact Ht.
Qed.

Variable lib : MimeLib.
Variable sort_Slice : (Email -> Email -> bool) -> list Email -> list Email.

(** A command that runs writes neither the view state nor the
    snapshot. *)
Lemma run_state_target fuel (c : Cmd (WidgetCmd tk)) a a' m :
  run imap lib sort_Slice fuel c a = Some (a', m) ->
  state a' = state a /\ emailToDelete a' = emailToDelete a.
Proof.
  destruct c; cbn [run]; try discriminate.
  - unfold loadEmails.
    destruct (client a) as [c0|].
    + destruct (fetchEmails imap sort_Slice page (emailsPerPage a) c0)
        as [c1 [[loaded total] [e|]]];
        intros H; inversion H; subst; cbn; auto.
    + destruct (connectToServer imap (username a) (password a)
                                (host a) (port a)) as [c0|e].
      * destruct (fetchEmails imap sort_Slice page (emailsPerPage a) c0)
          as [c1 [[loaded total] [e|]]];
          intros H; inversion H; subst; cbn; auto.
      * intros H; inversion H; subst; auto.
  - unfold loadEmailBody.
    destruct (client a) as [c0|]; [ | discriminate].
    destruct (fetchEmailBodyParsed imap lib fuel uid c0)
      as [c1 [[email [e|]]|]];
      intros H; inversion H; subst; cbn; auto.
  - unfold deleteEmail.
    destruct (client a) as [c0|]; [ | discriminate].
    destruct (moveEmailToTrash imap uid c0) as [c1 [ok message]].
    intros H; inversion H; subst; cbn; auto.
  - intros H; inversion H; subst; auto.
Qed.

Lemma reachable_confirm_has_target a :
  reachable imap lib sort_Slice a -> confirm_has_target a.
Proof.
  induction 1 as [u p h port | m a Hr IH | fuel c a a' m Hr IH Hrun].
  - unfold confirm_has_target. cbn. discriminate.
  - apply Update_keeps_confirm_target. exact IH.
  - destruct (run_state_target _ _ _ Hrun) as (Hs & Ht).
    unfold confirm_has_target in *. rewrite Hs, Ht. exact IH.
Qed.

(** The delete key over an empty index, or with the cursor past the
    last loaded message, changes neither the view state nor the
    snapshot. *)
Lemma delete_key_without_message a :
  state a <> deleteConfirmView ->
  emails a = [] \/ list_Index tk (list_ a) = List.length (emails a) ->
  let a' := fst (Update imap (KeyMsg "d") a) in
  state a' = state a /\ emailToDelete a' = emailToDelete a.
Proof.
  intros Hnot Hcase.
  assert (Hd : Update_key_d a = a).
  { unfold Update_key_d. cbv zeta.
    destruct Hcase as [Hempty|Hidx].
    - unfold len_emails. rewrite Hempty. cbn.
      rewrite andb_false_r. reflexivity.
    - rewrite Hidx, Nat.ltb_irrefl. repeat rewrite andb_false_r.
      destruct ((appState_eqb (state a) listView
                 || appState_eqb (state a) emailView)
                && (0 <? len_emails a)); reflexivity. }
  unfold Update.
  assert (Hc : appState_eqb (state a) deleteConfirmView = false)
    by (destruct (state a); [reflexivity | reflexivity | contradiction]).
  rewrite Hc. unfold Update_key.
  change (key_in "d" ["ctrl+c"; "q"]) with false.
  change (key_in "d" ["enter"]) with false.
  change (key_in "d" ["esc"; "backspace"]) with false.
  change (key_in "d" ["d"]) with true.
  cbv iota. rewrite Hd. cbv zeta.
  match goal with
  | |- context [Update_widgets ?m ?x] =>
      destruct (Update_widgets_frame m x) as (_ & _ & _ & Hs & Ht & _)
  end.
  cbn [fst snd] in *. auto.
Qed.

(** C10.  In every state the browser can reach, the confirm-delete
    state comes with a snapshot of the message to delete; and from
    such a state outside the dialog, the delete key pressed over an
    empty index, or with the cursor on the load-more entry (the list
    index equal to the number of loaded messages), does not enter the
    dialog and sets no snapshot. *)
Theorem confirm_delete_has_snapshot a :
  reachable imap lib sort_Slice a ->
  (state a = deleteConfirmView -> emailToDelete a <> None)
  /\ (state a <> deleteConfirmView ->
      emails a = [] \/ list_Index tk (list_ a) = List.length (emails a) ->
      let a' := fst (Update imap (KeyMsg "d") a) in
      state a' <> deleteConfirmView
      /\ state a' = state a
      /\ emailToDelete a' = emailToDelete a).
Proof.
  intros Hr. split.
  - apply reachable_confirm_has_target. exact Hr.
  - intros Hnot Hcase a'.
    destruct (delete_key_without_message a Hnot Hcase) as (Hs & Ht).
    subst a'. rewrite Hs. auto.
Qed.

End Machine.

End BrowserFacts.

(* ================================================================== *)
(** ** Theorems: the decoder and the body pipeline *)

Module DecoderFacts.

Lemma last_cons (A : Type) (l : list A) :
  forall x d : A, last (x :: l) d = last l x.
Proof.
  induction l as [|y l IH]; intros x d.
  - reflexivity.
  - change (last (x :: y :: l) d) with (last (y :: l) d).
    rewrite (IH y d), (IH y x). reflexivity.
Qed.

Section Decoding.
Variable lib : MimeLib.

Lemma classify_part_fields partMediaType partBody email :
  let email' := classify_part partMediaType partBody email in
  HTMLBody email'
  = (if HasPrefix partMediaType "text/html" then partBody
     else HTMLBody email)
  /\ TextBody email'
     = (if negb (HasPrefix partMediaType "text/html")
           && HasPrefix partMediaType "text/plain"
        then partBody else TextBody email)
  /\ ContentType email' = ContentType email
  /\ Body email' = Body email.
Proof.
  unfold classify_part.
  destruct (HasPrefix partMediaType "text/html");
    destruct (HasPrefix partMediaType "text/plain"); cbn; auto.
Qed.

(** When the reader comes to the end of the message, the loop does
    too, and each kind of part is left with its last body. *)
Lemma parseEmailBody_parts_last reader parts :
  parts_until_EOF lib reader parts ->
  forall fuel email,
    (List.length parts < fuel)%nat ->
    exists email',
      parseEmailBody_parts lib fuel reader email = Some email'
      /\ HTMLBody email' = last (html_parts lib parts) (HTMLBody email)
      /\ TextBody email' = last (plain_parts lib parts) (TextBody email)
      /\ ContentType email' = ContentType email
      /\ Body email' = Body email.
Proof.
  induction 1 as [reader reader' Hnext
                 | reader reader' part parts Hnext Hpart Hrest IH];
    intros fuel email Hfuel;
    (destruct fuel as [|fuel]; [cbn in Hfuel; lia | ]);
    cbn [parseEmailBody_parts]; rewrite Hnext.
  - exists email. cbn. auto.
  - assert (Hfuel' : (List.length parts < fuel)%nat)
      by (cbn in Hfuel; lia).
    destruct part as [|e|partContentType [partBody|e]].
    + contradiction.
    + apply IH. exact Hfuel'.
    + destruct (IH fuel
                   (classify_part
                      (fst (fst (mime_ParseMediaType lib partContentType)))
                      partBody email) Hfuel')
        as (email' & Hrun & Hh & Ht & Hc & Hb).
      destruct (classify_part_fields
                  (fst (fst (mime_ParseMediaType lib partContentType)))
                  partBody email) as (Hh' & Ht' & Hc' & Hb').
      exists email'. split; [exact Hrun | ].
      rewrite Hh, Ht, Hc, Hb, Hh', Ht', Hc', Hb'.
      cbn [html_parts plain_parts]. unfold part_type.
      destruct (HasPrefix
                  (fst (fst (mime_ParseMediaType lib partContentType)))
                  "text/html");
        destruct (HasPrefix
                    (fst (fst (mime_ParseMediaType lib partContentType)))
                    "text/plain");
        cbn [negb andb]; repeat rewrite last_cons; auto.
    + apply IH. exact Hfuel'.
Qed.

(** The loop writes neither the merged body nor the content type. *)
Lemma parseEmailBody_parts_frame fuel :
  forall reader email email',
    parseEmailBody_parts lib fuel reader email = Some email' ->
    Body email' = Body email /\ ContentType email' = ContentType email.
Proof.
  induction fuel as [|fuel IH]; intros reader email email' Hrun.
  - discriminate Hrun.
  - cbn [parseEmailBody_parts] in Hrun.
    destruct (NextPart lib reader) as [reader' [|e|ct [body|e]]].
    + inversion Hrun; subst. auto.
    + apply IH in Hrun. exact Hrun.
    + apply IH in Hrun.
      destruct (classify_part_fields
                  (fst (fst (mime_ParseMediaType lib ct))) body email)
        as (_ & _ & Hc & Hb).
      destruct Hrun as (Hb' & Hc'). rewrite Hb', Hc'. auto.
    + apply IH in Hrun. exact Hrun.
Qed.

Lemma merge_body_fields email :
  Body email = "" ->
  let email' := merge_body email in
  Body email' = mergedBody_spec (TextBody email') (HTMLBody email')
  /\ HTMLBody email' = HTMLBody email
  /\ TextBody email' = TextBody email
  /\ ContentType email' = ContentType email.
Proof.
  intros Hb. unfold merge_body, mergedBody_spec.
  destruct (is_empty (TextBody email)) eqn:Ht;
    destruct (is_empty (HTMLBody email)) eqn:Hh;
    cbn; try rewrite Ht; try rewrite Hh; cbn; auto.
Qed.

(** The steps of [parseEmailBody] after the message has been read. *)
Lemma parseEmailBody_unfold fuel rawBody contentType msgBody :
  mail_ReadMessage lib rawBody = Ok (contentType, msgBody) ->
  parseEmailBody lib fuel rawBody
  = let email := set_ContentType (declared_type lib contentType) zeroEmail in
    if HasPrefix (declared_type lib contentType) "multipart/" then
      match
        parseEmailBody_parts lib fuel
          (multipart_NewReader lib msgBody
             (declared_boundary lib contentType)) email
      with
      | None => None
      | Some email => Some (merge_body email, None)
      end
    else
      match io_ReadAll lib msgBody with
      | Err err => Some (email, Some err)
      | Ok body =>
          Some (merge_body
                  (if HasPrefix (declared_type lib contentType) "text/html"
                   then set_HTMLBody body email
                   else set_TextBody body email), None)
      end.
Proof.
  intros Hread. unfold parseEmailBody, declared_type, declared_boundary.
  rewrite Hread.
  destruct (mime_ParseMediaType lib contentType) as [[mt params] [e|]];
    reflexivity.
Qed.

(** C4.  For a message that reads: when its declared type is a
    multipart container and the reader comes to the end of the parts,
    the decoder returns, each part having been classed as HTML or
    plain text by the type it declares itself, with the HTML part and
    the plain-text part equal to the body of the last part of that
    kind (one part's body, never several joined together); when the
    declared type is not multipart, the whole body is the HTML part
    if the type is HTML and the plain-text part otherwise, and the
    other part is empty; and in every case the merged body is the
    plain-text part if that is not empty, else the HTML part if that
    is not empty, else empty. *)
Theorem parseEmailBody_decodes rawBody contentType msgBody :
  mail_ReadMessage lib rawBody = Ok (contentType, msgBody) ->
  let mediaType := declared_type lib contentType in
  (HasPrefix mediaType "multipart/" = true ->
   forall parts,
     parts_until_EOF lib
       (multipart_NewReader lib msgBody (declared_boundary lib contentType))
       parts ->
     forall fuel, (List.length parts < fuel)%nat ->
     exists email,
       parseEmailBody lib fuel rawBody = Some (email, None)
       /\ ContentType email = mediaType
       /\ HTMLBody email = last (html_parts lib parts) ""
       /\ TextBody email = last (plain_parts lib parts) "")
  /\ (HasPrefix mediaType "multipart/" = false ->
      forall body, io_ReadAll lib msgBody = Ok body ->
      forall fuel,
      exists email,
        parseEmailBody lib fuel rawBody = Some (email, None)
        /\ ContentType email = mediaType
        /\ (if HasPrefix mediaType "text/html"
            then HTMLBody email = body /\ TextBody email = ""
            else TextBody email = body /\ HTMLBody email = ""))
  /\ (forall fuel email,
         parseEmailBody lib fuel rawBody = Some (email, None) ->
         Body email = mergedBody_spec (TextBody email) (HTMLBody email)).
Proof.
  intros Hread mediaType. subst mediaType.
  split; [ | split].
  - intros Hmulti parts Hparts fuel Hfuel.
    rewrite (@parseEmailBody_unfold fuel _ _ _ Hread). cbv zeta. rewrite Hmulti.
    destruct (@parseEmailBody_parts_last _ _ Hparts fuel
                (set_ContentType (declared_type lib contentType) zeroEmail)
                Hfuel)
      as (email' & Hrun & Hh & Ht & Hc & Hb).
    rewrite Hrun. exists (merge_body email').
    destruct (merge_body_fields email' Hb) as (_ & Hh' & Ht' & Hc').
    cbv zeta in Hh', Ht', Hc'.
    split; [reflexivity | ].
    rewrite Hc', Hh', Ht', Hc, Hh, Ht. cbn. auto.
  - intros Hsingle body Hbody fuel.
    rewrite (@parseEmailBody_unfold fuel _ _ _ Hread). cbv zeta.
    rewrite Hsingle, Hbody.
    eexists. split; [reflexivity | ].
    destruct (HasPrefix (declared_type lib contentType) "text/html").
    + destruct (merge_body_fields
                  (set_HTMLBody body
                     (set_ContentType (declared_type lib contentType)
                                      zeroEmail)) eq_refl)
        as (_ & Hh' & Ht' & Hc').
      cbv zeta in Hh', Ht', Hc'. rewrite Hc', Hh', Ht'. cbn. auto.
    + destruct (merge_body_fields
                  (set_TextBody body
                     (set_ContentType (declared_type lib contentType)
                                      zeroEmail)) eq_refl)
        as (_ & Hh' & Ht' & Hc').
      cbv zeta in Hh', Ht', Hc'. rewrite Hc', Hh', Ht'. cbn. auto.
  - intros fuel email.
    rewrite (@parseEmailBody_unfold fuel _ _ _ Hread). cbv zeta.
    destruct (HasPrefix (declared_type lib contentType) "multipart/").
    + destruct (parseEmailBody_parts lib fuel _ _) as [email'|] eqn:Hrun;
        [ | discriminate].
      intros H. inversion H; subst.
      apply parseEmailBody_parts_frame in Hrun.
      destruct Hrun as (Hb & _).
      apply (merge_body_fields email'). rewrite Hb. reflexivity.
    + destruct (io_ReadAll lib msgBody) as [body|e]; [ | discriminate].
      intros H. inversion H; subst.
      destruct (HasPrefix (declared_type lib contentType) "text/html");
        apply merge_body_fields; reflexivity.
Qed.

(** A decode that fails does so before the part loop: it fails with
    any fuel, and the message it carries is the zero message or the
    zero message with a content type. *)
Lemma parseEmailBody_error_any_fuel fuel rawBody parsed err :
  parseEmailBody lib fuel rawBody = Some (parsed, Some err) ->
  forall fuel', parseEmailBody lib fuel' rawBody = Some (parsed, Some err).
Proof.
  intros Hfail fuel'.
  destruct (mail_ReadMessage lib rawBody) as [[contentType msgBody]|e]
    eqn:Hread.
  - rewrite (@parseEmailBody_unfold fuel _ _ _ Hread) in Hfail.
    rewrite (@parseEmailBody_unfold fuel' _ _ _ Hread).
    cbv zeta in *.
    destruct (HasPrefix (declared_type lib contentType) "multipart/").
    + destruct (parseEmailBody_parts lib fuel _ _); discriminate Hfail.
    + exact Hfail.
  - unfold parseEmailBody in *. rewrite Hread in *. exact Hfail.
Qed.

End Decoding.

Section Fetching.
Variable C : Type.
Variable imap : ImapOps C.
Variable lib : MimeLib.

(** When the decoder returns an error on the raw body that the session
    delivered, the pipeline returns the fallback with a nil error,
    whatever bound is put on the decoder's loop. *)
Lemma fetchEmailBodyParsed_on_decode_error
      fuel uid c c' messages rawBody parsed err :
  UidFetch imap uid c = (c', messages) ->
  first_body messages = Some (Ok rawBody) ->
  parseEmailBody lib fuel rawBody = Some (parsed, Some err) ->
  forall fuel',
    fetchEmailBodyParsed imap lib fuel' uid c
    = (c', Some (fallback_email rawBody, None)).
Proof.
  intros Hfetch Hfirst Hfail fuel'.
  unfold fetchEmailBodyParsed, bind. rewrite Hfetch, Hfirst.
  rewrite (@parseEmailBody_error_any_fuel lib _ _ _ _ Hfail fuel').
  reflexivity.
Qed.

(** C5, as amended.  The session has delivered the raw body.
    - Whenever the decoder returns an error, the pipeline returns, with
      a nil error, the message whose display body is the raw bytes and
      whose content type is "text/plain", whatever bound is put on the
      decoder's loop.  The decoder returns an error when the message
      cannot be read at all, and when the body of a message that is not
      multipart cannot be read.
    - When only the [Content-Type] header fails to parse, the decoder
      does not fail: the message counts as "text/plain", and the pipeline
      returns, with a nil error, the decoded body (what follows the
      headers) as the plain-text part and the display body, not the raw
      bytes.
    - Whenever the pipeline returns, it returns a nil error: no error of
      the decoder reaches the caller. *)
Theorem fetchEmailBodyParsed_falls_back uid c c' messages rawBody :
  UidFetch imap uid c = (c', messages) ->
  first_body messages = Some (Ok rawBody) ->
  (forall fuel parsed err,
      parseEmailBody lib fuel rawBody = Some (parsed, Some err) ->
      forall fuel',
        fetchEmailBodyParsed imap lib fuel' uid c
        = (c', Some (fallback_email rawBody, None)))
  /\ (forall e,
         mail_ReadMessage lib rawBody = Err e ->
         forall fuel,
           fetchEmailBodyParsed imap lib fuel uid c
           = (c', Some (fallback_email rawBody, None)))
  /\ (forall contentType msgBody e,
         mail_ReadMessage lib rawBody = Ok (contentType, msgBody) ->
         HasPrefix (declared_type lib contentType) "multipart/" = false ->
         io_ReadAll lib msgBody = Err e ->
         forall fuel,
           fetchEmailBodyParsed imap lib fuel uid c
           = (c', Some (fallback_email rawBody, None)))
  /\ (forall contentType msgBody e body,
         mail_ReadMessage lib rawBody = Ok (contentType, msgBody) ->
         snd (mime_ParseMediaType lib contentType) = Some e ->
         io_ReadAll lib msgBody = Ok body ->
         forall fuel,
           fetchEmailBodyParsed imap lib fuel uid c
           = (c', Some (mkEmail 0 "" "" "" 0 body "" body "text/plain" false,
                        None)))
  /\ (forall fuel email err,
         snd (fetchEmailBodyParsed imap lib fuel uid c)
         <> Some (email, Some err)).
Proof.
  intros Hfetch Hfirst.
  split; [ | split; [ | split; [ | split]]].
  - intros fuel parsed err Hfail fuel'.
    exact (@fetchEmailBodyParsed_on_decode_error fuel uid c c' messages rawBody
             parsed err Hfetch Hfirst Hfail fuel').
  - intros e Hread fuel.
    apply (@fetchEmailBodyParsed_on_decode_error 0%nat uid c c' messages rawBody
             zeroEmail e Hfetch Hfirst).
    unfold parseEmailBody. rewrite Hread. reflexivity.
  - intros contentType msgBody e Hread Hsingle Hall fuel.
    apply (@fetchEmailBodyParsed_on_decode_error 0%nat uid c c' messages rawBody
             (set_ContentType (declared_type lib contentType) zeroEmail)
             e Hfetch Hfirst).
    rewrite (@parseEmailBody_unfold lib 0%nat _ _ _ Hread). cbv zeta.
    rewrite Hsingle, Hall. reflexivity.
  - intros contentType msgBody e body Hread Hparse Hall fuel.
    unfold fetchEmailBodyParsed, bind. rewrite Hfetch, Hfirst.
    rewrite (@parseEmailBody_unfold lib fuel _ _ _ Hread). cbv zeta.
    assert (Htype : declared_type lib contentType = "text/plain"%string).
    { unfold declared_type. rewrite Hparse. reflexivity. }
    rewrite Htype, Hall.
    change (HasPrefix "text/plain" "multipart/") with false.
    change (HasPrefix "text/plain" "text/html") with false.
    cbv iota. destruct body as [| b body']; reflexivity.
  - intros fuel email err.
    unfold fetchEmailBodyParsed, bind. rewrite Hfetch, Hfirst.
    destruct (parseEmailBody lib fuel rawBody) as [[parsed [e|]]|];
      cbn [ret snd]; intros Heq; discriminate Heq.
Qed.

(** The command that loads a body then yields a body-loaded message
    with the fallback, not an error message. *)
Lemma loadEmailBody_falls_back
      (tk : Toolkit) (a : App C tk) fuel uid c c' messages rawBody parsed err :
  client a = Some c ->
  UidFetch imap uid c = (c', messages) ->
  first_body messages = Some (Ok rawBody) ->
  parseEmailBody lib fuel rawBody = Some (parsed, Some err) ->
  forall fuel',
    loadEmailBody imap lib fuel' uid a
    = Some (set_client (Some c') a,
            emailBodyLoadedMsg uid (fallback_email rawBody)).
Proof.
  intros Hclient Hfetch Hfirst Hfail fuel'.
  unfold loadEmailBody. rewrite Hclient.
  unfold fetchEmailBodyParsed, bind. rewrite Hfetch, Hfirst.
  rewrite (@parseEmailBody_error_any_fuel lib _ _ _ _ Hfail fuel').
  reflexivity.
Qed.

End Fetching.

End DecoderFacts.

(* ================================================================== *)
(** ** Theorems: the more-available flag *)

Module HasMoreFacts.
Import IntFacts IndexFacts BrowserFacts.

Section Flag.
Variable C : Type.
Variable imap : ImapOps C.
Variable tk : Toolkit.

Implicit Types a : App C tk.

(** X17.  A page-load completion, whether it replaces the index or
    appends to it, recomputes the more-available flag from the index it
    leaves: the flag says whether fewer messages are loaded than the
    total that came with the page (for an index of fewer than 2^32
    messages, the count being compared as a [uint32]). *)
Lemma load_sets_hasMore a loaded total more :
  let a' := fst (Update imap (emailsLoadedMsg loaded total more) a) in
  len_emails a' < U32.modulus ->
  hasMore_agrees a'.
Proof.
  unfold hasMore_agrees, Update. cbv zeta. cbn [fst snd].
  match goal with
  | |- context [Update_widgets ?m ?x] =>
      destruct (Update_widgets_frame m x) as (He & Ht & Hh & _)
  end.
  unfold len_emails in *. rewrite He, Ht, Hh.
  unfold Update_emailsLoaded. cbv zeta.
  destruct more; cbn; unfold len_emails; cbn;
    unfold Pagination.more_available, GoInt.to_uint32;
    intros Hlen; rewrite u32_wrap_small; try reflexivity;
    unfold U32.in_range; change U32.modulus with 4294967296; lia.
Qed.

(** X18.  A delete completion does not recompute the more-available
    flag.  The flag stays right when it was right before, the unique id
    was in the index and the total was positive: both sides of the
    comparison go down by one. *)
Lemma delete_keeps_hasMore a uid message :
  hasMore_agrees a ->
  In uid (map UID (emails a)) ->
  U32.in_range (totalMessages a) ->
  0 < totalMessages a ->
  hasMore_agrees (fst (Update imap (emailDeletedMsg uid true message) a)).
Proof.
  unfold hasMore_agrees. intros Hagree Hin Hrange Hpos. cbn.
  unfold len_emails in *. cbn.
  rewrite Hagree. rewrite u32_dec_pos by assumption.
  pose proof (emails_remove_length uid (emails a) Hin) as Hlen.
  destruct (Z.ltb_spec (Z.of_nat (List.length (emails a)))
                       (totalMessages a));
    destruct (Z.ltb_spec
                (Z.of_nat (List.length (emails_remove uid (emails a))))
                (totalMessages a - 1));
    try reflexivity; lia.
Qed.

(** The flag is left as it was by a delete completion, whatever
    becomes of the index and the total. *)
Lemma delete_leaves_hasMore a uid success message :
  hasMore (fst (Update imap (emailDeletedMsg uid success message) a))
  = hasMore a.
Proof.
  unfold Update, Update_emailDeleted. cbv zeta.
  destruct success; cbn [fst snd].
  - reflexivity.
  - match goal with
    | |- context [Update_widgets ?m ?x] =>
        destruct (Update_widgets_frame m x) as (_ & _ & Hh & _)
    end.
    rewrite Hh. reflexivity.
Qed.

End Flag.

Import Testbed.

(** C3 (evaluation at the failing input).  A mailbox of 51 messages,
    50 of them loaded.  The user confirms the deletion of the newest
    message and presses enter a second time before the first delete
    completes; [Update] returns a delete command for each press.  Both
    commands succeed on the server.  The first completion removes the
    message and lowers the total to 50; the second finds no such unique
    id in the index and lowers the total to 49 all the same.  The flag
    is not recomputed: it still says that more is available, with 49
    messages loaded out of 49. *)
Theorem hasMore_stale_after_delete :
  issued confirm_pressed_twice app0
  = [CmdNil; CmdNil; CmdNil; CmdDeleteEmail 51; CmdDeleteEmail 51;
     CmdTickClearSuccess; CmdTickClearSuccess]
  /\ exists a,
      happen_all confirm_pressed_twice app0 = Some a
      /\ len_emails a = 49
      /\ totalMessages a = 49
      /\ hasMore a = true
      /\ ~ hasMore_agrees a.
Proof.
  split; [vm_compute; reflexivity | ].
  assert (Hsum :
            option_map (fun a => (len_emails a, totalMessages a, hasMore a))
                       (happen_all confirm_pressed_twice app0)
            = Some (49, 49, true))
    by (vm_compute; reflexivity).
  destruct (happen_all confirm_pressed_twice app0) as [a|];
    [ | discriminate Hsum].
  cbn [option_map] in Hsum. injection Hsum as Hl Ht Hh.
  exists a. split; [reflexivity | ].
  split; [exact Hl | ]. split; [exact Ht | ]. split; [exact Hh | ].
  unfold hasMore_agrees. rewrite Hl, Ht, Hh. discriminate.
Qed.

(** C9 (evaluation at the failing input).  After enter on [yes] the
    browser is in the dialog with the deleting flag set, and it still
    obeys the keyboard: enter returns a second delete command for the
    same unique id, and escape goes back to the list while the delete
    is in flight and the flag is still set. *)
Theorem deleting_substate_obeys_keys :
  exists a,
    happen_all confirm_pressed app0 = Some a
    /\ state a = deleteConfirmView
    /\ deletingEmail a = true
    /\ snd (update0 (KeyMsg "enter") a) = CmdDeleteEmail 51
    /\ state (fst (update0 (KeyMsg "esc") a)) = listView
    /\ deletingEmail (fst (update0 (KeyMsg "esc") a)) = true.
Proof.
  assert (Hsum :
            option_map
              (fun a =>
                 (state a, deletingEmail a,
                  snd (update0 (KeyMsg "enter") a),
                  state (fst (update0 (KeyMsg "esc") a)),
                  deletingEmail (fst (update0 (KeyMsg "esc") a))))
              (happen_all confirm_pressed app0)
            = Some (deleteConfirmView, true, CmdDeleteEmail 51,
                    listView, true))
    by (vm_compute; reflexivity).
  destruct (happen_all confirm_pressed app0) as [a|];
    [ | discriminate Hsum].
  cbn [option_map] in Hsum. injection Hsum as H1 H2 H3 H4 H5.
  exists a. repeat split; assumption.
Qed.

End HasMoreFacts.

(* ================================================================== *)
(** ** The theorems at concrete inputs *)

Module Runs.
Import Testbed.


(** The body of unique id 2 arrives in the index 3, 2, 1. *)
Lemma body_loaded_frame_witness :
  emails three_loaded = [header 3] ++ header 2 :: [header 1]
  /\ exists target',
      emails (fst (update0 (emailBodyLoadedMsg 2 cached) three_loaded))
      = [header 3] ++ target' :: [header 1]
      /\ Subject target' = "Message 2"
      /\ Body target' = "Hello".
Proof.
  split; [reflexivity | ].
  assert (Hbefore : forall x, In x [header 3] -> UID x <> 2).
  { intros x [Hx|[]]. subst x. cbn. discriminate. }
  destruct (BrowserFacts.body_loaded_frame
              (serverOps (okServer 51)) three_loaded cached
              [header 3] (header 2) [header 1]
              eq_refl eq_refl Hbefore)
    as (target' & He & _ & Hs & _ & _ & _ & _ & Hb & _).
  exists target'. repeat split; assumption.
Defined.

(** Enter on the first entry of [two_loaded], whose body is cached. *)
Lemma select_fetches_body_when_absent_witness :
  state two_loaded = listView
  /\ nth_error (emails two_loaded) (list_Index plainToolkit (list_ two_loaded))
     = Some cached
  /\ state (fst (update0 (KeyMsg "enter") two_loaded)) = emailView
  /\ forall uid,
      snd (update0 (KeyMsg "enter") two_loaded) <> CmdLoadEmailBody uid.
Proof.
  split; [reflexivity | ]. split; [reflexivity | ].
  assert (Hidx : (list_Index plainToolkit (list_ two_loaded)
                  < List.length (list_Items plainToolkit (list_ two_loaded)))%nat)
    by (cbn; lia).
  assert (Hsel : list_SelectedItem plainToolkit (list_ two_loaded)
                 <> Some ItemLoadMore)
    by (cbn; discriminate).
  destruct (BrowserFacts.select_fetches_body_when_absent
              (serverOps (okServer 51)) two_loaded
              eq_refl Hidx Hsel eq_refl)
    as (Hstate & Hcached & _).
  split; [exact Hstate | ].
  apply Hcached. reflexivity.
Defined.

(** Enter on the second entry, whose body is absent, fetches it. *)
Example select_absent_body_fetches :
  snd (update0 (KeyMsg "enter") (after [KeyMsg "down"] two_loaded))
  = CmdLoadEmailBody 8.
Proof. reflexivity. Qed.

(** The dialog opened on the first entry of the index 3, 2, 1. *)
Lemma confirm_delete_has_snapshot_witness :
  reachable (serverOps (okServer 51)) sampleMime sort_by
            (after [KeyMsg "d"] three_loaded)
  /\ state (after [KeyMsg "d"] three_loaded) = deleteConfirmView
  /\ emailToDelete (after [KeyMsg "d"] three_loaded) <> None.
Proof.
  assert (Hr : reachable (serverOps (okServer 51)) sampleMime sort_by
                         (after [KeyMsg "d"] three_loaded)).
  { apply reachable_Update. apply reachable_Update.
    apply reachable_NewApp. }
  split; [exact Hr | ]. split; [reflexivity | ].
  apply (proj1 (BrowserFacts.confirm_delete_has_snapshot Hr)).
  reflexivity.
Defined.

(** The delete key in the browser as it starts, with nothing loaded. *)
Example delete_key_on_empty_index :
  state (fst (update0 (KeyMsg "d") app0)) = listView
  /\ emailToDelete (fst (update0 (KeyMsg "d") app0)) = None.
Proof. split; reflexivity. Qed.

(** A multipart message with a plain-text part and an HTML part. *)
Lemma parseEmailBody_decodes_witness :
  mail_ReadMessage sampleMime multipartRaw
  = Ok ("multipart/alternative",
        (Ok "", [NP_Part "text/plain" (Ok "Hello");
                 NP_Part "text/html" (Ok "<p>Hello</p>")]))
  /\ exists email,
      parseEmailBody sampleMime 3 multipartRaw = Some (email, None)
      /\ TextBody email = "Hello"
      /\ HTMLBody email = "<p>Hello</p>"
      /\ Body email = "Hello".
Proof.
  split; [reflexivity | ].
  destruct (@DecoderFacts.parseEmailBody_decodes
              sampleMime multipartRaw _ _ eq_refl)
    as (Hmulti & _ & Hmerged).
  assert (Hparts :
            parts_until_EOF sampleMime
              (multipart_NewReader sampleMime
                 (Ok "", [NP_Part "text/plain" (Ok "Hello");
                          NP_Part "text/html" (Ok "<p>Hello</p>")])
                 (declared_boundary sampleMime "multipart/alternative"))
              [NP_Part "text/plain" (Ok "Hello");
               NP_Part "text/html" (Ok "<p>Hello</p>")]).
  { eapply parts_next; [reflexivity | discriminate | ].
    eapply parts_next; [reflexivity | discriminate | ].
    eapply parts_end. reflexivity. }
  assert (Hfuel : (List.length [NP_Part "text/plain" (Ok "Hello");
                                NP_Part "text/html" (Ok "<p>Hello</p>")]
                   < 3)%nat) by (cbn; lia).
  destruct (Hmulti eq_refl _ Hparts 3%nat Hfuel)
    as (email & Hrun & _ & Hh & Ht).
  exists email. split; [exact Hrun | ].
  split; [exact Ht | ]. split; [exact Hh | ].
  rewrite (Hmerged 3%nat email Hrun), Ht, Hh. reflexivity.
Defined.

(** A message declared [text/html] that is not multipart. *)
Example parseEmailBody_html :
  parseEmailBody sampleMime 0 htmlRaw
  = Some (mkEmail 0 "" "" "" 0 "<b>Hi</b>" "<b>Hi</b>" "" "text/html" false,
          None).
Proof. reflexivity. Qed.

(** With too little fuel the part loop is still running. *)
Example parseEmailBody_out_of_fuel :
  parseEmailBody sampleMime 2 multipartRaw = None.
Proof. reflexivity. Qed.

(** The body of unique id 2 does not parse. *)
Lemma fetchEmailBodyParsed_falls_back_witness :
  UidFetch (serverOps (okServer 3)) 2 (okServer 3) = (okServer 3, [stored 2])
  /\ first_body [stored 2] = Some (Ok "garbage")
  /\ mail_ReadMessage sampleMime "garbage" = Err "mail: malformed header"
  /\ fetchEmailBodyParsed (serverOps (okServer 3)) sampleMime 5 2 (okServer 3)
     = (okServer 3,
        Some (mkEmail 0 "" "" "" 0 "garbage" "" "" "text/plain" false, None)).
Proof.
  split; [reflexivity | ]. split; [reflexivity | ].
  split; [reflexivity | ].
  destruct (@DecoderFacts.fetchEmailBodyParsed_falls_back
              Server (serverOps (okServer 3)) sampleMime
              2 (okServer 3) (okServer 3) [stored 2] "garbage"
              eq_refl eq_refl)
    as (_ & Hunreadable & _).
  exact (Hunreadable "mail: malformed header" eq_refl 5%nat).
Defined.

(** The message moved to the first trash folder that exists. *)
Example moveEmailToTrash_moves :
  snd (moveEmailToTrash (traced (serverOps (okServer 1))) 1 (okServer 1, []))
  = (true, "Email moved to Trash")
  /\ snd (fst (moveEmailToTrash (traced (serverOps (okServer 1))) 1
                                (okServer 1, [])))
     = [(CallSelect "Trash", None); (CallSelect "INBOX", None);
        (CallUidMove 1 "Trash", None)].
Proof. split; reflexivity. Qed.

(** No trash folder: every candidate is probed, then flag and
    expunge. *)
Example moveEmailToTrash_falls_back :
  snd (moveEmailToTrash (traced (serverOps (bareServer 1))) 1
                        (bareServer 1, []))
  = (true, "Email deleted permanently")
  /\ map fst (snd (fst (moveEmailToTrash (traced (serverOps (bareServer 1))) 1
                                         (bareServer 1, []))))
     = [CallSelect "Trash"; CallSelect "INBOX.Trash";
        CallSelect "Deleted Messages"; CallSelect "INBOX.Deleted Messages";
        CallSelect "INBOX"; CallUidStore 1 "+FLAGS.SILENT" ["\Deleted"];
        CallExpunge].
Proof. split; reflexivity. Qed.

End Runs.

(* ================================================================== *)
(** ** Theorems: more on pages and headers *)

Module PageFacts.
Import Pagination IntFacts.

(** The two ends of the range of a page that lies wholly inside the
    mailbox. *)
Lemma fetchEmails_range_inside total page perPage :
  U32.in_range total -> 0 < perPage -> 1 <= page ->
  page * perPage <= total ->
  fetchEmails_range total page perPage
  = (total - page * perPage + 1, total - (page - 1) * perPage).
Proof.
  intros Ht Hp Hn Hfit.
  assert (Hm : 2 ^ 32 = 4294967296) by reflexivity.
  unfold U32.in_range, U32.modulus in Ht.
  assert (Hpp : perPage <= total) by nia.
  assert (Hprod : 0 <= (page - 1) * perPage <= total - perPage) by nia.
  unfold fetchEmails_range.
  unfold GoInt.sub, GoInt.mul, GoInt.to_uint32.
  rewrite (goint_wrap_small (x := page - 1))
    by (unfold GoInt.in_range, GoInt.half; nia).
  rewrite (goint_wrap_small (x := (page - 1) * perPage))
    by (unfold GoInt.in_range, GoInt.half; lia).
  rewrite (u32_wrap_small (x := (page - 1) * perPage))
    by (unfold U32.in_range, U32.modulus; lia).
  rewrite (u32_wrap_small (x := perPage))
    by (unfold U32.in_range, U32.modulus; lia).
  unfold U32.sub, U32.add.
  rewrite (u32_wrap_small (x := total - (page - 1) * perPage))
    by (unfold U32.in_range, U32.modulus; lia).
  rewrite (u32_wrap_small (x := total - (page - 1) * perPage - perPage))
    by (unfold U32.in_range, U32.modulus; lia).
  rewrite (u32_wrap_small (x := total - (page - 1) * perPage - perPage + 1))
    by (unfold U32.in_range, U32.modulus; lia).
  destruct (Z.ltb_spec (total - (page - 1) * perPage - perPage + 1) 1);
    destruct (Z.gtb_spec (total - (page - 1) * perPage) total);
    f_equal; lia.
Qed.

(** X2.  Pages that lie wholly inside the mailbox tile it from the
    newest message down: the first page ends at the newest message, each
    such page (the last of them too) holds exactly [perPage] sequence
    numbers between 1 and the total, it ends right below the start of the
    page before it, and when the next page lies wholly inside as well,
    that one ends right below the start of this one. *)
Theorem full_pages_tile total page perPage :
  U32.in_range total -> 0 < perPage -> 1 <= page ->
  page * perPage <= total ->
  snd (fetchEmails_range total 1 perPage) = total
  /\ 1 <= fst (fetchEmails_range total page perPage)
  /\ snd (fetchEmails_range total page perPage) <= total
  /\ snd (fetchEmails_range total page perPage)
     - fst (fetchEmails_range total page perPage) + 1 = perPage
  /\ (1 < page ->
      snd (fetchEmails_range total page perPage) + 1
      = fst (fetchEmails_range total (page - 1) perPage))
  /\ ((page + 1) * perPage <= total ->
      snd (fetchEmails_range total (page + 1) perPage) + 1
      = fst (fetchEmails_range total page perPage)).
Proof.
  intros Ht Hp Hn Hpage.
  assert (H1 : 1 * perPage <= total) by nia.
  rewrite (fetchEmails_range_inside Ht Hp (Z.le_refl 1) H1).
  rewrite (fetchEmails_range_inside Ht Hp Hn Hpage).
  cbn [fst snd].
  split; [lia | ]. split; [lia | ]. split; [nia | ]. split; [lia | ].
  split.
  - intros Hprev.
    assert (Hn' : 1 <= page - 1) by lia.
    assert (Hfit : (page - 1) * perPage <= total) by nia.
    rewrite (fetchEmails_range_inside Ht Hp Hn' Hfit).
    cbn [fst]. lia.
  - intros Hfit.
    assert (Hn' : 1 <= page + 1) by lia.
    rewrite (fetchEmails_range_inside Ht Hp Hn' Hfit).
    cbn [snd]. lia.
Qed.

End PageFacts.

Module HeaderFacts.

(** The headers made from fetched messages never have an empty subject
    (the placeholder stands in for it), and none carries a body. *)
Lemma emails_of_messages_headers (messages : list ImapMessage) (e : Email) :
  In e (emails_of_messages messages) ->
  is_empty (Subject e) = false
  /\ Body e = "" /\ HTMLBody e = "" /\ TextBody e = "" /\ ContentType e = "".
Proof.
  induction messages as [|m rest IH]; cbn [emails_of_messages].
  - intros [].
  - destruct (msg_Envelope m) as [env|]; [ | exact IH].
    intros [He|Hin]; [ | apply IH; exact Hin].
    subst e. cbn.
    destruct (is_empty (env_Subject env)) eqn:Hs; auto.
Qed.

(** X5.  The headers are the fetched messages that have an envelope, in
    the order of arrival, each under its own unique id; a message
    without an envelope is dropped and nothing else is. *)
Theorem emails_of_messages_uids (messages : list ImapMessage) :
  map UID (emails_of_messages messages)
  = map msg_Uid (filter has_envelope messages)
  /\ (List.length (emails_of_messages messages) <= List.length messages)%nat.
Proof.
  induction messages as [|m rest [IHu IHl]]; cbn [emails_of_messages filter].
  - split; [reflexivity | apply Nat.le_refl].
  - unfold has_envelope at 1.
    destruct (msg_Envelope m) as [env|]; cbn [map List.length].
    + split; [cbn [UID]; rewrite IHu; reflexivity | lia].
    + split; [exact IHu | lia].
Qed.

Section Fetch.
Variable C : Type.
Variable imap : ImapOps C.
Variable sort_Slice : (Email -> Email -> bool) -> list Email -> list Email.

(** X6.  [fetchEmails] selects INBOX exactly once and fetches at most
    once.  When the selection fails it returns that error, and when the
    selected mailbox reports 0 messages it returns no message, total 0
    and no error, in both cases without any fetch; otherwise it fetches
    the one range computed from the message count that the selection
    reported, returns what arrived (decoded and sorted) with that count
    as the total, and no error even when nothing arrives. *)
Theorem fetchEmails_exchanges page perPage (c : C) :
  let r := fetchEmails (traced imap) sort_Slice page perPage (c, []) in
  let selected := Select imap "INBOX" c in
  match snd selected with
  | Err e =>
      r = ((fst selected, [(CallSelect "INBOX", Some e)]), ([], 0, Some e))
  | Ok mailbox =>
      if Messages mailbox =? 0 then
        r = ((fst selected, [(CallSelect "INBOX", None)]), ([], 0, None))
      else
        let range :=
          Pagination.fetchEmails_range (Messages mailbox) page perPage in
        let fetched := Fetch imap (fst range) (snd range) (fst selected) in
        r = ((fst fetched,
              [(CallSelect "INBOX", None);
               (CallFetch (fst range) (snd range), None)]),
             (sort_Slice (fun ei ej => Date ej <? Date ei)
                         (emails_of_messages (snd fetched)),
              Messages mailbox, None))
  end.
Proof.
  intros r selected. subst r selected.
  unfold fetchEmails, bind.
  cbn [traced Select Fetch]. unfold record_call. cbn [fst snd app].
  destruct (Select imap "INBOX" c) as [c1 [mailbox|e]]; cbn [outcome fst snd].
  - destruct (Messages mailbox =? 0); [reflexivity | ].
    destruct (Pagination.fetchEmails_range (Messages mailbox) page perPage)
      as [start stop].
    cbv zeta. cbn [fst snd app].
    destruct (Fetch imap start stop c1) as [c2 messages].
    reflexivity.
  - reflexivity.
Qed.

(** X4.  When the sort returns its input rearranged, every header that
    [fetchEmails] returns has a non-empty subject (the placeholder
    "(No Subject)" stands in for an empty one) and carries no body: the
    merged body, the HTML part, the plain-text part and the content type
    are all empty until a body is fetched. *)
Theorem fetchEmails_headers page perPage (c : C) (e : Email) :
  (forall less l, Permutation (sort_Slice less l) l) ->
  In e (fst (fst (snd (fetchEmails imap sort_Slice page perPage c)))) ->
  is_empty (Subject e) = false
  /\ Body e = "" /\ HTMLBody e = "" /\ TextBody e = "" /\ ContentType e = "".
Proof.
  intros Hsort. unfold fetchEmails, bind.
  destruct (Select imap "INBOX" c) as [c1 [mailbox|err]].
  - destruct (Messages mailbox =? 0).
    + cbn. intros [].
    + destruct (Pagination.fetchEmails_range (Messages mailbox) page perPage)
        as [start stop].
      destruct (Fetch imap start stop c1) as [c2 messages].
      cbn [ret fst snd]. intros Hin.
      apply (emails_of_messages_headers messages).
      eapply Permutation_in; [apply Hsort | exact Hin].
  - cbn. intros [].
Qed.

End Fetch.

End HeaderFacts.

(* ================================================================== *)
(** ** Theorems: more on the session pipelines *)

Module PipelineFacts.

Section Bodies.
Variable C : Type.
Variable imap : ImapOps C.
Variable lib : MimeLib.

(** X7.  The errors of the body pipeline.  When the session delivers no
    body that can be read as a stream, the pipeline returns the error
    "could not load email body"; when reading the delivered body fails,
    it returns that read error; and these are the only errors it ever
    returns, each with the zero message: an error of the decoder is never
    passed on. *)
Theorem fetchEmailBodyParsed_errors uid (c c' : C) messages :
  UidFetch imap uid c = (c', messages) ->
  (first_body messages = None ->
   forall fuel,
     fetchEmailBodyParsed imap lib fuel uid c
     = (c', Some (zeroEmail, Some "could not load email body")))
  /\ (forall e, first_body messages = Some (Err e) ->
      forall fuel,
        fetchEmailBodyParsed imap lib fuel uid c
        = (c', Some (zeroEmail, Some e)))
  /\ (forall fuel email err,
         fetchEmailBodyParsed imap lib fuel uid c
         = (c', Some (email, Some err)) ->
         email = zeroEmail
         /\ (first_body messages = Some (Err err)
             \/ (first_body messages = None
                 /\ err = "could not load email body"))).
Proof.
  intros Hfetch. split; [ | split].
  - intros Hnone fuel. unfold fetchEmailBodyParsed, bind.
    rewrite Hfetch, Hnone. reflexivity.
  - intros e Herr fuel. unfold fetchEmailBodyParsed, bind.
    rewrite Hfetch, Herr. reflexivity.
  - intros fuel email err. unfold fetchEmailBodyParsed, bind.
    rewrite Hfetch.
    destruct (first_body messages) as [[rawBody|e]|].
    + destruct (parseEmailBody lib fuel rawBody) as [[parsed [e|]]|];
        unfold ret; intros H; inversion H.
    + unfold ret. intros H. inversion H; subst. auto.
    + unfold ret. intros H. inversion H; subst. auto.
Qed.

(** A reader that fails without moving on keeps the part loop going for
    ever. *)
Lemma parseEmailBody_parts_stuck (reader : PartReader lib) e :
  NextPart lib reader = (reader, NP_Err e) ->
  forall fuel email, parseEmailBody_parts lib fuel reader email = None.
Proof.
  intros Hstuck fuel. induction fuel as [|fuel IH]; intros email.
  - reflexivity.
  - cbn [parseEmailBody_parts]. rewrite Hstuck. apply IH.
Qed.

(** X8.  The part loop of the decoder skips a failed [NextPart] and
    asks again.  For a multipart message whose reader answers every call
    with the same error other than the end of the message (as a reader
    made with an empty boundary does), the decoder never returns,
    whatever bound is put on the loop. *)
Theorem parseEmailBody_hangs_on_failing_reader rawBody contentType msgBody e :
  mail_ReadMessage lib rawBody = Ok (contentType, msgBody) ->
  HasPrefix (declared_type lib contentType) "multipart/" = true ->
  NextPart lib
    (multipart_NewReader lib msgBody (declared_boundary lib contentType))
  = (multipart_NewReader lib msgBody (declared_boundary lib contentType),
     NP_Err e) ->
  forall fuel, parseEmailBody lib fuel rawBody = None.
Proof.
  intros Hread Hmulti Hstuck fuel.
  rewrite (@DecoderFacts.parseEmailBody_unfold lib fuel _ _ _ Hread).
  cbv zeta. rewrite Hmulti.
  rewrite (@parseEmailBody_parts_stuck _ e Hstuck). reflexivity.
Qed.

End Bodies.

(** *** The trash pipeline *)

Lemma last_snoc (A : Type) (l : list A) (x d : A) : last (l ++ [x]) d = x.
Proof.
  induction l as [|y l IH]; [reflexivity | ].
  cbn [app]. destruct (l ++ [x]) eqn:Hl.
  - destruct l; discriminate Hl.
  - exact IH.
Qed.

(** What a run of the candidates asks of the session, and how much. *)
Lemma delete_spec_candidates_calls uid folders tr won :
  delete_spec_candidates uid folders tr won ->
  (forall x, In x tr ->
             is_destructive x = false
             /\ (fst x = CallSelect "INBOX"
                 \/ exists folder,
                     In folder folders
                     /\ (fst x = CallSelect folder
                         \/ fst x = CallUidMove uid folder)))
  /\ (List.length tr <= 3 * List.length folders)%nat.
Proof.
  induction 1 as [| folder rest e tr won H [IHc IHl]
                  | folder rest e tr won H [IHc IHl]
                  | folder rest e tr won H [IHc IHl]
                  | folder rest];
    (split; [ | cbn [List.length] in *; lia]).
  - intros x [].
  - intros x [Hx|Hx].
    + subst x. cbn. split; [reflexivity | ]. right. exists folder. auto.
    + destruct (IHc x Hx) as (Hd & [Hi|(f & Hf & Hcall)]);
        (split; [exact Hd | ]); [left; exact Hi | ].
      right. exists f. cbn. auto.
  - intros x [Hx|[Hx|Hx]].
    + subst x. cbn. split; [reflexivity | ]. right. exists folder. auto.
    + subst x. cbn. auto.
    + destruct (IHc x Hx) as (Hd & [Hi|(f & Hf & Hcall)]);
        (split; [exact Hd | ]); [left; exact Hi | ].
      right. exists f. cbn. auto.
  - intros x [Hx|[Hx|[Hx|Hx]]].
    + subst x. cbn. split; [reflexivity | ]. right. exists folder. auto.
    + subst x. cbn. auto.
    + subst x. cbn. split; [reflexivity | ]. right. exists folder. auto.
    + destruct (IHc x Hx) as (Hd & [Hi|(f & Hf & Hcall)]);
        (split; [exact Hd | ]); [left; exact Hi | ].
      right. exists f. cbn. auto.
  - intros x [Hx|[Hx|[Hx|[]]]]; subst x; cbn;
      (split; [reflexivity | ]); auto;
      right; exists folder; auto.
Qed.

Section Trash.
Variable C : Type.
Variable imap : ImapOps C.
Variable uid : Z.

(** The exchanges of a run are those of the design. *)
Lemma moveEmailToTrash_traced (c : C) :
  exists c' tr res,
    moveEmailToTrash (traced imap) uid (c, []) = ((c', tr), res)
    /\ delete_spec uid tr res.
Proof.
  unfold moveEmailToTrash. unfold bind at 1.
  destruct (TrashFacts.moveEmailToTrash_loop_refines imap uid trashFolders c [])
    as (c1 & tr & won & Hrun & Hspec).
  rewrite Hrun. cbn [app] in *.
  destruct won as [folder|].
  - exists c1, tr, (true, ("Email moved to " ++ folder)%string).
    split; [reflexivity | ].
    apply delete_moved. exact Hspec.
  - destruct (TrashFacts.moveEmailToTrash_fallback_refines imap uid c1 tr)
      as (c2 & tr' & res & Hfb & Hspec').
    exists c2, (tr ++ tr'), res. split.
    + exact Hfb.
    + apply delete_fell_back; assumption.
Qed.

(** X9.  A move that succeeds is final.  Whatever the session answers,
    if any move of the run succeeds then it is the last thing asked of
    the session, the result is success with the message "Email moved to"
    that folder, and the run has neither set a flag nor expunged. *)
Theorem move_success_is_final (c : C) (x : Exchange) :
  let r := moveEmailToTrash (traced imap) uid (c, []) in
  In x (snd (fst r)) ->
  is_move x = true ->
  succeeded x = true ->
  last (snd (fst r)) x = x
  /\ (exists folder,
         In folder trashFolders
         /\ x = (CallUidMove uid folder, None)
         /\ snd r = (true, ("Email moved to " ++ folder)%string))
  /\ (forall y, In y (snd (fst r)) -> is_destructive y = false).
Proof.
  intros r. subst r.
  destruct (moveEmailToTrash_traced c) as (c' & tr & res & Hrun & Hspec).
  rewrite Hrun. cbn [fst snd].
  intros Hin Hmove Hok.
  destruct Hspec as [tr folder Hcand | tr tr' res Hcand Hfb].
  - destruct (in_split _ _ Hin) as (pre & post & Htr).
    destruct (TrashFacts.delete_spec_candidates_short_circuit
                Hcand _ _ _ Htr Hmove Hok)
      as (Hpost & f & Hwon & Hx & Hf).
    inversion Hwon; subst f. subst post.
    split; [rewrite Htr; apply last_snoc | ].
    split; [exists folder; auto | ].
    intros y Hy.
    apply (proj1 (delete_spec_candidates_calls Hcand) y Hy).
  - exfalso. apply in_app_or in Hin. destruct Hin as [Hin|Hin].
    + destruct (in_split _ _ Hin) as (pre & post & Htr).
      destruct (TrashFacts.delete_spec_candidates_short_circuit
                  Hcand _ _ _ Htr Hmove Hok)
        as (_ & f & Hwon & _).
      discriminate Hwon.
    + inversion Hfb; subst; cbn in Hin;
        repeat (destruct Hin as [Hin|Hin];
                [subst x; discriminate Hmove | ]);
        contradiction.
Qed.

(** X10.  What the trash pipeline asks of the session.  Every call is a
    selection of INBOX or of a candidate folder, a move of the given
    unique id to a candidate folder, the deleted flag set on the given
    unique id, or an expunge; there are at most 15 calls; and an expunge
    is only ever the last call, right after the flag was set with
    success. *)
Theorem moveEmailToTrash_calls (c : C) :
  let tr := snd (fst (moveEmailToTrash (traced imap) uid (c, []))) in
  (forall x, In x tr -> allowed_call uid (fst x))
  /\ (List.length tr <= 15)%nat
  /\ (forall o, In (CallExpunge, o) tr ->
                exists pre,
                  tr = pre ++ [(CallUidStore uid "+FLAGS.SILENT" ["\Deleted"],
                                None);
                               (CallExpunge, o)]).
Proof.
  intros tr. subst tr.
  destruct (moveEmailToTrash_traced c) as (c' & tr & res & Hrun & Hspec).
  rewrite Hrun. cbn [fst snd].
  assert (Hcalls :
            forall tr won,
              delete_spec_candidates uid trashFolders tr won ->
              (forall x, In x tr -> allowed_call uid (fst x))
              /\ (List.length tr <= 12)%nat
              /\ (forall o, ~ In (CallExpunge, o) tr)).
  { intros tr0 won Hcand.
    destruct (delete_spec_candidates_calls Hcand) as (Hc & Hl).
    split; [ | split; [exact Hl | ]].
    - intros x Hx.
      destruct (Hc x Hx) as (_ & [Hi|(f & Hf & [Hs|Hm])]).
      + rewrite Hi. cbn. auto.
      + rewrite Hs. cbn. auto.
      + rewrite Hm. cbn. auto.
    - intros o Hx. destruct (Hc _ Hx) as (Hd & _). discriminate Hd. }
  destruct Hspec as [tr folder Hcand | tr tr' res Hcand Hfb].
  - destruct (Hcalls _ _ Hcand) as (Hc & Hl & He).
    split; [exact Hc | ]. split; [lia | ].
    intros o Hx. exfalso. exact (He o Hx).
  - destruct (Hcalls _ _ Hcand) as (Hc & Hl & He).
    split; [ | split].
    + intros x Hx. apply in_app_or in Hx. destruct Hx as [Hx|Hx].
      * apply Hc. exact Hx.
      * inversion Hfb; subst; cbn in Hx;
          repeat (destruct Hx as [Hx|Hx]; [subst x; cbn; auto | ]);
          contradiction.
    + rewrite length_app.
      inversion Hfb; subst; cbn [List.length]; lia.
    + intros o Hx. apply in_app_or in Hx. destruct Hx as [Hx|Hx].
      * exfalso. exact (He o Hx).
      * inversion Hfb; subst; cbn in Hx;
          repeat (destruct Hx as [Hx|Hx]; [try discriminate Hx | ]);
          try contradiction.
        -- inversion Hx; subst.
           exists (tr ++ [(CallSelect "INBOX", None)]).
           rewrite <- app_assoc. reflexivity.
        -- inversion Hx; subst.
           exists (tr ++ [(CallSelect "INBOX", None)]).
           rewrite <- app_assoc. reflexivity.
Qed.

End Trash.

End PipelineFacts.

(* ================================================================== *)
(** ** Theorems: more on the state machine *)

Module MachineFacts.
Import IntFacts.

Section Machine.
Variable C : Type.
Variable imap : ImapOps C.
Variable lib : MimeLib.
Variable sort_Slice : (Email -> Email -> bool) -> list Email -> list Email.
Variable tk : Toolkit.

Implicit Types a : App C tk.

Ltac split_cases :=
  repeat match goal with
         | |- context [if ?b then _ else _] => destruct b eqn:?
         | |- context [match nth_error ?l ?i with _ => _ end] =>
             destruct (nth_error l i) eqn:?
         | |- context [match list_SelectedItem ?t ?l with _ => _ end] =>
             destruct (list_SelectedItem t l) as [[?|]|] eqn:?
         | |- context [match emailToDelete ?x with _ => _ end] =>
             destruct (emailToDelete x) eqn:?
         | |- context [match client ?x with _ => _ end] =>
             destruct (client x) eqn:?
         end.

(** The end of [Update] writes the list and the viewport and nothing
    else. *)
Lemma Update_widgets_writes (m : Msg (WidgetMsg tk)) a :
  exists l v, fst (Update_widgets m a) = set_viewport v (set_list_ l a).
Proof.
  unfold Update_widgets. destruct a as [? ? ? ? ? ? l0 v0 ? ? ? ? st ? ? ? ? ? ? ? ? ? ?].
  cbn [state list_ viewport].
  destruct st.
  - destruct (list_Update tk m l0) as [l w]. exists l, v0. reflexivity.
  - destruct (viewport_Update tk m v0) as [v w]. exists l0, v. reflexivity.
  - exists l0, v0. reflexivity.
Qed.

Ltac widgets :=
  match goal with
  | |- context [Update_widgets ?m ?x] =>
      let l := fresh "l" in
      let v := fresh "v" in
      let H := fresh "Hw" in
      destruct (Update_widgets_writes m x) as (l & v & H);
      rewrite H; clear H
  end.

(** *** The error *)

Lemma Update_keeps_err (m : Msg (WidgetMsg tk)) a :
  err a <> None -> err (fst (Update imap m a)) <> None.
Proof.
  intros Herr. unfold Update.
  destruct m as [w h|loaded total more|uid body|uid ok message| |e|key|w];
    cbv zeta.
  - cbn [fst snd]. widgets. unfold Update_WindowSize.
    split_cases; cbn; exact Herr.
  - cbn [fst snd]. widgets. unfold Update_emailsLoaded.
    split_cases; cbn; exact Herr.
  - cbn [fst snd]. widgets. unfold Update_emailBodyLoaded. cbv zeta.
    split_cases; cbn; exact Herr.
  - unfold Update_emailDeleted. cbv zeta. destruct ok; cbn [fst snd].
    + cbn. exact Herr.
    + widgets. cbn. discriminate.
  - cbn [fst snd]. widgets. cbn. exact Herr.
  - cbn [fst snd]. widgets. cbn. discriminate.
  - destruct (appState_eqb (state a) deleteConfirmView).
    + unfold Update_key_confirm. split_cases; cbn; exact Herr.
    + unfold Update_key, Update_key_enter, Update_key_d. cbv zeta.
      split_cases; cbn [fst snd]; try widgets; cbn; exact Herr.
  - cbn [fst snd]. widgets. cbn. exact Herr.
Qed.

(** What a command that runs writes: the client and the choice cursor. *)
Lemma run_writes fuel (c : Cmd (WidgetCmd tk)) a a' m :
  run imap lib sort_Slice fuel c a = Some (a', m) ->
  exists cl idx,
    a' = set_deleteConfirmIndex idx (set_client cl a)
    /\ (idx = deleteConfirmIndex a \/ idx = 0)
    /\ (client a <> None -> cl <> None)
    /\ (from_outside tk m = false)
    /\ ((exists loaded total more, m = emailsLoadedMsg loaded total more) ->
        cl <> None).
Proof.
  assert (Hself : forall a, a = set_deleteConfirmIndex (deleteConfirmIndex a)
                                  (set_client (client a) a))
    by (intros [? ? ? ? ? ? ? ? ? ? ? ? ? ? ? ? ? ? ? ? ? ? ?]; reflexivity).
  destruct c; cbn [run]; try discriminate.
  - unfold loadEmails.
    destruct (client a) as [c0|] eqn:Hc.
    + destruct (fetchEmails imap sort_Slice page (emailsPerPage a) c0)
        as [c1 [[loaded total] [e|]]];
        intros H; inversion H; subst;
        exists (Some c1), (deleteConfirmIndex a);
        (split; [destruct a; reflexivity | ]);
        repeat split; auto; try discriminate.
    + destruct (connectToServer imap (username a) (password a)
                                (host a) (port a)) as [c0|e].
      * destruct (fetchEmails imap sort_Slice page (emailsPerPage a) c0)
          as [c1 [[loaded total] [e|]]];
          intros H; inversion H; subst;
          exists (Some c1), (deleteConfirmIndex a);
          (split; [destruct a; reflexivity | ]);
          repeat split; auto; try discriminate.
      * intros H; inversion H; subst.
        exists None, (deleteConfirmIndex a').
        split; [rewrite <- Hc; apply Hself | ].
        split; [left; reflexivity | ].
        split; [intros Hn; exact Hn | ].
        split; [reflexivity | ].
        intros (l & t & b & Hm). discriminate Hm.
  - unfold loadEmailBody.
    destruct (client a) as [c0|] eqn:Hc; [ | discriminate].
    destruct (fetchEmailBodyParsed imap lib fuel uid c0)
      as [c1 [[email [e|]]|]];
      intros H; inversion H; subst;
      exists (Some c1), (deleteConfirmIndex a);
      (split; [destruct a; reflexivity | ]);
      repeat split; auto; try discriminate.
  - unfold deleteEmail.
    destruct (client a) as [c0|] eqn:Hc; [ | discriminate].
    destruct (moveEmailToTrash imap uid c0) as [c1 [ok message]].
    intros H; inversion H; subst.
    exists (Some c1), 0.
    split; [reflexivity | ].
    repeat split; auto; try discriminate.
  - intros H; inversion H; subst.
    exists (client a'), (deleteConfirmIndex a').
    split; [apply Hself | ].
    split; [left; reflexivity | ].
    split; [intros Hn; exact Hn | ].
    split; [reflexivity | ].
    intros (l & t & b & Hm). discriminate Hm.
Qed.

(** X11.  An error is final.  Once the error field is set (by an error
    message or by a delete that completed with failure), no message and
    no command clears it, and every screen drawn from then on is the
    error screen. *)
Theorem error_screen_is_final a a' :
  err a <> None ->
  evolves imap lib sort_Slice a a' ->
  err a' <> None /\ exists e, View a' = ScreenError e.
Proof.
  intros Herr Hev.
  assert (Hkept : err a' <> None).
  { induction Hev as [a | a a' m Hev IH | a a' a'' fuel c m Hev IH Hrun].
    - exact Herr.
    - apply Update_keeps_err. apply IH. exact Herr.
    - destruct (run_writes _ _ _ Hrun) as (cl & idx & Ha & _).
      subst a''. cbn. apply IH. exact Herr. }
  split; [exact Hkept | ].
  unfold View. destruct (err a') as [e|].
  - exists e. reflexivity.
  - exfalso. apply Hkept. reflexivity.
Qed.

(** X12.  The browser never draws the empty screen: in every state it
    can reach, [View] gives one of the error, initializing, loading,
    deleting, confirmation, list or message screens. *)
Theorem View_never_blank a :
  reachable imap lib sort_Slice a -> View a <> ScreenBlank.
Proof.
  intros Hr.
  pose proof (BrowserFacts.reachable_confirm_has_target Hr) as Hinv.
  unfold confirm_has_target in Hinv. unfold View.
  destruct (err a); [discriminate | ].
  destruct (negb (ready a)); [discriminate | ].
  destruct (loading a); [discriminate | ].
  destruct (state a) eqn:Hs.
  - destruct (emailToDelete a); destruct (len_emails a =? 0); discriminate.
  - destruct (emailToDelete a); discriminate.
  - destruct (emailToDelete a) as [target|].
    + unfold renderDeleteConfirmation.
      destruct (deletingEmail a); discriminate.
    + exfalso. apply Hinv; reflexivity.
Qed.

(** *** The bookkeeping of the dialog *)

Lemma Update_keeps_dialog_consistent (m : Msg (WidgetMsg tk)) a :
  dialog_consistent a -> dialog_consistent (fst (Update imap m a)).
Proof.
  unfold dialog_consistent. intros [Hidx Hshow]. unfold Update.
  destruct m as [w h|loaded total more|uid body|uid ok message| |e|key|w];
    cbv zeta.
  - cbn [fst snd]. widgets. unfold Update_WindowSize.
    split_cases; cbn; auto.
  - cbn [fst snd]. widgets. unfold Update_emailsLoaded.
    split_cases; cbn; auto.
  - cbn [fst snd]. widgets. unfold Update_emailBodyLoaded. cbv zeta.
    split_cases; cbn; auto.
  - unfold Update_emailDeleted. cbv zeta. destruct ok; cbn [fst snd].
    + cbn. auto.
    + widgets. cbn. auto.
  - cbn [fst snd]. widgets. cbn. auto.
  - cbn [fst snd]. widgets. cbn. auto.
  - destruct (state a) eqn:Hs; cbn [appState_eqb] in *.
    + unfold Update_key, Update_key_enter, Update_key_d. cbv zeta.
      rewrite Hs. cbn [appState_eqb orb andb].
      split_cases; cbn [fst snd]; try widgets; cbn; rewrite ?Hs; cbn; auto.
    + unfold Update_key, Update_key_enter, Update_key_d. cbv zeta.
      rewrite Hs. cbn [appState_eqb orb andb].
      split_cases; cbn [fst snd]; try widgets; cbn; rewrite ?Hs; cbn; auto.
    + unfold Update_key_confirm.
      split_cases; cbn; rewrite ?Hs; cbn; auto.
  - cbn [fst snd]. widgets. cbn. auto.
Qed.

(** X13.  The bookkeeping of the dialog is consistent in every state the
    browser can reach: the choice cursor is 0 (no) or 1 (yes), and the
    dialog flag [showDeleteConfirm] is set exactly when the view state is
    confirm-delete. *)
Theorem reachable_dialog_consistent a :
  reachable imap lib sort_Slice a -> dialog_consistent a.
Proof.
  induction 1 as [u p h port | m a Hr IH | fuel c a a' m Hr IH Hrun].
  - unfold dialog_consistent. cbn. auto.
  - apply Update_keeps_dialog_consistent. exact IH.
  - destruct (run_writes _ _ _ Hrun) as (cl & idx & Ha & Hi & _).
    subst a'. unfold dialog_consistent in *. cbn.
    destruct IH as [Hidx Hshow]. split; [ | exact Hshow].
    destruct Hi as [Hi|Hi]; rewrite Hi; auto.
Qed.

(** *** The guards of the in-flight flags *)

(** X14.  The refresh key.  In the list state with no load in flight it
    sets the loading flag, resets the page to 1 and returns the command
    that loads page 1 as a replacement.  While a load is in flight, or in
    the message view, it returns no load command and leaves the flag, the
    page and the index as they are. *)
Theorem refresh_guard a :
  state a <> deleteConfirmView ->
  let r := Update imap (KeyMsg "r") a in
  (state a = listView -> loading a = false ->
   snd r = CmdLoadEmails 1 false
   /\ loading (fst r) = true
   /\ currentPage (fst r) = 1
   /\ emails (fst r) = emails a)
  /\ (state a = emailView \/ loading a = true ->
      (forall page more, snd r <> CmdLoadEmails page more)
      /\ loading (fst r) = loading a
      /\ currentPage (fst r) = currentPage a
      /\ emails (fst r) = emails a).
Proof.
  intros Hnot r. subst r. unfold Update.
  assert (Hc : appState_eqb (state a) deleteConfirmView = false)
    by (destruct (state a); [reflexivity | reflexivity | contradiction]).
  rewrite Hc. unfold Update_key.
  change (key_in "r" ["ctrl+c"; "q"]) with false.
  change (key_in "r" ["enter"]) with false.
  change (key_in "r" ["esc"; "backspace"]) with false.
  change (key_in "r" ["d"]) with false.
  change (key_in "r" ["r"]) with true.
  cbv iota. split.
  - intros Hs Hl. rewrite Hs, Hl. cbn. auto.
  - intros Hcase.
    assert (Hguard : appState_eqb (state a) listView && negb (loading a)
                     = false).
    { destruct Hcase as [Hs|Hl].
      - rewrite Hs. reflexivity.
      - rewrite Hl. apply andb_false_r. }
    rewrite Hguard. cbv zeta.
    pose proof (BrowserFacts.Update_widgets_cmd (KeyMsg "r") a) as Hcmd.
    widgets. cbn [fst snd] in *. cbn.
    repeat split; try reflexivity.
    intros page more Heq. rewrite Heq in Hcmd.
    destruct Hcmd as [Hn|[w Hw]]; discriminate.
Qed.

(** X15.  Enter on the load-more entry.  With no load-more in flight it
    sets the flag, advances the page by one and returns the command that
    loads that page to be appended; with a load-more in flight it returns
    no command and changes nothing. *)
Theorem load_more_guard a :
  state a = listView ->
  (list_Index tk (list_ a) < List.length (list_Items tk (list_ a)))%nat ->
  list_SelectedItem tk (list_ a) = Some ItemLoadMore ->
  GoInt.in_range (currentPage a + 1) ->
  let r := Update imap (KeyMsg "enter") a in
  (loadingMore a = false ->
   snd r = CmdLoadEmails (currentPage a + 1) true
   /\ loadingMore (fst r) = true
   /\ currentPage (fst r) = currentPage a + 1
   /\ state (fst r) = listView
   /\ emails (fst r) = emails a)
  /\ (loadingMore a = true -> r = (a, CmdNil)).
Proof.
  intros Hs Hidx Hsel Hpage r. subst r. unfold Update.
  rewrite Hs. cbn [appState_eqb]. unfold Update_key.
  change (key_in "enter" ["ctrl+c"; "q"]) with false.
  change (key_in "enter" ["enter"]) with true.
  cbv iota. unfold Update_key_enter.
  rewrite Hs. cbn [appState_eqb andb].
  apply Nat.ltb_lt in Hidx. rewrite Hidx, Hsel.
  split; intros Hl; rewrite Hl; cbn [negb].
  - cbv zeta. cbn. unfold GoInt.add.
    rewrite (goint_wrap_small Hpage). rewrite Hs. auto.
  - reflexivity.
Qed.

(** X16.  The keys of the dialog stay in the dialog.  In the
    confirm-delete state no key changes the index, the total, the
    more-available flag, the page or the client (q and ctrl+c neither log
    out nor quit); the only command a key can return is the delete of the
    snapshot's unique id, on enter with the cursor on yes; and the view
    either stays in the dialog or goes back to the list with the snapshot
    cleared. *)
Theorem dialog_keys a key :
  state a = deleteConfirmView ->
  let r := Update imap (KeyMsg key) a in
  emails (fst r) = emails a
  /\ totalMessages (fst r) = totalMessages a
  /\ hasMore (fst r) = hasMore a
  /\ currentPage (fst r) = currentPage a
  /\ client (fst r) = client a
  /\ (snd r = CmdNil
      \/ exists target,
          key = "enter"
          /\ deleteConfirmIndex a = 1
          /\ emailToDelete a = Some target
          /\ snd r = CmdDeleteEmail (UID target))
  /\ (state (fst r) = deleteConfirmView
      \/ (state (fst r) = listView /\ emailToDelete (fst r) = None)).
Proof.
  intros Hs r. subst r. unfold Update.
  rewrite Hs. cbn [appState_eqb]. unfold Update_key_confirm.
  destruct (key_in key ["left"; "h"; "right"; "l"]) eqn:Htoggle.
  - destruct (deleteConfirmIndex a =? 0); cbn; rewrite Hs; repeat split; auto.
  - destruct (key_in key ["enter"]) eqn:Henter.
    + assert (Hkey : key = "enter").
      { unfold key_in in Henter. cbn [existsb] in Henter.
        rewrite orb_false_r in Henter. apply String.eqb_eq. exact Henter. }
      destruct (Z.eqb_spec (deleteConfirmIndex a) 1) as [Hidx|Hidx].
      * destruct (emailToDelete a) as [target|] eqn:Ht.
        -- cbn. rewrite Hs. repeat split; auto.
           right. exists target. auto.
        -- cbn. repeat split; auto.
      * cbn. repeat split; auto.
    + destruct (key_in key ["esc"; "q"]); cbn; rewrite ?Hs;
        repeat split; auto.
Qed.

(** *** The client of the commands *)

Lemma positive_len_nonempty a :
  (0 <? len_emails a) = true -> emails a <> [].
Proof.
  unfold len_emails. intros H Hnil. rewrite Hnil in H. discriminate H.
Qed.

Lemma nth_error_nonempty (l : list Email) i e :
  nth_error l i = Some e -> l <> [].
Proof. intros H Hnil. subst l. destruct i; discriminate H. Qed.

Lemma widgets_need_no_client (m : Msg (WidgetMsg tk)) a :
  needs_client tk (snd (Update_widgets m a)) = false.
Proof.
  destruct (BrowserFacts.Update_widgets_cmd m a) as [H|[w H]];
    rewrite H; reflexivity.
Qed.

(** A message from outside leaves the index alone and keeps a client
    that is there; it sets a snapshot, or returns a command that needs
    the client, only over a loaded message or a snapshot. *)
Lemma Update_outside_effect (m : Msg (WidgetMsg tk)) a :
  from_outside tk m = true ->
  emails (fst (Update imap m a)) = emails a
  /\ (client a <> None -> client (fst (Update imap m a)) <> None)
  /\ (emailToDelete (fst (Update imap m a)) <> None ->
      emailToDelete a <> None \/ emails a <> [])
  /\ (needs_client tk (snd (Update imap m a)) = true ->
      emails a <> [] \/ emailToDelete a <> None).
Proof.
  unfold Update.
  destruct m as [w h|loaded total more|uid body|uid ok message| |e|key|w];
    cbn [from_outside]; try discriminate; intros _; cbv zeta.
  - cbn [fst snd]. rewrite widgets_need_no_client. widgets.
    unfold Update_WindowSize. split_cases; cbn;
      (repeat split; auto; discriminate).
  - destruct (appState_eqb (state a) deleteConfirmView).
    + unfold Update_key_confirm.
      split_cases; cbn; repeat split; auto; try discriminate;
        try (intros Hn; left; congruence);
        try (intros Hn; exfalso; apply Hn; reflexivity);
        try (intros _; right; congruence).
    + unfold Update_key, Update_key_enter, Update_key_d. cbv zeta.
      split_cases; cbn [fst snd]; rewrite ?widgets_need_no_client;
        try widgets; cbn;
        repeat split; auto; try discriminate;
        try (intros _; left; eapply nth_error_nonempty; eassumption);
        try (intros _; right; apply positive_len_nonempty;
             match goal with
             | H : (_ && (0 <? len_emails a)) = true |- _ =>
                 apply andb_prop in H; exact (proj2 H)
             end).
  - cbn [fst snd]. rewrite widgets_need_no_client. widgets. cbn.
    repeat split; auto; discriminate.
Qed.

Lemma emails_set_body_nonempty uid body (l : list Email) :
  emails_set_body uid body l <> [] -> l <> [].
Proof. intros H Hnil. subst l. apply H. reflexivity. Qed.

Lemma emails_remove_nonempty uid (l : list Email) :
  emails_remove uid l <> [] -> l <> [].
Proof. intros H Hnil. subst l. apply H. reflexivity. Qed.

(** A message from a command keeps the client and the snapshot, fills
    an empty index only if it is a page of messages, and returns no
    command that needs the client. *)
Lemma Update_inside_effect (m : Msg (WidgetMsg tk)) a :
  from_outside tk m = false ->
  client (fst (Update imap m a)) = client a
  /\ emailToDelete (fst (Update imap m a)) = emailToDelete a
  /\ (emails (fst (Update imap m a)) <> [] ->
      emails a <> []
      \/ exists loaded total more, m = emailsLoadedMsg loaded total more)
  /\ needs_client tk (snd (Update imap m a)) = false.
Proof.
  unfold Update.
  destruct m as [w h|loaded total more|uid body|uid ok message| |e|key|w];
    cbn [from_outside]; try discriminate; intros _; cbv zeta.
  - cbn [fst snd]. rewrite widgets_need_no_client. widgets.
    unfold Update_emailsLoaded. split_cases; cbn;
      repeat split; auto; intros _; right; eauto.
  - cbn [fst snd]. rewrite widgets_need_no_client. widgets.
    unfold Update_emailBodyLoaded. cbv zeta. split_cases; cbn;
      repeat split; auto; intros H; left;
      apply (@emails_set_body_nonempty _ _ _ H).
  - unfold Update_emailDeleted. cbv zeta. destruct ok; cbn [fst snd].
    + cbn. repeat split; auto. intros H. left.
      apply (@emails_remove_nonempty _ _ H).
    + rewrite widgets_need_no_client. widgets. cbn. repeat split; auto.
  - cbn [fst snd]. rewrite widgets_need_no_client. widgets. cbn.
    repeat split; auto.
  - cbn [fst snd]. rewrite widgets_need_no_client. widgets. cbn.
    repeat split; auto.
Qed.

(** What holds of the program while it runs: a loaded message, a
    snapshot or a pending command that needs the client each come with a
    client. *)
Lemma running_has_client (w : World C tk) :
  running imap lib sort_Slice w ->
  (emails (fst w) <> [] -> client (fst w) <> None)
  /\ (emailToDelete (fst w) <> None -> client (fst w) <> None)
  /\ (forall c, In c (snd w) -> needs_client tk c = true ->
                client (fst w) <> None).
Proof.
  induction 1 as [u p h port
                 | a pending m Hrun (IHe & IHt & IHp) Hout
                 | a before c after_ fuel a' m Hrun (IHe & IHt & IHp) Hc];
    cbn [fst snd] in *.
  - split; [intros H; exfalso; apply H; reflexivity | ].
    split; [intros H; exfalso; apply H; reflexivity | ].
    intros c [Hc|[]] Hneeds. subst c. discriminate Hneeds.
  - destruct (Update_outside_effect m a Hout) as (He & Hcl & Ht & Hn).
    assert (Hsome : emails a <> [] \/ emailToDelete a <> None ->
                    client (fst (Update imap m a)) <> None).
    { intros [H|H]; apply Hcl; [apply IHe | apply IHt]; exact H. }
    split; [intros H; apply Hsome; left; rewrite <- He; exact H | ].
    split.
    + intros H. apply Hsome. destruct (Ht H); auto.
    + intros c0 [Hc0|Hin] Hneeds.
      * subst c0. apply Hsome. apply Hn. exact Hneeds.
      * apply Hcl. apply (IHp c0 Hin Hneeds).
  - destruct (run_writes _ _ _ Hc) as (cl & idx & Ha' & _ & Hkeep & Hin & Hload).
    destruct (Update_inside_effect m a' Hin) as (Hcl & Ht & He & Hn).
    assert (Hcl' : client a' = cl) by (subst a'; reflexivity).
    assert (He' : emails a' = emails a) by (subst a'; reflexivity).
    assert (Ht' : emailToDelete a' = emailToDelete a)
      by (subst a'; reflexivity).
    rewrite Hcl, Hcl'.
    split.
    + intros H. destruct (He H) as [H0|H0].
      * apply Hkeep. apply IHe. rewrite <- He'. exact H0.
      * apply Hload. exact H0.
    + split.
      * rewrite Ht, Ht'. intros H. apply Hkeep. apply IHt. exact H.
      * intros c0 [Hc0|Hin0] Hneeds.
        -- subst c0. rewrite Hn in Hneeds. discriminate Hneeds.
        -- apply Hkeep. apply (IHp c0); [ | exact Hneeds].
           apply in_or_app. apply in_app_or in Hin0.
           destruct Hin0 as [H0|H0]; [left; exact H0 | right; right; exact H0].
Qed.

(** X20.  No command dereferences a nil client.  While the program
    runs, every pending command that fetches a body or deletes a message
    finds the client connected; in particular a pending delete always
    runs to its end and yields its completion message. *)
Theorem commands_have_client (w : World C tk) (c : Cmd (WidgetCmd tk)) :
  running imap lib sort_Slice w ->
  In c (snd w) ->
  needs_client tk c = true ->
  client (fst w) <> None
  /\ forall uid, c = CmdDeleteEmail uid ->
                 exists a' ok message,
                   run imap lib sort_Slice 0 c (fst w)
                   = Some (a', emailDeletedMsg uid ok message).
Proof.
  intros Hrun Hin Hneeds.
  destruct (running_has_client Hrun) as (_ & _ & Hp).
  pose proof (Hp c Hin Hneeds) as Hcl.
  split; [exact Hcl | ].
  intros uid Hc. subst c. cbn [run]. unfold deleteEmail.
  destruct (client (fst w)) as [c0|]; [ | exfalso; apply Hcl; reflexivity].
  destruct (moveEmailToTrash imap uid c0) as [c1 [ok message]].
  eexists _, ok, message. reflexivity.
Qed.

End Machine.

End MachineFacts.

(* ================================================================== *)
(** ** Theorems: strings and display text *)

Module StringFacts.
Import GoStrings.

Lemma length_append (a b : string) :
  String.length (a ++ b) = (String.length a + String.length b)%nat.
Proof. induction a as [|c a IH]; cbn; [reflexivity | rewrite IH; reflexivity]. Qed.

Lemma prefix_length (p : string) :
  forall s, String.prefix p s = true ->
            (String.length p <= String.length s)%nat.
Proof.
  induction p as [|c p IH]; intros s H; cbn.
  - lia.
  - destruct s as [|d s]; cbn in H; [discriminate H | ].
    destruct (ascii_dec c d); [ | discriminate H].
    apply IH in H. cbn. lia.
Qed.

Lemma prefix_app_r (p : string) :
  forall s t, String.prefix p s = true -> String.prefix p (s ++ t) = true.
Proof.
  induction p as [|c p IH]; intros s t H.
  - destruct (s ++ t)%string; reflexivity.
  - destruct s as [|d s]; cbn in H; [discriminate H | ].
    cbn. destruct (ascii_dec c d); [ | discriminate H].
    apply IH. exact H.
Qed.

Lemma Contains_app_r (s t p : string) :
  Contains s p = true -> Contains (s ++ t) p = true.
Proof.
  induction s as [|c s IH]; cbn [Contains]; intros H.
  - rewrite orb_false_r in H.
    destruct p as [|d p]; [ | discriminate H].
    destruct (EmptyString ++ t)%string; reflexivity.
  - apply orb_prop in H. destruct H as [H|H].
    + change (String c s ++ t)%string with (String c (s ++ t)).
      cbn [Contains].
      change (String c (s ++ t)) with (String c s ++ t)%string.
      rewrite (prefix_app_r _ _ t H). reflexivity.
    + change (String c s ++ t)%string with (String c (s ++ t)).
      cbn [Contains]. rewrite (IH H). apply orb_true_r.
Qed.

Lemma Contains_app_l (s t p : string) :
  Contains s p = true -> Contains (t ++ s) p = true.
Proof.
  intros H. induction t as [|c t IH]; [exact H | ].
  change (String c t ++ s)%string with (String c (t ++ s)).
  cbn [Contains]. rewrite IH. apply orb_true_r.
Qed.

Lemma has_byte_append (c : ascii) (a b : string) :
  has_byte c (a ++ b) = has_byte c a || has_byte c b.
Proof.
  induction a as [|d a IH]; cbn; [reflexivity | ].
  rewrite IH. apply orb_assoc.
Qed.

(** A trimmed string has nothing that the string itself has not. *)
Lemma trims_has_byte TrimSpace (c : ascii) (s : string) :
  trims TrimSpace ->
  has_byte c (TrimSpace s) = true -> has_byte c s = true.
Proof.
  intros Htrim H. destruct (Htrim s) as (pre & post & Hs).
  rewrite Hs. rewrite !has_byte_append, H.
  rewrite orb_true_l. apply orb_true_r.
Qed.

Lemma trims_Contains TrimSpace (s p : string) :
  trims TrimSpace ->
  Contains (TrimSpace s) p = true -> Contains s p = true.
Proof.
  intros Htrim H. destruct (Htrim s) as (pre & post & Hs).
  rewrite Hs. apply Contains_app_l. apply Contains_app_r. exact H.
Qed.

Lemma trims_length TrimSpace (s : string) :
  trims TrimSpace ->
  (String.length (TrimSpace s) <= String.length s)%nat.
Proof.
  intros Htrim. destruct (Htrim s) as (pre & post & Hs).
  rewrite Hs at 2. rewrite !length_append. lia.
Qed.

Lemma trims_empty TrimSpace : trims TrimSpace -> TrimSpace "" = "".
Proof.
  intros Htrim. pose proof (trims_length "" Htrim) as H.
  destruct (TrimSpace ""); [reflexivity | cbn in H; lia].
Qed.

(** *** [ReplaceAll] *)

Lemma ReplaceAll_from_length (old new : string) :
  (String.length new <= String.length old)%nat ->
  forall s skip,
    (String.length (ReplaceAll_from old new skip s)
     <= String.length s - skip)%nat.
Proof.
  intros Hnew. induction s as [|c s IH]; intros skip.
  - cbn. lia.
  - cbn [ReplaceAll_from]. destruct skip as [|skip].
    + destruct (String.prefix old (String c s)) eqn:Hp.
      * apply prefix_length in Hp. cbn [String.length] in Hp.
        rewrite length_append.
        pose proof (IH (Nat.pred (String.length old))) as Hrec.
        cbn [String.length]. lia.
      * cbn [String.length]. pose proof (IH 0%nat) as Hrec. lia.
    + cbn [String.length]. pose proof (IH skip) as Hrec. lia.
Qed.

Lemma ReplaceAll_length (s old new : string) :
  (String.length new <= String.length old)%nat ->
  (String.length (ReplaceAll s old new) <= String.length s)%nat.
Proof.
  intros Hnew. unfold ReplaceAll.
  pose proof (ReplaceAll_from_length _ _ Hnew s 0) as H. lia.
Qed.

Lemma ReplaceAll_shrinks (old new : string) :
  (String.length new < String.length old)%nat ->
  forall s, Contains s old = true ->
            (String.length (ReplaceAll s old new) < String.length s)%nat.
Proof.
  intros Hnew. unfold ReplaceAll.
  assert (Hle : (String.length new <= String.length old)%nat) by lia.
  induction s as [|c s IH]; cbn [Contains]; intros H.
  - rewrite orb_false_r in H. apply prefix_length in H. cbn in H. lia.
  - cbn [ReplaceAll_from].
    destruct (String.prefix old (String c s)) eqn:Hp.
    + apply prefix_length in Hp. cbn [String.length] in Hp.
      rewrite length_append.
      pose proof (ReplaceAll_from_length _ _ Hle s
                    (Nat.pred (String.length old))) as Hrec.
      cbn [String.length]. lia.
    + cbn [orb] in H. apply IH in H. cbn [String.length]. lia.
Qed.

Lemma ReplaceAll_from_has_byte (old new : string) (b : ascii) :
  forall s skip,
    has_byte b (ReplaceAll_from old new skip s) = true ->
    has_byte b s = true \/ has_byte b new = true.
Proof.
  induction s as [|c s IH]; intros skip; cbn [ReplaceAll_from].
  - intros H. discriminate H.
  - destruct skip as [|skip].
    + destruct (String.prefix old (String c s)).
      * rewrite has_byte_append. intros H. apply orb_prop in H.
        destruct H as [H|H]; [right; exact H | ].
        destruct (IH _ H) as [H'|H']; [left | right; exact H'].
        cbn. rewrite H'. apply orb_true_r.
      * cbn [has_byte]. intros H. apply orb_prop in H.
        destruct H as [H|H].
        -- left. rewrite H. reflexivity.
        -- destruct (IH _ H) as [H'|H']; [left | right; exact H'].
           rewrite H'. apply orb_true_r.
    + intros H. destruct (IH _ H) as [H'|H']; [left | right; exact H'].
      cbn. rewrite H'. apply orb_true_r.
Qed.

(** Replacing a byte by a string without it leaves none of it. *)
Lemma ReplaceAll_byte_gone (b : ascii) (new s : string) :
  has_byte b new = false ->
  has_byte b (ReplaceAll s (str b) new) = false.
Proof.
  intros Hnew. unfold ReplaceAll.
  induction s as [|c s IH]; [reflexivity | ].
  assert (Hempty : forall t, String.prefix "" t = true)
    by (intros [|d t]; reflexivity).
  cbn [ReplaceAll_from str String.prefix].
  destruct (ascii_dec b c) as [Heq|Hne].
  - rewrite Hempty. cbn [String.length Nat.pred].
    rewrite has_byte_append, Hnew. cbn [orb]. exact IH.
  - cbn [has_byte]. rewrite IH, orb_false_r.
    apply Ascii.eqb_neq. intros Heq. apply Hne. symmetry. exact Heq.
Qed.

(** *** [Split], [TrimRight], [Join] *)

Lemma Split_sum (sep : ascii) (s : string) :
  (sum_lengths (Split s sep) + List.length (Split s sep)
   = S (String.length s))%nat.
Proof.
  induction s as [|c s IH]; [reflexivity | ].
  cbn [Split]. destruct (Ascii.eqb c sep).
  - cbn [sum_lengths List.length String.length]. lia.
  - destruct (Split s sep) as [|piece rest].
    + cbn in IH. lia.
    + cbn [sum_lengths List.length String.length] in *. lia.
Qed.

Lemma Split_pieces_have (sep b : ascii) (s : string) :
  forall piece, In piece (Split s sep) ->
                has_byte b piece = true -> has_byte b s = true.
Proof.
  induction s as [|c s IH]; intros piece; cbn [Split].
  - intros [H|[]] Hb. subst piece. discriminate Hb.
  - destruct (Ascii.eqb c sep).
    + intros [H|H] Hb.
      * subst piece. discriminate Hb.
      * cbn. rewrite (IH _ H Hb). apply orb_true_r.
    + destruct (Split s sep) as [|p rest].
      * intros [H|[]] Hb. subst piece. cbn in Hb.
        rewrite orb_false_r in Hb. cbn. rewrite Hb. reflexivity.
      * intros [H|H] Hb.
        -- subst piece. cbn in Hb. apply orb_prop in Hb. cbn.
           destruct Hb as [Hb|Hb]; [rewrite Hb; reflexivity | ].
           rewrite (IH p (or_introl eq_refl) Hb). apply orb_true_r.
        -- cbn. rewrite (IH piece (or_intror H) Hb). apply orb_true_r.
Qed.

Lemma Split_pieces_lack_sep (sep : ascii) (s : string) :
  forall piece, In piece (Split s sep) -> has_byte sep piece = false.
Proof.
  induction s as [|c s IH]; intros piece; cbn [Split].
  - intros [H|[]]. subst piece. reflexivity.
  - destruct (Ascii.eqb c sep) eqn:Hc.
    + intros [H|H]; [subst piece; reflexivity | apply IH; exact H].
    + destruct (Split s sep) as [|p rest].
      * intros [H|[]]. subst piece. cbn. rewrite Hc. reflexivity.
      * intros [H|H].
        -- subst piece. cbn. rewrite Hc.
           apply (IH p). left. reflexivity.
        -- apply IH. right. exact H.
Qed.

Lemma TrimRight_length (cutset s : string) :
  (String.length (TrimRight s cutset) <= String.length s)%nat.
Proof.
  induction s as [|c s IH]; cbn [TrimRight]; [apply Nat.le_refl | ].
  destruct (TrimRight s cutset) as [|d t].
  - destruct (in_cutset cutset c); cbn; lia.
  - cbn [String.length] in *. lia.
Qed.

Lemma TrimRight_has_byte (cutset : string) (b : ascii) (s : string) :
  has_byte b (TrimRight s cutset) = true -> has_byte b s = true.
Proof.
  induction s as [|c s IH]; cbn [TrimRight]; [intros H; exact H | ].
  destruct (TrimRight s cutset) as [|d t].
  - destruct (in_cutset cutset c); cbn; [discriminate | ].
    rewrite orb_false_r. intros H. rewrite H. reflexivity.
  - cbn [has_byte] in *. intros H.
    destruct (Ascii.eqb c b); [reflexivity | ].
    cbn [orb] in *. apply IH. exact H.
Qed.

Lemma Join_length (sep : string) (l : list string) :
  l <> [] ->
  (String.length (Join l sep) + String.length sep
   = sum_lengths l + List.length l * String.length sep)%nat.
Proof.
  unfold Join. induction l as [|x l IH]; intros Hne; [contradiction | ].
  destruct l as [|y l].
  - cbn. lia.
  - change (String.concat sep (x :: y :: l))
      with (x ++ sep ++ String.concat sep (y :: l))%string.
    rewrite !length_append.
    assert (Hyl : y :: l <> []) by discriminate.
    specialize (IH Hyl).
    cbn [sum_lengths List.length] in *. lia.
Qed.

Lemma Join_has_byte (sep : string) (b : ascii) (l : list string) :
  has_byte b (Join l sep) = true ->
  (exists x, In x l /\ has_byte b x = true) \/ has_byte b sep = true.
Proof.
  unfold Join. induction l as [|x l IH]; [intros H; discriminate H | ].
  destruct l as [|y l].
  - cbn. intros H. left. exists x. auto.
  - change (String.concat sep (x :: y :: l))
      with (x ++ sep ++ String.concat sep (y :: l))%string.
    rewrite !has_byte_append. intros H.
    apply orb_prop in H. destruct H as [H|H].
    + left. exists x. split; [left; reflexivity | exact H].
    + apply orb_prop in H. destruct H as [H|H]; [right; exact H | ].
      destruct (IH H) as [(z & Hz & Hb)|Hs]; [left | right; exact Hs].
      exists z. split; [right; exact Hz | exact Hb].
Qed.

Lemma sum_lengths_map (f : string -> string) (l : list string) :
  (forall x, (String.length (f x) <= String.length x)%nat) ->
  (sum_lengths (map f l) <= sum_lengths l)%nat.
Proof.
  intros Hf. induction l as [|x l IH]; cbn; [lia | ].
  specialize (Hf x). lia.
Qed.

(** *** [Title] *)

Lemma substring_0_length (n : nat) :
  forall s, (n <= String.length s)%nat ->
            String.length (substring 0 n s) = n.
Proof.
  induction n as [|n IH]; intros s H.
  - destruct s; reflexivity.
  - destruct s as [|c s]; cbn in H; [lia | ].
    cbn. rewrite IH by lia. reflexivity.
Qed.

Lemma substring_0_prefix (n : nat) :
  forall s, exists rest, s = (substring 0 n s ++ rest)%string.
Proof.
  induction n as [|n IH]; intros s.
  - exists s. destruct s; reflexivity.
  - destruct s as [|c s].
    + exists EmptyString. reflexivity.
    + destruct (IH s) as (rest & Hrest). exists rest.
      cbn. rewrite <- Hrest. reflexivity.
Qed.

(** X21.  The title of a list entry never exceeds 60 bytes.  A subject
    of at most 60 bytes is shown as it is; a longer one is cut to its
    first 57 bytes followed by three dots, 60 bytes in all. *)
Theorem Title_fits (e : Email) :
  (String.length (Title e) <= 60)%nat
  /\ ((String.length (Subject e) <= 60)%nat -> Title e = Subject e)
  /\ ((60 < String.length (Subject e))%nat ->
      String.length (Title e) = 60%nat
      /\ exists head rest,
          String.length head = 57%nat
          /\ Subject e = (head ++ rest)%string
          /\ Title e = (head ++ "...")%string).
Proof.
  unfold Title.
  destruct (Nat.ltb_spec 60 (String.length (Subject e))) as [Hlong|Hshort].
  - assert (Hlen : String.length (substring 0 57 (Subject e)) = 57%nat)
      by (apply substring_0_length; lia).
    split; [rewrite length_append, Hlen; cbn; lia | ].
    split; [intros H; lia | ].
    intros _. split; [rewrite length_append, Hlen; reflexivity | ].
    destruct (substring_0_prefix 57 (Subject e)) as (rest & Hrest).
    exists (substring 0 57 (Subject e)), rest. auto.
  - split; [exact Hshort | ].
    split; [reflexivity | intros H; lia].
Qed.

(** *** [cleanupWhitespace] *)

Section Whitespace.
Variable TrimSpace : string -> string.

(** The text as it enters the loop. *)
Lemma cleanupWhitespace_unfold fuel text :
  cleanupWhitespace TrimSpace fuel text
  = match
      cleanupWhitespace_loop fuel
        (Join (map (fun line => TrimRight line (String " " (str TAB)))
                   (Split (ReplaceAll (ReplaceAll text (String CR (str LF))
                                                  (str LF))
                                      (str CR) (str LF)) LF))
              (str LF))
    with
    | None => None
    | Some text' => Some (TrimSpace text')
    end.
Proof. reflexivity. Qed.

Lemma before_loop_length text :
  (String.length
     (Join (map (fun line => TrimRight line (String " " (str TAB)))
                (Split (ReplaceAll (ReplaceAll text (String CR (str LF))
                                               (str LF))
                                   (str CR) (str LF)) LF))
           (str LF))
   <= String.length text)%nat.
Proof.
  set (t := ReplaceAll (ReplaceAll text (String CR (str LF)) (str LF))
                       (str CR) (str LF)).
  assert (Ht : (String.length t <= String.length text)%nat).
  { unfold t.
    pose proof (ReplaceAll_length text (String CR (str LF)) (str LF)) as H1.
    pose proof (ReplaceAll_length
                  (ReplaceAll text (String CR (str LF)) (str LF))
                  (str CR) (str LF)) as H2.
    cbn [String.length str] in H1, H2. lia. }
  set (trim := fun line => TrimRight line (String " " (str TAB))).
  assert (Hne : map trim (Split t LF) <> []).
  { pose proof (Split_sum LF t) as Hs.
    destruct (Split t LF); [cbn in Hs; lia | discriminate]. }
  pose proof (Join_length (str LF) Hne) as Hj.
  pose proof (Split_sum LF t) as Hs.
  pose proof (sum_lengths_map trim (Split t LF)
                (fun x => TrimRight_length (String " " (str TAB)) x)) as Hm.
  rewrite length_map in Hj. cbn [String.length str] in Hj. lia.
Qed.

Lemma before_loop_no_CR text :
  has_byte CR
    (Join (map (fun line => TrimRight line (String " " (str TAB)))
               (Split (ReplaceAll (ReplaceAll text (String CR (str LF))
                                              (str LF))
                                  (str CR) (str LF)) LF))
          (str LF))
  = false.
Proof.
  set (t := ReplaceAll (ReplaceAll text (String CR (str LF)) (str LF))
                       (str CR) (str LF)).
  assert (Ht : has_byte CR t = false)
    by (unfold t; apply ReplaceAll_byte_gone; reflexivity).
  match goal with |- ?b = false => destruct b eqn:Hb; [ | reflexivity] end.
  exfalso. apply Join_has_byte in Hb.
  destruct Hb as [(x & Hx & Hcr)|Hsep]; [ | discriminate Hsep].
  apply in_map_iff in Hx. destruct Hx as (y & Hxy & Hy). subst x.
  apply TrimRight_has_byte in Hcr.
  rewrite (Split_pieces_have LF CR t y Hy Hcr) in Ht. discriminate Ht.
Qed.

(** What the loop leaves when it ends. *)
Lemma cleanupWhitespace_loop_result fuel :
  forall text out,
    cleanupWhitespace_loop fuel text = Some out ->
    Contains out (String LF (String LF (String LF (str LF)))) = false
    /\ (String.length out <= String.length text)%nat
    /\ (has_byte CR text = false -> has_byte CR out = false).
Proof.
  induction fuel as [|fuel IH]; intros text out H; [discriminate H | ].
  cbn [cleanupWhitespace_loop] in H.
  destruct (Contains text (String LF (String LF (String LF (str LF)))))
    eqn:Hc.
  - destruct (IH _ _ H) as (Hno & Hlen & Hcr).
    split; [exact Hno | ].
    split.
    + pose proof (ReplaceAll_length text
                    (String LF (String LF (String LF (str LF))))
                    (String LF (String LF (str LF)))) as Hr.
      cbn [String.length str] in Hr. lia.
    + intros Htext. apply Hcr.
      match goal with |- ?b = false => destruct b eqn:Hb; [ | reflexivity] end.
      unfold ReplaceAll in Hb. apply ReplaceAll_from_has_byte in Hb.
      destruct Hb as [Hb|Hb]; [rewrite Hb in Htext | ]; discriminate.
  - inversion H; subst. auto.
Qed.

(** The loop ends within as many rounds as the text has bytes. *)
Lemma cleanupWhitespace_loop_ends n :
  forall text,
    (String.length text < n)%nat ->
    exists out,
      forall fuel, (String.length text < fuel)%nat ->
                   cleanupWhitespace_loop fuel text = Some out.
Proof.
  induction n as [|n IH]; intros text Hn; [lia | ].
  destruct (Contains text (String LF (String LF (String LF (str LF)))))
    eqn:Hc.
  - assert (Hshrink :
              (String.length
                 (ReplaceAll text (String LF (String LF (String LF (str LF))))
                             (String LF (String LF (str LF))))
               < String.length text)%nat)
      by (apply ReplaceAll_shrinks; [cbn; lia | exact Hc]).
    destruct (IH (ReplaceAll text (String LF (String LF (String LF (str LF))))
                             (String LF (String LF (str LF)))))
      as (out & Hout); [lia | ].
    exists out. intros fuel Hfuel.
    destruct fuel as [|fuel]; [lia | ].
    cbn [cleanupWhitespace_loop]. rewrite Hc. apply Hout. lia.
  - exists text. intros fuel Hfuel.
    destruct fuel as [|fuel]; [lia | ].
    cbn [cleanupWhitespace_loop]. rewrite Hc. reflexivity.
Qed.

(** X22.  [cleanupWhitespace] always returns: its loop, which squeezes
    runs of four newlines, ends within as many rounds as the text has
    bytes, and the result does not depend on the bound. *)
Theorem cleanupWhitespace_returns (text : string) :
  exists out,
    forall fuel, (String.length text < fuel)%nat ->
                 cleanupWhitespace TrimSpace fuel text = Some out.
Proof.
  pose proof (before_loop_length text) as Hlen.
  match type of Hlen with
  | (String.length ?t <= _)%nat =>
      destruct (cleanupWhitespace_loop_ends (n := S (String.length t)) t)
        as (out & Hout); [lia | ];
      exists (TrimSpace out); intros fuel Hfuel;
      rewrite cleanupWhitespace_unfold, (Hout fuel) by lia
  end.
  reflexivity.
Qed.

(** X23.  With a [TrimSpace] that returns a stretch of its argument,
    the text that [cleanupWhitespace] returns holds no carriage return
    and is no longer than the text it was given. *)
Theorem cleanupWhitespace_no_carriage_return fuel text out :
  trims TrimSpace ->
  cleanupWhitespace TrimSpace fuel text = Some out ->
  has_byte CR out = false
  /\ (String.length out <= String.length text)%nat.
Proof.
  intros Htrim. rewrite cleanupWhitespace_unfold.
  destruct (cleanupWhitespace_loop fuel _) as [text'|] eqn:Hloop;
    [ | discriminate].
  intros H. inversion H; subst out.
  destruct (cleanupWhitespace_loop_result _ _ Hloop) as (_ & Hlen & Hcr).
  split.
  - match goal with |- ?b = false => destruct b eqn:Hb; [ | reflexivity] end.
    apply (trims_has_byte _ _ Htrim) in Hb.
    rewrite (Hcr (before_loop_no_CR text)) in Hb. discriminate Hb.
  - pose proof (trims_length text' Htrim).
    pose proof (before_loop_length text). lia.
Qed.

(** X24.  With a [TrimSpace] that returns a stretch of its argument,
    the text that [cleanupWhitespace] returns never holds four newlines
    in a row: at most two empty lines follow one another. *)
Theorem cleanupWhitespace_squeezes_newlines fuel text out :
  trims TrimSpace ->
  cleanupWhitespace TrimSpace fuel text = Some out ->
  Contains out (String LF (String LF (String LF (str LF)))) = false.
Proof.
  intros Htrim. rewrite cleanupWhitespace_unfold.
  destruct (cleanupWhitespace_loop fuel _) as [text'|] eqn:Hloop;
    [ | discriminate].
  intros H. inversion H; subst out.
  destruct (cleanupWhitespace_loop_result _ _ Hloop) as (Hno & _).
  match goal with |- ?b = false => destruct b eqn:Hb; [ | reflexivity] end.
  apply (trims_Contains _ _ Htrim) in Hb.
  rewrite Hb in Hno. discriminate Hno.
Qed.

End Whitespace.

End StringFacts.

(* ================================================================== *)
(** ** Theorems: composing and sending *)

Module SendFacts.
Import GoStrings StringFacts.

Section Recipients.
Variable TrimSpace : string -> string.
Hypothesis TrimSpace_trims : trims TrimSpace.

Lemma parseRecipients_loop_clean (pieces : list string) (r : string) :
  In r (parseRecipients_loop TrimSpace pieces) ->
  is_empty r = false
  /\ exists piece, In piece pieces /\ r = TrimSpace piece.
Proof.
  induction pieces as [|p pieces IH]; cbn [parseRecipients_loop].
  - intros [].
  - destruct (is_empty (TrimSpace p)) eqn:He; cbn [negb].
    + intros H. destruct (IH H) as (Hr & piece & Hin & Heq).
      split; [exact Hr | ]. exists piece. split; [right; exact Hin | exact Heq].
    + intros [H|H].
      * subst r. split; [exact He | ]. exists p. split; [left | ]; reflexivity.
      * destruct (IH H) as (Hr & piece & Hin & Heq).
        split; [exact Hr | ].
        exists piece. split; [right; exact Hin | exact Heq].
Qed.

(** X25.  With a [TrimSpace] that returns a stretch of its argument,
    every recipient that [parseRecipients] returns is non-empty, holds no
    comma, and is the trimmed form of one of the comma-separated pieces
    of the field; an empty field gives no recipient. *)
Theorem parseRecipients_clean (recipients r : string) :
  In r (parseRecipients TrimSpace recipients) ->
  is_empty r = false
  /\ has_byte ","%char r = false
  /\ (exists piece,
         In piece (Split recipients ","%char) /\ r = TrimSpace piece)
  /\ is_empty recipients = false.
Proof.
  unfold parseRecipients.
  destruct (is_empty recipients) eqn:He; [intros [] | ].
  intros H.
  destruct (parseRecipients_loop_clean _ _ H) as (Hr & piece & Hin & Heq).
  split; [exact Hr | ].
  split; [ | split; [exists piece; auto | reflexivity]].
  match goal with |- ?b = false => destruct b eqn:Hb; [ | reflexivity] end.
  subst r. apply (trims_has_byte _ _ TrimSpace_trims) in Hb.
  rewrite (Split_pieces_lack_sep _ _ _ Hin) in Hb. discriminate Hb.
Qed.

Lemma Contains_nonempty (s p : string) :
  Contains s p = true -> is_empty p = false -> is_empty s = false.
Proof.
  destruct s; [ | reflexivity].
  cbn. rewrite orb_false_r. destruct p; [discriminate | ].
  intros H. discriminate H.
Qed.

Lemma validate_To_loop_accepts (pieces : list string) :
  validate_To_loop TrimSpace pieces = None ->
  parseRecipients_loop TrimSpace pieces = map TrimSpace pieces
  /\ forall p, In p pieces ->
               Contains (TrimSpace p) "@" = true
               /\ Contains (TrimSpace p) "." = true.
Proof.
  induction pieces as [|p pieces IH];
    cbn [validate_To_loop parseRecipients_loop map].
  - intros _. split; [reflexivity | intros p []].
  - destruct (Contains (TrimSpace p) "@") eqn:Hat; cbn [negb orb];
      [ | discriminate].
    destruct (Contains (TrimSpace p) ".") eqn:Hdot; cbn [negb];
      [ | discriminate].
    intros H. destruct (IH H) as (Hparse & Hall).
    rewrite (Contains_nonempty _ _ Hat eq_refl). cbn [negb].
    split; [rewrite Hparse; reflexivity | ].
    intros q [Hq|Hq]; [subst q; auto | apply Hall; exact Hq].
Qed.

(** X26.  A [To] field that the validator of the form accepts always
    yields recipients: [parseRecipients] returns the trimmed form of
    every comma-separated piece, at least one, each holding an "@" and a
    "."; so [sendEmail] does not find the list of recipients empty,
    whatever the other fields hold. *)
Theorem validated_To_has_recipients (s : string) :
  validate_To TrimSpace s = None ->
  parseRecipients TrimSpace s = map TrimSpace (Split s ","%char)
  /\ parseRecipients TrimSpace s <> []
  /\ (forall r, In r (parseRecipients TrimSpace s) ->
                Contains r "@" = true /\ Contains r "." = true)
  /\ (forall cc bcc : list string,
         (List.length ((parseRecipients TrimSpace s ++ cc) ++ bcc) =? 0)%nat
         = false).
Proof.
  unfold validate_To.
  destruct (is_empty (TrimSpace s)) eqn:Hts; [discriminate | ].
  intros Hloop.
  assert (Hs : is_empty s = false).
  { destruct s; [ | reflexivity].
    rewrite (trims_empty TrimSpace_trims) in Hts. discriminate Hts. }
  destruct (validate_To_loop_accepts _ Hloop) as (Hparse & Hall).
  assert (Heq : parseRecipients TrimSpace s = map TrimSpace (Split s ","%char))
    by (unfold parseRecipients; rewrite Hs; exact Hparse).
  assert (Hne : parseRecipients TrimSpace s <> []).
  { rewrite Heq. pose proof (Split_sum ","%char s) as Hsum.
    destruct (Split s ","%char); [cbn in Hsum; lia | discriminate]. }
  split; [exact Heq | ]. split; [exact Hne | ]. split.
  - intros r Hr. rewrite Heq in Hr. apply in_map_iff in Hr.
    destruct Hr as (p & Hp & Hin). subst r. apply Hall. exact Hin.
  - intros cc bcc. destruct (parseRecipients TrimSpace s);
      [contradiction | reflexivity].
Qed.

End Recipients.

Section Sending.
Variable TrimSpace : string -> string.
Variable S : Type.
Variable smtp : SmtpOps S.

(** The recipients loop on the observed client. *)
Lemma sendEmail_recipients_traced (recipients : list string) :
  forall (s : S) (tr0 : list SmtpExchange),
  exists s' tr e,
    sendEmail_recipients (traced_smtp smtp) recipients (s, tr0)
    = ((s', tr0 ++ tr), e)
    /\ (e = None -> tr = map (fun r => (SmtpRcpt r, None)) recipients).
Proof.
  induction recipients as [|r rest IH]; intros s tr0.
  - exists s, [], None. cbn. rewrite app_nil_r. auto.
  - cbn [sendEmail_recipients]. unfold bind at 1.
    cbn [traced_smtp smtp_Rcpt]. unfold record_smtp at 1. cbn [fst snd].
    destruct (smtp_Rcpt smtp r s) as [s1 [err|]].
    + eexists s1, _, _. split; [reflexivity | ]. intros H. discriminate H.
    + destruct (IH s1 (tr0 ++ [(SmtpRcpt r, None)]))
        as (s' & tr & e & Hrun & Hok).
      exists s', ((SmtpRcpt r, None) :: tr), e. split.
      * rewrite Hrun. rewrite <- app_assoc. reflexivity.
      * intros He. rewrite (Hok He). reflexivity.
Qed.

(** The dialogue with the server on the observed client. *)
Lemma sendEmail_dialogue_traced host username password all message :
  forall (s : S) (tr0 : list SmtpExchange),
  exists s' tr res,
    sendEmail_dialogue (traced_smtp smtp) host username password all message
                       (s, tr0)
    = ((s', tr0 ++ tr), res)
    /\ (fst res = None ->
        tr = [(SmtpAuth username password host, None);
              (SmtpMail username, None)]
             ++ map (fun r => (SmtpRcpt r, None)) all
             ++ [(SmtpData, None); (SmtpWrite message, None);
                 (SmtpCloseWriter, None)]).
Proof.
  intros s tr0. unfold sendEmail_dialogue.
  unfold bind at 1. cbn [traced_smtp smtp_Auth]. unfold record_smtp at 1.
  cbn [fst snd].
  destruct (smtp_Auth smtp username password host s) as [s1 [err|]].
  { eexists s1, _, _. split; [reflexivity | ]. intros H. discriminate H. }
  unfold bind at 1. cbn [traced_smtp smtp_Mail]. unfold record_smtp at 1.
  cbn [fst snd].
  destruct (smtp_Mail smtp username s1) as [s2 [err|]].
  { eexists s2, _, _. split; [rewrite <- app_assoc; reflexivity | ].
    intros H. discriminate H. }
  unfold bind at 1.
  destruct (sendEmail_recipients_traced all s2
              ((tr0 ++ [(SmtpAuth username password host, None)])
                 ++ [(SmtpMail username, None)]))
    as (s3 & trr & e & Hrun & Hok).
  rewrite Hrun. destruct e as [err|].
  { eexists s3, _, _. split; [repeat rewrite <- app_assoc; reflexivity | ].
    intros H. discriminate H. }
  rewrite (Hok eq_refl).
  unfold bind at 1. cbn [traced_smtp smtp_Data]. unfold record_smtp at 1.
  cbn [fst snd].
  destruct (smtp_Data smtp s3) as [s4 [err|]].
  { eexists s4, _, _. split; [repeat rewrite <- app_assoc; reflexivity | ].
    intros H. discriminate H. }
  unfold bind at 1. cbn [traced_smtp writer_Write]. unfold record_smtp at 1.
  cbn [fst snd].
  destruct (writer_Write smtp message s4) as [s5 [err|]].
  { eexists s5, _, _. split; [repeat rewrite <- app_assoc; reflexivity | ].
    intros H. discriminate H. }
  unfold bind at 1. cbn [traced_smtp writer_Close]. unfold record_smtp at 1.
  cbn [fst snd].
  destruct (writer_Close smtp s5) as [s6 [err|]].
  { eexists s6, _, _. split; [repeat rewrite <- app_assoc; reflexivity | ].
    intros H. discriminate H. }
  eexists s6, _, _. split; [repeat rewrite <- app_assoc; reflexivity | ].
  intros _. reflexivity.
Qed.

(** Every run of [sendEmail] on the observed client is one of the runs
    of [send_run]. *)
Lemma sendEmail_runs email host port username password date (s : S) :
  exists s' tr res,
    sendEmail TrimSpace (traced_smtp smtp) email host port username password
              date (s, [])
    = ((s', tr), res)
    /\ send_run TrimSpace email host port username password date tr (fst res).
Proof.
  unfold sendEmail.
  destruct (form_Confirm email) eqn:Hconfirm; cbn [negb].
  2: { eexists s, [], _. split; [reflexivity | ]. cbn [fst].
       apply send_cancelled. exact Hconfirm. }
  destruct ((parseRecipients TrimSpace (form_To email)
             ++ parseRecipients TrimSpace (form_Cc email))
            ++ parseRecipients TrimSpace (form_Bcc email)) as [|r0 all0] eqn:Hall.
  { eexists s, [], _. split; [reflexivity | ]. cbn [fst].
    apply send_no_recipient; assumption. }
  cbn [List.length Nat.eqb]. cbv zeta.
  unfold bind at 1. cbn [traced_smtp tls_Dial]. unfold record_smtp at 1.
  cbn [fst snd app].
  destruct (tls_Dial smtp (host ++ ":" ++ port)%string host s) as [s1 [e|]].
  { eexists s1, _, _. split; [reflexivity | ]. cbn [fst].
    apply send_no_connection. exact Hconfirm. }
  unfold bind at 1. unfold bind at 1.
  cbn [traced_smtp smtp_NewClient]. unfold record_smtp at 1.
  cbn [fst snd app].
  destruct (smtp_NewClient smtp host s1) as [s2 [e|]].
  { unfold ret at 1. unfold bind at 1.
    cbn [traced_smtp conn_Close]. unfold record_smtp at 1. cbn [fst snd app].
    destruct (conn_Close smtp s2) as [s3 o].
    eexists s3, _, _. split; [reflexivity | ]. cbn [fst].
    apply send_no_client. exact Hconfirm. }
  unfold bind at 1.
  destruct (sendEmail_dialogue_traced host username password (r0 :: all0)
              (buildEmailMessage email username
                 (parseRecipients TrimSpace (form_To email))
                 (parseRecipients TrimSpace (form_Cc email)) date)
              s2 [(SmtpDial (host ++ ":" ++ port) host, None);
                  (SmtpNewClient host, None)])
    as (s3 & tr & res & Hrun & Hok).
  match goal with
  | |- context [sendEmail_dialogue ?ops ?h ?u ?pw ?all ?msg ?st] =>
      replace (sendEmail_dialogue ops h u pw all msg st)
        with (s3,
              [(SmtpDial (host ++ ":" ++ port) host, None);
               (SmtpNewClient host, None)] ++ tr, res)
        by (symmetry; exact Hrun)
  end.
  unfold bind at 1. cbn [traced_smtp smtp_Quit]. unfold record_smtp at 1.
  cbn [fst snd].
  destruct (smtp_Quit smtp s3) as [s4 o].
  unfold ret at 1. unfold bind at 1.
  cbn [traced_smtp conn_Close]. unfold record_smtp at 1. cbn [fst snd].
  destruct (conn_Close smtp s4) as [s5 o'].
  eexists s5, _, res. split; [reflexivity | ].
  repeat rewrite <- app_assoc.
  cbn [app].
  apply send_dialogue with (tr := tr);
    [exact Hconfirm | rewrite Hall; exact Hok].
Qed.

(** X27.  A send that is not confirmed, or that has no recipient in any
    of the To, Cc and Bcc fields, never touches the network: nothing is
    dialled.  The first returns no error, the second the error "no valid
    recipients found". *)
Theorem sendEmail_without_network email host port username password date
        (s : S) :
  form_Confirm email = false
  \/ (parseRecipients TrimSpace (form_To email)
      ++ parseRecipients TrimSpace (form_Cc email))
     ++ parseRecipients TrimSpace (form_Bcc email) = [] ->
  let r := sendEmail TrimSpace (traced_smtp smtp) email host port username
                     password date (s, []) in
  fst r = (s, [])
  /\ (form_Confirm email = false -> fst (snd r) = None)
  /\ (form_Confirm email = true ->
      fst (snd r) = Some "no valid recipients found").
Proof.
  intros Hcase r. subst r. unfold sendEmail.
  destruct (form_Confirm email) eqn:Hconfirm; cbn [negb].
  - destruct Hcase as [H|H]; [discriminate H | ].
    rewrite H. cbn. repeat split; auto. intros H'. discriminate H'.
  - cbn. repeat split; auto. intros H'. discriminate H'.
Qed.

(** X28.  The deferred calls of [sendEmail].  Whatever the server
    answers, a run that has dialled with success ends by closing the
    connection, and a run that has made its client with success ends by
    quitting the session and then closing the connection. *)
Theorem sendEmail_closes_connection email host port username password date
        (s : S) :
  let tr := snd (fst (sendEmail TrimSpace (traced_smtp smtp) email host port
                                username password date (s, []))) in
  (forall addr name, In (SmtpDial addr name, None) tr ->
                     exists pre o, tr = pre ++ [(SmtpConnClose, o)])
  /\ (forall h, In (SmtpNewClient h, None) tr ->
                exists pre o o',
                  tr = pre ++ [(SmtpQuit, o); (SmtpConnClose, o')]).
Proof.
  intros tr. subst tr.
  destruct (sendEmail_runs email host port username password date s)
    as (s' & tr & res & Hrun & Hshape).
  rewrite Hrun. cbn [fst snd].
  destruct Hshape as [Hc | Hc Hall | e Hc | e o Hc | tr' err o o' Hc Hok].
  - split; [intros addr name [] | intros h []].
  - split; [intros addr name [] | intros h []].
  - split.
    + intros addr name [H|[]]. discriminate H.
    + intros h [H|[]]. discriminate H.
  - split.
    + intros addr name _.
      exists [(SmtpDial (host ++ ":" ++ port) host, None);
              (SmtpNewClient host, Some e)], o.
      reflexivity.
    + intros h [H|[H|[H|[]]]]; discriminate H.
  - split.
    + intros addr name _.
      exists ([(SmtpDial (host ++ ":" ++ port) host, None);
               (SmtpNewClient host, None)] ++ tr' ++ [(SmtpQuit, o)]), o'.
      repeat rewrite <- app_assoc. reflexivity.
    + intros h _.
      exists ([(SmtpDial (host ++ ":" ++ port) host, None);
               (SmtpNewClient host, None)] ++ tr'), o, o'.
      repeat rewrite <- app_assoc. reflexivity.
Qed.

(** X29.  A confirmed send that returns no error has had this
    conversation and no other: dial, new client, authentication, the
    sender set to the user name, one accepted RCPT for every recipient of
    the To field, then of the Cc field, then of the Bcc field, in that
    order, then DATA, the message written once (built from the To and Cc
    recipients only), the writer closed, QUIT, and the connection
    closed. *)
Theorem sendEmail_success email host port username password date (s : S) :
  form_Confirm email = true ->
  let r := sendEmail TrimSpace (traced_smtp smtp) email host port username
                     password date (s, []) in
  fst (snd r) = None ->
  exists o o',
    snd (fst r)
    = [(SmtpDial (host ++ ":" ++ port) host, None);
       (SmtpNewClient host, None);
       (SmtpAuth username password host, None);
       (SmtpMail username, None)]
      ++ map (fun to => (SmtpRcpt to, None))
             ((parseRecipients TrimSpace (form_To email)
               ++ parseRecipients TrimSpace (form_Cc email))
              ++ parseRecipients TrimSpace (form_Bcc email))
      ++ [(SmtpData, None);
          (SmtpWrite
             (buildEmailMessage email username
                (parseRecipients TrimSpace (form_To email))
                (parseRecipients TrimSpace (form_Cc email)) date), None);
          (SmtpCloseWriter, None);
          (SmtpQuit, o);
          (SmtpConnClose, o')].
Proof.
  intros Hconfirm r. subst r.
  destruct (sendEmail_runs email host port username password date s)
    as (s' & tr & res & Hrun & Hshape).
  rewrite Hrun. cbn [fst snd]. intros Hres. rewrite Hres in Hshape.
  inversion Hshape as [Hc | | | | tr' err o o' Hc Hok Htr Herr].
  - rewrite Hconfirm in Hc. discriminate Hc.
  - exists o, o'. rewrite (Hok eq_refl).
    cbn [app]. repeat rewrite <- app_assoc. reflexivity.
Qed.

End Sending.

End SendFacts.

(* ================================================================== *)
(** ** Further runs on the stand-ins *)

Module MoreRuns.
Import Testbed Testbed2 GoStrings.

Lemma TrimRight_stretch (cutset s : string) :
  exists post, s = (TrimRight s cutset ++ post)%string.
Proof.
  induction s as [| c s IH]; [exists ""%string; reflexivity | ].
  destruct IH as [post Hpost]. cbn [TrimRight].
  destruct (TrimRight s cutset) as [| d t] eqn:Ht.
  - destruct (in_cutset cutset c).
    + exists (String c s). reflexivity.
    + exists s. reflexivity.
  - exists post. cbn [append]. f_equal. exact Hpost.
Qed.

Lemma TrimLeft_spaces_stretch (s : string) :
  exists pre, s = (pre ++ TrimLeft_spaces s)%string.
Proof.
  induction s as [| c s IH]; [exists ""%string; reflexivity | ].
  cbn [TrimLeft_spaces]. destruct (in_cutset spaces c).
  - destruct IH as [pre Hpre]. exists (String c pre).
    cbn [append]. f_equal. exact Hpre.
  - exists ""%string. reflexivity.
Qed.

(** The ASCII stand-in returns a stretch of its argument. *)
Lemma asciiTrimSpace_trims : trims asciiTrimSpace.
Proof.
  intros s. unfold asciiTrimSpace.
  destruct (TrimLeft_spaces_stretch s) as [pre Hpre].
  destruct (TrimRight_stretch spaces (TrimLeft_spaces s)) as [post Hpost].
  exists pre, post. rewrite <- Hpost. exact Hpre.
Qed.

Lemma insert_by_perm less (e : Email) (l : list Email) :
  Permutation (insert_by less e l) (e :: l).
Proof.
  induction l as [| x rest IH]; cbn [insert_by].
  - apply Permutation_refl.
  - destruct (less x e).
    + eapply perm_trans; [apply perm_skip; exact IH | apply perm_swap].
    + apply Permutation_refl.
Qed.

(** The insertion sort of the stand-ins reorders and nothing else. *)
Lemma sort_by_perm less (l : list Email) : Permutation (sort_by less l) l.
Proof.
  unfold sort_by. induction l as [| x rest IH]; cbn [fold_right].
  - apply perm_nil.
  - eapply perm_trans; [apply insert_by_perm | apply perm_skip; exact IH].
Qed.

Lemma first_run_runs :
  run (serverOps (okServer 51)) sampleMime sort_by (tk := plainToolkit)
      10 (Init app0) app0
  = Some (fst first_run, snd first_run).
Proof. vm_compute. reflexivity. Qed.

Lemma reachable_enter_pressed :
  reachable (serverOps (okServer 51)) sampleMime sort_by enter_pressed.
Proof.
  unfold enter_pressed, yes_chosen, d_pressed, page_in.
  do 4 apply reachable_Update.
  eapply reachable_run; [ | exact first_run_runs].
  apply reachable_NewApp.
Qed.

Lemma running_enter_pressed :
  running (serverOps (okServer 51)) sampleMime sort_by
          (enter_pressed,
           [snd (update0 (KeyMsg "enter") yes_chosen);
            snd (update0 (KeyMsg "right") d_pressed);
            snd (update0 (KeyMsg "d") page_in);
            snd (update0 (snd first_run) (fst first_run))]).
Proof.
  unfold enter_pressed, yes_chosen, d_pressed, page_in.
  do 3 (apply running_outside; [ | reflexivity]).
  apply (running_finish (imap := serverOps (okServer 51)) (lib := sampleMime)
           (sort_Slice := sort_by) (a := app0) [] (Init app0) [] 10).
  - apply (running_start (serverOps (okServer 51)) sampleMime sort_by
             plainToolkit "user" "secret" "imap.example.org" "993").
  - exact first_run_runs.
Qed.

(** X1 on the second page of 120 messages. *)
Lemma fetchEmails_range_full_page_witness :
  Pagination.fetchEmails_range 120 2 50 = Pagination.page_range_spec 120 2 50.
Proof.
  apply PaginationFacts.fetchEmails_range_full_page;
    unfold U32.in_range, U32.modulus; lia.
Defined.

(** X3 on the third page of 120 messages. *)
Lemma fetchEmails_range_start_wraps_witness :
  fst (Pagination.fetchEmails_range 120 3 50) = 120 - 3 * 50 + 1 + 2 ^ 32.
Proof.
  apply PaginationFacts.fetchEmails_range_start_wraps;
    unfold U32.in_range, U32.modulus; lia.
Defined.

(** X2 on the second page of 120 messages, the last that lies wholly
    inside. *)
Lemma full_pages_tile_witness :
  snd (Pagination.fetchEmails_range 120 1 50) = 120
  /\ snd (Pagination.fetchEmails_range 120 2 50)
     - fst (Pagination.fetchEmails_range 120 2 50) + 1 = 50
  /\ snd (Pagination.fetchEmails_range 120 2 50) + 1
     = fst (Pagination.fetchEmails_range 120 (2 - 1) 50).
Proof.
  assert (Hrange : U32.in_range 120) by (unfold U32.in_range, U32.modulus; lia).
  assert (Hfull : 2 * 50 <= 120) by lia.
  assert (Hpage : 1 <= 2) by lia.
  destruct (@PageFacts.full_pages_tile 120 2 50 Hrange eq_refl Hpage Hfull)
    as (H1 & _ & _ & H4 & H5 & _).
  split; [exact H1 | ]. split; [exact H4 | exact (H5 eq_refl)].
Defined.

(** X4 on the newest header of the first page of 51 messages. *)
Lemma fetchEmails_headers_witness :
  In (header 51)
     (fst (fst (snd (fetchEmails (serverOps (okServer 51)) sort_by 1 50
                                 (okServer 51)))))
  /\ is_empty (Subject (header 51)) = false
  /\ Body (header 51) = ""%string.
Proof.
  assert (Hin : In (header 51)
                   (fst (fst (snd (fetchEmails (serverOps (okServer 51))
                                               sort_by 1 50 (okServer 51)))))).
  { vm_compute. left. reflexivity. }
  split; [exact Hin | ].
  destruct (HeaderFacts.fetchEmails_headers (serverOps (okServer 51)) sort_by
              1 50 (okServer 51) (header 51) sort_by_perm Hin)
    as (H1 & H2 & _).
  split; [exact H1 | exact H2].
Defined.

(** X7 on a unique id that the server does not hold. *)
Lemma fetchEmailBodyParsed_errors_witness :
  fetchEmailBodyParsed (serverOps (okServer 3)) sampleMime 5 99 (okServer 3)
  = (okServer 3, Some (zeroEmail, Some "could not load email body"%string)).
Proof.
  assert (Hfetch : UidFetch (serverOps (okServer 3)) 99 (okServer 3)
                   = (okServer 3, [])).
  { vm_compute. reflexivity. }
  exact (proj1 (PipelineFacts.fetchEmailBodyParsed_errors
                  (serverOps (okServer 3)) sampleMime 99 (okServer 3) Hfetch)
               eq_refl 5%nat).
Defined.

(** X8 on the library whose multipart reader always fails. *)
Lemma parseEmailBody_hangs_on_failing_reader_witness :
  parseEmailBody stuckMime 1000 "any message" = None.
Proof.
  apply (@PipelineFacts.parseEmailBody_hangs_on_failing_reader stuckMime
           "any message" "multipart/mixed" tt "multipart: boundary is empty");
    reflexivity.
Defined.

(** X9 on a server with a trash folder. *)
Lemma move_success_is_final_witness :
  last (snd (fst (moveEmailToTrash (traced (serverOps (okServer 2))) 2
                                   (okServer 2, []))))
       (CallUidMove 2 "Trash", None)
  = (CallUidMove 2 "Trash", None)
  /\ forall y,
      In y (snd (fst (moveEmailToTrash (traced (serverOps (okServer 2))) 2
                                       (okServer 2, [])))) ->
      is_destructive y = false.
Proof.
  destruct (PipelineFacts.move_success_is_final (serverOps (okServer 2)) 2
              (okServer 2) (CallUidMove 2 "Trash", None))
    as (H1 & _ & H3).
  - vm_compute. right. right. left. reflexivity.
  - reflexivity.
  - reflexivity.
  - split; [exact H1 | exact H3].
Defined.

(** X11 on a key pressed after an error. *)
Lemma error_screen_is_final_witness :
  err (fst (update0 (KeyMsg "r") failed)) <> None
  /\ exists e, View (fst (update0 (KeyMsg "r") failed)) = ScreenError e.
Proof.
  apply (@MachineFacts.error_screen_is_final _ (serverOps (okServer 51))
           sampleMime sort_by plainToolkit failed).
  - vm_compute. discriminate.
  - apply evolves_Update. apply evolves_refl.
Defined.

(** X12 after the confirmed delete was requested. *)
Lemma View_never_blank_witness : View enter_pressed <> ScreenBlank.
Proof.
  exact (MachineFacts.View_never_blank reachable_enter_pressed).
Defined.

(** X13 after the confirmed delete was requested. *)
Lemma reachable_dialog_consistent_witness : dialog_consistent enter_pressed.
Proof.
  exact (MachineFacts.reachable_dialog_consistent reachable_enter_pressed).
Defined.

(** X14 on an index of three messages. *)
Lemma refresh_guard_witness :
  snd (update0 (KeyMsg "r") three_loaded) = CmdLoadEmails 1 false
  /\ loading (fst (update0 (KeyMsg "r") three_loaded)) = true
  /\ emails (fst (update0 (KeyMsg "r") three_loaded)) = emails three_loaded.
Proof.
  assert (Hstate : state three_loaded <> deleteConfirmView).
  { vm_compute. discriminate. }
  destruct (proj1 (MachineFacts.refresh_guard (serverOps (okServer 51))
                     three_loaded Hstate) eq_refl eq_refl)
    as (H1 & H2 & _ & H4).
  split; [exact H1 | ]. split; [exact H2 | exact H4].
Defined.

(** X15 with the cursor on the load-more entry. *)
Lemma load_more_guard_witness :
  snd (update0 (KeyMsg "enter") on_load_more) = CmdLoadEmails 2 true
  /\ loadingMore (fst (update0 (KeyMsg "enter") on_load_more)) = true.
Proof.
  assert (Hrange : GoInt.in_range (currentPage on_load_more + 1)).
  { vm_compute. split; [discriminate | reflexivity]. }
  assert (Hindex : (list_Index plainToolkit (list_ on_load_more)
                    < List.length (list_Items plainToolkit
                                              (list_ on_load_more)))%nat).
  { vm_compute. apply le_n. }
  destruct (proj1 (MachineFacts.load_more_guard (serverOps (okServer 51))
                     on_load_more eq_refl Hindex eq_refl Hrange) eq_refl)
    as (H1 & H2 & _).
  split; [exact H1 | exact H2].
Defined.

(** X16 on the key [q] pressed in the dialog. *)
Lemma dialog_keys_witness :
  emails (fst (update0 (KeyMsg "q") d_pressed)) = emails d_pressed
  /\ hasMore (fst (update0 (KeyMsg "q") d_pressed)) = hasMore d_pressed
  /\ client (fst (update0 (KeyMsg "q") d_pressed)) = client d_pressed.
Proof.
  destruct (MachineFacts.dialog_keys (serverOps (okServer 51)) d_pressed "q"
              eq_refl)
    as (H1 & _ & H3 & _ & H5 & _).
  split; [exact H1 | ]. split; [exact H3 | exact H5].
Defined.

(** X17 on a page of three messages out of three. *)
Lemma load_sets_hasMore_witness : hasMore_agrees three_loaded.
Proof.
  apply (HasMoreFacts.load_sets_hasMore (serverOps (okServer 51)) app0
           (headers 1 3) 3 false).
  vm_compute. reflexivity.
Defined.

(** X18 on the message 2 deleted from the index 3, 2, 1. *)
Lemma delete_keeps_hasMore_witness :
  hasMore_agrees (fst (update0 (emailDeletedMsg 2 true "moved") three_loaded)).
Proof.
  apply (@HasMoreFacts.delete_keeps_hasMore _ (serverOps (okServer 51))
           plainToolkit three_loaded 2 "moved").
  - vm_compute. reflexivity.
  - vm_compute. right. left. reflexivity.
  - vm_compute. split; [discriminate | reflexivity].
  - vm_compute. reflexivity.
Defined.

(** X19 on a body that arrives for a message not in the index. *)
Lemma body_loaded_absent_witness :
  emails (fst (update0 (emailBodyLoadedMsg 99 cached) three_loaded))
  = emails three_loaded.
Proof.
  apply (BrowserFacts.body_loaded_absent (serverOps (okServer 51))
           three_loaded 99 cached).
  vm_compute. intros [H | [H | [H | H]]]; try discriminate H. exact H.
Defined.

(** X20 on the delete command pending after the confirmation. *)
Lemma commands_have_client_witness :
  client enter_pressed <> None
  /\ exists a' ok message,
      run (serverOps (okServer 51)) sampleMime sort_by 0
          (CmdDeleteEmail 51) enter_pressed
      = Some (a', emailDeletedMsg 51 ok message).
Proof.
  destruct (MachineFacts.commands_have_client (CmdDeleteEmail 51)
              running_enter_pressed (or_introl eq_refl) eq_refl)
    as [H1 H2].
  split; [exact H1 | exact (H2 51 eq_refl)].
Defined.

(** X23 on text with Windows line ends. *)
Lemma cleanupWhitespace_no_carriage_return_witness :
  match cleanupWhitespace asciiTrimSpace 50 untidy with
  | Some out => has_byte CR out = false
                /\ (String.length out <= String.length untidy)%nat
  | None => False
  end.
Proof.
  destruct (cleanupWhitespace asciiTrimSpace 50 untidy) as [out |] eqn:Hout.
  - exact (StringFacts.cleanupWhitespace_no_carriage_return 50 untidy
             asciiTrimSpace_trims Hout).
  - vm_compute in Hout. discriminate Hout.
Defined.

(** X24 on text with six empty lines in a row. *)
Lemma cleanupWhitespace_squeezes_newlines_witness :
  match cleanupWhitespace asciiTrimSpace 50 untidy with
  | Some out =>
      Contains out (String LF (String LF (String LF (str LF)))) = false
  | None => False
  end.
Proof.
  destruct (cleanupWhitespace asciiTrimSpace 50 untidy) as [out |] eqn:Hout.
  - exact (StringFacts.cleanupWhitespace_squeezes_newlines 50 untidy
             asciiTrimSpace_trims Hout).
  - vm_compute in Hout. discriminate Hout.
Defined.

(** X25 on the blind-copy field of the sample form. *)
Lemma parseRecipients_clean_witness :
  In "cy@example.org"%string
     (parseRecipients asciiTrimSpace (form_Bcc sampleForm))
  /\ is_empty "cy@example.org" = false
  /\ has_byte ","%char "cy@example.org" = false.
Proof.
  assert (Hin : In "cy@example.org"%string
                   (parseRecipients asciiTrimSpace (form_Bcc sampleForm))).
  { vm_compute. left. reflexivity. }
  split; [exact Hin | ].
  destruct (SendFacts.parseRecipients_clean asciiTrimSpace_trims
              (form_Bcc sampleForm) "cy@example.org" Hin)
    as (H1 & H2 & _).
  split; [exact H1 | exact H2].
Defined.

(** X26 on the recipients of the sample form. *)
Lemma validated_To_has_recipients_witness :
  parseRecipients asciiTrimSpace (form_To sampleForm)
  = map asciiTrimSpace (Split (form_To sampleForm) ","%char)
  /\ parseRecipients asciiTrimSpace (form_To sampleForm) <> [].
Proof.
  destruct (SendFacts.validated_To_has_recipients asciiTrimSpace_trims
              (form_To sampleForm) eq_refl)
    as (H1 & H2 & _).
  split; [exact H1 | exact H2].
Defined.

(** X27 on a form whose fields hold no address. *)
Lemma sendEmail_without_network_witness :
  fst (sendEmail asciiTrimSpace (traced_smtp okSmtp)
                 (mkEmailForm " , " "" "" "Hello" "See you." "normal" "" true)
                 "smtp.example.org" "465" "ann" "pw" sampleDate (tt, []))
  = (tt, []).
Proof.
  apply (SendFacts.sendEmail_without_network asciiTrimSpace okSmtp
           (mkEmailForm " , " "" "" "Hello" "See you." "normal" "" true)
           "smtp.example.org" "465" "ann" "pw" sampleDate tt).
  right. vm_compute. reflexivity.
Defined.

(** X29 on the sample form and a server that accepts everything. *)
Lemma sendEmail_success_witness :
  exists o o',
    snd (fst (sendEmail asciiTrimSpace (traced_smtp okSmtp) sampleForm
                        "smtp.example.org" "465" "ann" "pw" sampleDate
                        (tt, [])))
    = [(SmtpDial "smtp.example.org:465" "smtp.example.org", None);
       (SmtpNewClient "smtp.example.org", None);
       (SmtpAuth "ann" "pw" "smtp.example.org", None);
       (SmtpMail "ann", None);
       (SmtpRcpt "ann@example.org", None);
       (SmtpRcpt "bob@example.org", None);
       (SmtpRcpt "cy@example.org", None);
       (SmtpData, None);
       (SmtpWrite
          (buildEmailMessage sampleForm "ann"
             ["ann@example.org"; "bob@example.org"]%string [] sampleDate),
        None);
       (SmtpCloseWriter, None);
       (SmtpQuit, o);
       (SmtpConnClose, o')].
Proof.
  exact (SendFacts.sendEmail_success asciiTrimSpace okSmtp sampleForm
           "smtp.example.org" "465" "ann" "pw" sampleDate tt eq_refl eq_refl).
Defined.

(** C5 does not hold as it is worded: on a message without a
    [Content-Type] header, header parsing fails and the pipeline
    returns the decoded body, not the raw bytes. *)
Lemma raw_fallback_fails_on_untyped_message :
  UidFetch (serverOps untypedServer) 7 untypedServer
  = (untypedServer, [mkImapMessage None [] 7 [Some (Ok untypedRaw)]])
  /\ header_parsing_fails untypedMime untypedRaw = true
  /\ fetchEmailBodyParsed (serverOps untypedServer) untypedMime 5 7
                          untypedServer
     = (untypedServer,
        Some (mkEmail 0 "" "" "" 0 "hello" "" "hello" "text/plain" false,
              None))
  /\ fetchEmailBodyParsed (serverOps untypedServer) untypedMime 5 7
                          untypedServer
     <> (untypedServer, Some (fallback_email untypedRaw, None)).
Proof.
  split; [reflexivity | ]. split; [reflexivity | ].
  split; [reflexivity | ].
  vm_compute. intros Heq. discriminate Heq.
Qed.

(** C7 does not hold as it is worded: the newest message of the page
    has had its body fetched, decoded and merged into the index; its
    display body is empty, and enter on it in the list fetches the body
    again. *)
Lemma select_refetches_fetched_empty_body :
  snd (update0 (KeyMsg "enter") page_in) = CmdLoadEmailBody 51
  /\ snd body_run
     = emailBodyLoadedMsg
         51 (mkEmail 0 "" "" "" 0 "" "" "" "multipart/mixed" false)
  /\ state back_in_list = listView
  /\ option_map (fun e => (UID e, Body e, ContentType e))
                (nth_error (emails back_in_list)
                           (list_Index plainToolkit (list_ back_in_list)))
     = Some (51, ""%string, "multipart/mixed"%string)
  /\ snd (update0 (KeyMsg "enter") back_in_list) = CmdLoadEmailBody 51.
Proof.
  split; [vm_compute; reflexivity | ].
  split; [vm_compute; reflexivity | ].
  split; [vm_compute; reflexivity | ].
  split; vm_compute; reflexivity.
Qed.

End MoreRuns.
